(** * A model of the VLC remote Lua interface client (main.py)

    The development follows the source file top-down:

    - [Py]: the few Python run-time notions the program relies on
      (byte strings, text strings, dicts, exceptions);
    - [Json]: the decoder behind [json.loads], as far as [readjson] and the
      dispatcher observe it;
    - [JsonStreamReader]: the framer, [readjson];
    - [Asyncio]: futures and their done-callbacks;
    - [SpuEntry]: the record of a subtitle track;
    - [Request]: the outgoing frame, [Request.bytes];
    - [VLCApi]: [read], [issue_request], [execute], [test_connection] and
      [connect], then [get_spu_entries], [get_spu_list], [select_spu] and
      the choice of the track in [run].

    The statements about these follow the definitions, component by
    component.

    Coroutines are modelled by explicit state passing.  A coroutine that
    suspends in an [await] is a function of the inputs that arrive while it
    is suspended; it answers [Suspended] when these run out. *)

From Stdlib Require Import ZArith NArith Ascii String List Lia.
From Stdlib Require Import DecimalString DecimalZ.
From stdpp Require Import base option list gmap.

Local Open Scope Z_scope.

(* ================================================================== *)
(** * Python run-time notions *)
(* ================================================================== *)

Module Py.

(** [bytes] and [bytearray]: sequences of octets. *)
Definition bytes := list Byte.byte.

(** [str]: a sequence of Unicode code points (surrogates included, as in
    CPython). *)
Definition str := list N.

(** A text literal of this file read as a [str] (ASCII only). *)
Definition text (s : string) : str :=
  map (fun c => N_of_ascii c) (list_ascii_of_string s).

(** A byte literal of this file.  JSON is full of double quotes, so the
    literals below write an apostrophe where the byte string has the
    double quote 0x22. *)
Definition lit (s : string) : bytes :=
  map (fun c => if Ascii.eqb c "'"%char then Byte.x22 else byte_of_ascii c)
      (list_ascii_of_string s).

(** [str(n)], also what an f-string prints for an [int]. *)
Definition str_of_int (n : Z) : str :=
  text (NilZero.string_of_int (Z.to_int n)).

(** [int(s)] for a decimal literal, [None] where Python raises. *)
Definition int_of_str (s : str) : option Z :=
  if forallb (fun c => (c <? 128)%N) s
  then Z.of_int <$> NilZero.int_of_string
         (string_of_list_ascii (map ascii_of_N s))
  else None.

(** ** UTF-8 *)

Definition byte_of (n : N) : Byte.byte :=
  match Byte.of_N n with Some b => b | None => Byte.x00 end.

(** [s.encode('utf8')] of one code point; surrogates cannot be encoded
    (UnicodeEncodeError). *)
Definition utf8_encode_cp (c : N) : option bytes :=
  (if c <? 0x80 then Some [byte_of c]
   else if c <? 0x800 then
     Some [byte_of (0xC0 + c / 64); byte_of (0x80 + c mod 64)]
   else if (0xD800 <=? c) && (c <=? 0xDFFF) then None
   else if c <? 0x10000 then
     Some [byte_of (0xE0 + c / 4096); byte_of (0x80 + (c / 64) mod 64);
           byte_of (0x80 + c mod 64)]
   else if c <? 0x110000 then
     Some [byte_of (0xF0 + c / 262144); byte_of (0x80 + (c / 4096) mod 64);
           byte_of (0x80 + (c / 64) mod 64); byte_of (0x80 + c mod 64)]
   else None)%N.

Fixpoint utf8_encode (s : str) : option bytes :=
  match s with
  | [] => Some []
  | c :: s' =>
      match utf8_encode_cp c, utf8_encode s' with
      | Some b, Some bs => Some (b ++ bs)
      | _, _ => None
      end
  end.

Definition is_cont (b : N) : bool := ((0x80 <=? b) && (b <=? 0xBF))%N.

(** [b.decode('utf-8', 'surrogatepass')] on the octet values; [None] is
    UnicodeDecodeError.  Overlong forms and values above U+10FFFF are
    rejected, three-byte surrogates are let through by the error handler. *)
Fixpoint utf8_decode (b : list N) : option str :=
  match b with
  | [] => Some []
  | b0 :: t0 =>
    (if b0 <? 0x80 then cons b0 <$> utf8_decode t0
     else if (0xC2 <=? b0) && (b0 <=? 0xDF) then
       match t0 with
       | b1 :: t1 =>
           if is_cont b1
           then cons ((b0 - 0xC0) * 64 + (b1 - 0x80)) <$> utf8_decode t1
           else None
       | _ => None
       end
     else if (0xE0 <=? b0) && (b0 <=? 0xEF) then
       match t0 with
       | b1 :: b2 :: t2 =>
           if is_cont b1 && is_cont b2
              && ((negb (b0 =? 0xE0)) || (0xA0 <=? b1))
           then cons ((b0 - 0xE0) * 4096 + (b1 - 0x80) * 64 + (b2 - 0x80))
                  <$> utf8_decode t2
           else None
       | _ => None
       end
     else if (0xF0 <=? b0) && (b0 <=? 0xF4) then
       match t0 with
       | b1 :: b2 :: b3 :: t3 =>
           if is_cont b1 && is_cont b2 && is_cont b3
              && ((negb (b0 =? 0xF0)) || (0x90 <=? b1))
              && ((negb (b0 =? 0xF4)) || (b1 <=? 0x8F))
           then cons ((b0 - 0xF0) * 262144 + (b1 - 0x80) * 4096
                      + (b2 - 0x80) * 64 + (b3 - 0x80))
                  <$> utf8_decode t3
           else None
       | _ => None
       end
     else None)%N
  end.

(** ** UTF-16 and UTF-32, which [json.loads] selects for input with NUL
    octets in its first code unit *)

Definition is_high (u : N) : bool := ((0xD800 <=? u) && (u <=? 0xDBFF))%N.
Definition is_low (u : N) : bool := ((0xDC00 <=? u) && (u <=? 0xDFFF))%N.

Fixpoint units16 (le : bool) (b : list N) : option (list N) :=
  match b with
  | [] => Some []
  | x :: y :: t =>
      cons (if le then x + 256 * y else 256 * x + y)%N <$> units16 le t
  | _ => None
  end.

Fixpoint join16 (u : list N) : str :=
  match u with
  | [] => []
  | h :: t =>
      match t with
      | l :: t' =>
          if is_high h && is_low l
          then (0x10000 + (h - 0xD800) * 1024 + (l - 0xDC00))%N :: join16 t'
          else h :: join16 t
      | [] => [h]
      end
  end.

Definition utf16_decode (le : bool) (b : list N) : option str :=
  join16 <$> units16 le b.

Fixpoint utf32_decode (le : bool) (b : list N) : option str :=
  match b with
  | [] => Some []
  | x :: y :: z :: w :: t =>
      let c := (if le then x + 256 * (y + 256 * (z + 256 * w))
                else w + 256 * (z + 256 * (y + 256 * x)))%N in
      if (c <? 0x110000)%N then cons c <$> utf32_decode le t else None
  | _ => None
  end.

(** ** dict

    A Python [dict] keeps its keys unique and in insertion order. *)
Section Dict.
Context {K V : Type} `{EqDecision K}.

(** [d.get(k, None)]. *)
Fixpoint dict_get (k : K) (d : list (K * V)) : option V :=
  match d with
  | [] => None
  | (k', v) :: d' => if decide (k' = k) then Some v else dict_get k d'
  end.

(** [d[k] = v]: overwrite in place, or append. *)
Fixpoint dict_set (k : K) (v : V) (d : list (K * V)) : list (K * V) :=
  match d with
  | [] => [(k, v)]
  | (k', v') :: d' =>
      if decide (k' = k) then (k, v) :: d' else (k', v') :: dict_set k v d'
  end.

(** [del d[k]]; [None] is KeyError. *)
Fixpoint dict_del (k : K) (d : list (K * V)) : option (list (K * V)) :=
  match d with
  | [] => None
  | (k', v) :: d' =>
      if decide (k' = k) then Some d' else cons (k', v) <$> dict_del k d'
  end.

(** [d.values()]. *)
Definition dict_values (d : list (K * V)) : list V := map snd d.

End Dict.

(** ** Exceptions

    The exception classes that the program raises, catches or lets
    through.  Messages are kept where the program builds them from data. *)
Inductive exn :=
  | AssertionError
  | IncompleteReadError (partial : bytes)
  | LimitOverrunError (consumed : nat)
  | JSONDecodeError
  | UnicodeDecodeError
  | UnicodeEncodeError
  | RuntimeError (msg : str)
  | TimeoutError (msg : str)
  | KeyError (key : str)
  | AttributeError (name : str)
  | TypeError
  | InvalidStateError
  | CancelledError
  | ConnectionRefusedError
  | OSError.

(** [isinstance(e, RuntimeError)]. *)
Definition is_RuntimeError (e : exn) : bool :=
  match e with RuntimeError _ => true | _ => false end.

(** [isinstance(e, IncompleteReadError)]. *)
Definition is_IncompleteReadError (e : exn) : bool :=
  match e with IncompleteReadError _ => true | _ => false end.

(** [isinstance(e, ConnectionRefusedError)]. *)
Definition is_ConnectionRefusedError (e : exn) : bool :=
  match e with ConnectionRefusedError => true | _ => false end.

(** What running a piece of code up to its next suspension point gives. *)
Inductive outcome (A : Type) :=
  | Return (a : A)
  | Raise (e : exn)
  | Suspended.
Arguments Return {A} a.
Arguments Raise {A} e.
Arguments Suspended {A}.

(** ** str methods *)

(** [s] without the prefix [p], [None] when [s] does not start with
    [p]. *)
Fixpoint after_prefix (p s : str) : option str :=
  match p, s with
  | [], _ => Some s
  | a :: p', b :: s' => if (a =? b)%N then after_prefix p' s' else None
  | _ :: _, [] => None
  end.

(** The text before and after the first occurrence of [sep] in [s]. *)
Fixpoint cut (sep s : str) : option (str * str) :=
  match after_prefix sep s with
  | Some rest => Some ([], rest)
  | None =>
      match s with
      | [] => None
      | c :: s' =>
          match cut sep s' with
          | Some (a, b) => Some (c :: a, b)
          | None => None
          end
      end
  end.

(** [s.split(sep, maxsplit=1)] for a separator that is not empty. *)
Definition split_once (sep s : str) : list str :=
  match cut sep s with
  | Some (a, b) => [a; b]
  | None => [s]
  end.

(** [s.replace(c, '')] for a single character [c]. *)
Definition remove_char (c : N) (s : str) : str :=
  filter (λ x, x ≠ c) s.

(** [needle in s]. *)
Definition contains (needle s : str) : bool :=
  match cut needle s with Some _ => true | None => false end.

End Py.

(* ================================================================== *)
(** * The JSON decoder behind [json.loads] *)
(* ================================================================== *)

Module Json.
Import Py.

(** Decoded values.  A Python [dict] keeps its keys in insertion order and
    unique; a float is kept as the literal it was read from. *)
#[local] Unset Elimination Schemes.
Inductive json :=
  | JNull
  | JBool (b : bool)
  | JInt (n : Z)
  | JFloat (literal : str)
  | JStr (s : str)
  | JArr (items : list json)
  | JObj (members : list (str * json)).
#[local] Set Elimination Schemes.

(** [dict(pairs)]. *)
Definition dict (pairs : list (str * json)) : list (str * json) :=
  fold_left (fun d kv => dict_set (fst kv) (snd kv) d) pairs [].

(** ** Decoded values as Python objects

    A float is kept as the literal it was read from.  Its value,
    [float(literal)], is the double nearest to the decimal number that
    the literal spells, with ties going to the even mantissa and an
    infinity beyond the largest double. *)

Definition is_digit (c : N) : bool := ((48 <=? c) && (c <=? 57))%N.

Fixpoint span_digits (s : str) : str * str :=
  match s with
  | c :: s' =>
      if is_digit c then let '(d, r) := span_digits s' in (c :: d, r)
      else ([], s)
  | [] => ([], [])
  end.

(** [int(digits)]. *)
Definition digits_value (d : str) : Z :=
  fold_left (fun a c => 10 * a + Z.of_N (c - 48)) d 0.

(** The parts of a float literal: sign, digits before and after the
    point, exponent. *)
Definition float_parts (l : str) : option (bool * str * str * Z) :=
  let '(neg, l1) := match l with
                    | 45%N :: t => (true, t)
                    | _ => (false, l)
                    end in
  let '(ip, l2) := span_digits l1 in
  match ip with
  | [] => None
  | _ =>
      let '(fp, l3) :=
        match l2 with
        | 46%N :: t => span_digits t
        | _ => ([], l2)
        end in
      let ex :=
        match l3 with
        | _ :: 45%N :: t => - digits_value t
        | _ :: 43%N :: t => digits_value t
        | _ :: t => digits_value t
        | [] => 0
        end in
      Some (neg, ip, fp, ex)
  end.

(** [n / d] rounded to the nearest integer, ties to even, for a positive
    [d]. *)
Definition round_half_even (n d : Z) : Z :=
  let q := n / d in
  let r := n mod d in
  if 2 * r <? d then q
  else if d <? 2 * r then q + 1
  else if Z.even q then q else q + 1.

(** The double nearest to the positive rational [n / d]: [Some (m, e)]
    stands for [m * 2 ^ e], [None] for infinity.  The mantissa [m] has 53
    bits for a normal number; the exponent [e] stops at -1074, that of the
    smallest subnormal, where [m] has fewer bits and can be 0. *)
Definition nearest_double (n d : Z) : option (Z * Z) :=
  let q0 := Z.log2 n - Z.log2 d in
  let reached := if 0 <=? q0 then d * 2 ^ q0 <=? n
                 else d <=? n * 2 ^ (- q0) in
  let q := if reached then q0 else q0 - 1 in   (* 2^q <= n/d < 2^(q+1) *)
  let e := Z.max (q - 52) (-1074) in
  let m := if 0 <=? e then round_half_even n (d * 2 ^ e)
           else round_half_even (n * 2 ^ (- e)) d in
  if (0 <=? e) && (2 ^ 1024 <=? m * 2 ^ e) then None else Some (m, e).

(** [float(l)] for the literal of a number: the sign, and the magnitude
    as [nearest_double] gives it.  [None] for the literals that are no
    numbers: NaN, Infinity and -Infinity. *)
Definition float_value (l : str) : option (bool * option (Z * Z)) :=
  match float_parts l with
  | None => None
  | Some (neg, ip, fp, ex) =>
      let m := digits_value (ip ++ fp) in
      let e := ex - Z.of_nat (length fp) in
      Some (neg,
            if m =? 0 then Some (0, 0)
            else if 0 <=? e then nearest_double (m * 10 ^ e) 1
            else nearest_double m (10 ^ (- e)))
  end.

(** The integer a float equals, if any. *)
Definition float_int_value (l : str) : option Z :=
  match float_value l with
  | Some (neg, Some (m, e)) =>
      let v := if 0 <=? e then Some (m * 2 ^ e)
               else if m mod 2 ^ (- e) =? 0 then Some (m / 2 ^ (- e))
               else None in
      (fun v => if neg then - v else v) <$> v
  | _ => None
  end.

(** [bool(v)].  A float is false when it is zero, also when its literal
    spells a number too small for a double. *)
Definition truthy (v : json) : bool :=
  match v with
  | JNull => false
  | JBool b => b
  | JInt n => negb (n =? 0)
  | JFloat l =>
      match float_value l with
      | Some (_, Some (m, _)) => negb (m =? 0)
      | _ => true
      end
  | JStr s => match s with [] => false | _ => true end
  | JArr l => match l with [] => false | _ => true end
  | JObj d => match d with [] => false | _ => true end
  end.

(** A decoded value used as the key of a lookup in a dict whose keys are
    ints: the int it hashes and compares equal to ([True == 1],
    [2.0 == 2]), no int at all, or an unhashable list or dict
    (TypeError). *)
Inductive int_key :=
  | IntKey (k : Z)
  | NoIntKey
  | Unhashable.

Definition as_int_key (v : json) : int_key :=
  match v with
  | JInt n => IntKey n
  | JBool b => IntKey (if b then 1 else 0)
  | JFloat l =>
      match float_int_value l with Some k => IntKey k | None => NoIntKey end
  | JNull | JStr _ => NoIntKey
  | JArr _ | JObj _ => Unhashable
  end.

(** [iter(v)]: the items that a [for] loop, [zip] or an unpacking
    assignment draws from a decoded value; [None] is the TypeError for a
    value that is not iterable.  A str gives its characters, a dict its
    keys. *)
Definition iterate (v : json) : option (list json) :=
  match v with
  | JArr l => Some l
  | JStr s => Some (map (λ c, JStr [c]) s)
  | JObj d => Some (map (λ kv, JStr (fst kv)) d)
  | _ => None
  end.

(** ** Scanner *)

Definition is_ws (c : N) : bool :=
  ((c =? 32) || (c =? 9) || (c =? 10) || (c =? 13))%N.

Fixpoint skip_ws (s : str) : str :=
  match s with
  | c :: s' => if is_ws c then skip_ws s' else s
  | [] => []
  end.

Fixpoint starts_with (p s : str) : option str :=
  match p, s with
  | [], _ => Some s
  | a :: p', b :: s' => if (a =? b)%N then starts_with p' s' else None
  | _ :: _, [] => None
  end.

Definition hex_digit (c : N) : option N :=
  (if is_digit c then Some (c - 48)
   else if (97 <=? c) && (c <=? 102) then Some (c - 87)
   else if (65 <=? c) && (c <=? 70) then Some (c - 55)
   else None)%N.

(** The four hexadecimal digits of a [\uXXXX] escape. *)
Definition decode_uXXXX (s : str) : option (N * str) :=
  match s with
  | a :: b :: c :: d :: r =>
      match hex_digit a, hex_digit b, hex_digit c, hex_digit d with
      | Some a, Some b, Some c, Some d =>
          Some (((a * 16 + b) * 16 + c) * 16 + d, r)%N
      | _, _, _, _ => None
      end
  | _ => None
  end.

Definition backslash (c : N) : option N :=
  (if c =? 34 then Some 34 else if c =? 92 then Some 92
   else if c =? 47 then Some 47 else if c =? 98 then Some 8
   else if c =? 102 then Some 12 else if c =? 110 then Some 10
   else if c =? 114 then Some 13 else if c =? 116 then Some 9
   else None)%N.

(** [scanstring] in strict mode, entered after the opening quote: the
    content and the text after the closing quote. *)
Fixpoint scanstring (fuel : nat) (s acc : str) : option (str * str) :=
  match fuel with
  | O => None
  | S fuel' =>
  match s with
  | [] => None
  | c :: s' =>
      (if c =? 34 then Some (acc, s')
       else if c <? 32 then None
       else if c =? 92 then
         match s' with
         | [] => None
         | e :: s'' =>
             if e =? 117 then
               match decode_uXXXX s'' with
               | None => None
               | Some (u, r) =>
                   if is_high u then
                     match r with
                     | 92 :: 117 :: r' =>
                         match decode_uXXXX r' with
                         | None => None
                         | Some (u2, r2) =>
                             if is_low u2
                             then scanstring fuel' r2
                                    (acc ++ [0x10000 + (u - 0xD800) * 1024
                                             + (u2 - 0xDC00)])
                             else scanstring fuel' r (acc ++ [u])
                         end
                     | _ => scanstring fuel' r (acc ++ [u])
                     end
                   else scanstring fuel' r (acc ++ [u])
               end
             else
               match backslash e with
               | Some x => scanstring fuel' s'' (acc ++ [x])
               | None => None
               end
         end
       else scanstring fuel' s' (acc ++ [c]))%N
  end
  end.

(** The number regex of the scanner: an optional minus sign, then 0 or a
    non-zero digit followed by digits; an optional fraction (a dot and at
    least one digit); an optional exponent (e or E, an optional sign, at
    least one digit).  The value and the rest, [None] when the regex does
    not match at the start of [s]. *)
Definition match_number (s : str) : option (json * str) :=
  let '(neg, s1) := match s with
                    | 45 :: t => (true, t)
                    | _ => (false, s)
                    end%N in
  let int_part :=
    match s1 with
    | 48 :: t => Some ([48%N], t)
    | c :: t =>
        if is_digit c then let '(d, r) := span_digits s1 in Some (d, r)
        else None
    | [] => None
    end%N in
  match int_part with
  | None => None
  | Some (ds, s2) =>
      let '(frac, s3) :=
        match s2 with
        | 46 :: t =>
            match span_digits t with
            | ([], _) => ([], s2)
            | (fd, r) => (46 :: fd, r)
            end
        | _ => ([], s2)
        end%N in
      let '(exp, s4) :=
        match s3 with
        | e :: t =>
            if ((e =? 101) || (e =? 69))%N then
              let '(sign, t') :=
                match t with
                | c :: t1 =>
                    if ((c =? 43) || (c =? 45))%N then ([c], t1) else ([], t)
                | [] => ([], t)
                end in
              match span_digits t' with
              | ([], _) => ([], s3)
              | (ed, r) => (e :: sign ++ ed, r)
              end
            else ([], s3)
        | [] => ([], s3)
        end in
      let sign := if neg then [45%N] else [] in
      match frac, exp with
      | [], [] =>
          Some (JInt (if neg then - digits_value ds else digits_value ds), s4)
      | _, _ => Some (JFloat (sign ++ ds ++ frac ++ exp), s4)
      end
  end.

(** [scan_once]: one value at the start of [s]; [None] stands for every
    JSONDecodeError the scanner raises (none of them is 'Extra data').
    [fuel] bounds the nesting of the recursion.  The limits of the
    interpreter (recursion depth, digits of an int) are not modelled. *)
Fixpoint scan_once (fuel : nat) (s : str) : option (json * str) :=
  match fuel with
  | O => None
  | S fuel' =>
  match s with
  | [] => None
  | c :: s' =>
      (if c =? 34 then
         match scanstring (length s) s' [] with
         | Some (x, r) => Some (JStr x, r)
         | None => None
         end
       else if c =? 123 then
         match skip_ws s' with
         | 125 :: r => Some (JObj [], r)
         | 34 :: r => object_members fuel' r []
         | _ => None
         end
       else if c =? 91 then
         match skip_ws s' with
         | 93 :: r => Some (JArr [], r)
         | s1 => array_items fuel' s1 []
         end
       else
         match starts_with (text "null") s with
         | Some r => Some (JNull, r)
         | None =>
         match starts_with (text "true") s with
         | Some r => Some (JBool true, r)
         | None =>
         match starts_with (text "false") s with
         | Some r => Some (JBool false, r)
         | None =>
         match match_number s with
         | Some vr => Some vr
         | None =>
         match starts_with (text "NaN") s with
         | Some r => Some (JFloat (text "NaN"), r)
         | None =>
         match starts_with (text "Infinity") s with
         | Some r => Some (JFloat (text "Infinity"), r)
         | None =>
         match starts_with (text "-Infinity") s with
         | Some r => Some (JFloat (text "-Infinity"), r)
         | None => None
         end end end end end end end)%N
  end
  end

(** The members of an object, entered after the opening quote of a key. *)
with object_members (fuel : nat) (s : str) (pairs : list (str * json))
  : option (json * str) :=
  match fuel with
  | O => None
  | S fuel' =>
  match scanstring (length s) s [] with
  | None => None
  | Some (key, s1) =>
      match skip_ws s1 with
      | 58%N :: s2 =>
          match scan_once fuel' (skip_ws s2) with
          | None => None
          | Some (v, s3) =>
              match skip_ws s3 with
              | 125%N :: r => Some (JObj (dict (pairs ++ [(key, v)])), r)
              | 44%N :: s4 =>
                  match skip_ws s4 with
                  | 34%N :: s5 => object_members fuel' s5 (pairs ++ [(key, v)])
                  | _ => None
                  end
              | _ => None
              end
          end
      | _ => None
      end
  end
  end

(** The items of a non-empty array. *)
with array_items (fuel : nat) (s : str) (acc : list json)
  : option (json * str) :=
  match fuel with
  | O => None
  | S fuel' =>
  match scan_once fuel' s with
  | None => None
  | Some (v, s1) =>
      match skip_ws s1 with
      | 93%N :: r => Some (JArr (acc ++ [v]), r)
      | 44%N :: s2 => array_items fuel' (skip_ws s2) (acc ++ [v])
      | _ => None
      end
  end
  end.

(** ** [json.loads] on a byte string *)

Inductive encoding :=
  | utf_8 | utf_8_sig | utf_16 | utf_16_le | utf_16_be
  | utf_32 | utf_32_le | utf_32_be.

(** [json.detect_encoding]. *)
Definition detect_encoding (b : list N) : encoding :=
  match b with
  | 0 :: 0 :: 0xFE :: 0xFF :: _ => utf_32
  | 0xFF :: 0xFE :: 0 :: 0 :: _ => utf_32
  | 0xFE :: 0xFF :: _ => utf_16
  | 0xFF :: 0xFE :: _ => utf_16
  | 0xEF :: 0xBB :: 0xBF :: _ => utf_8_sig
  | b0 :: b1 :: b2 :: b3 :: _ =>
      if (b0 =? 0) then (if (b1 =? 0) then utf_32_be else utf_16_be)
      else if (b1 =? 0)
           then (if (b2 =? 0) && (b3 =? 0) then utf_32_le else utf_16_le)
           else utf_8
  | [b0; b1] =>
      if (b0 =? 0) then utf_16_be else if (b1 =? 0) then utf_16_le else utf_8
  | _ => utf_8
  end%N.

(** [b.decode(enc, 'surrogatepass')]. *)
Definition decode (enc : encoding) (b : list N) : option str :=
  match enc with
  | utf_8 => utf8_decode b
  | utf_8_sig => utf8_decode (drop 3 b)
  | utf_16_le => utf16_decode true b
  | utf_16_be => utf16_decode false b
  | utf_16 =>
      utf16_decode (bool_decide (take 2 b = [0xFF; 0xFE]%N)) (drop 2 b)
  | utf_32_le => utf32_decode true b
  | utf_32_be => utf32_decode false b
  | utf_32 =>
      utf32_decode (bool_decide (take 4 b = [0xFF; 0xFE; 0; 0]%N)) (drop 4 b)
  end.

(** What a call of [json.loads] can do. *)
Inductive loads_result :=
  | Loaded (obj : json)
  | ExtraData (pos : nat)
      (** JSONDecodeError with [msg == 'Extra data'] and this [pos] *)
  | Malformed
      (** JSONDecodeError with any other message *)
  | Failed (e : exn).
      (** any other exception *)

(** [JSONDecoder.decode] on text: one value between optional white space;
    what follows it is 'Extra data' at its index. *)
Definition decode_text (s : str) : loads_result :=
  match scan_once (2 * length s + 2) (skip_ws s) with
  | None => Malformed
  | Some (v, r) =>
      match skip_ws r with
      | [] => Loaded v
      | r' => ExtraData (length s - length r')
      end
  end.

(** [json.loads(b)] for [bytes] or [bytearray]. *)
Definition loads (b : bytes) : loads_result :=
  let octets := map Byte.to_N b in
  match decode (detect_encoding octets) octets with
  | None => Failed UnicodeDecodeError
  | Some s => decode_text s
  end.

End Json.

(* ================================================================== *)
(** * class JsonStreamReader(StreamReader) *)
(* ================================================================== *)

Module JsonStreamReader.
Import Py Json.

(** The attributes of the stream reader that [readjson] uses. *)
Record t := mk {
  _exception : option exn;
  _buffer : bytes;
  _eof : bool;
  _limit : Z
}.

Definition with_buffer (b : bytes) (r : t) : t :=
  mk (_exception r) b (_eof r) (_limit r).
Definition with_eof (r : t) : t :=
  mk (_exception r) (_buffer r) true (_limit r).
Definition with_exception (e : exn) (r : t) : t :=
  mk (Some e) (_buffer r) (_eof r) (_limit r).
Definition with_limit (l : Z) (r : t) : t :=
  mk (_exception r) (_buffer r) (_eof r) l.

(** What the transport does to the reader while [readjson] is suspended
    in [_wait_for_data]: the protocol calls [feed_data], [feed_eof] or
    [set_exception]. *)
Inductive event :=
  | feed_data (data : bytes)
  | feed_eof
  | set_exception (e : exn).

(** [bytes.isspace] on one octet: space, TAB, LF, VT, FF, CR. *)
Definition isspace (b : Byte.byte) : bool :=
  let n := Byte.to_N b in ((n =? 32) || ((9 <=? n) && (n <=? 13)))%N.

(** Lines 33-34: delete leading white space from the buffer. *)
Fixpoint skip_whitespace (b : bytes) : bytes :=
  match b with
  | c :: b' => if isspace c then skip_whitespace b' else b
  | [] => []
  end.

(** [first in (b'{', b'[')]. *)
Definition json_start (b : Byte.byte) : bool :=
  Byte.eqb b Byte.x7b || Byte.eqb b Byte.x5b.

(** What lines 36-47 find in a buffer: a boundary [sep], together with the
    decoded object when the whole buffer was one value; nothing yet; or an
    exception that leaves [readjson]. *)
Inductive probe_result :=
  | Boundary (obj : option json) (sep : nat)
  | NoBoundary
  | ProbeRaise (e : exn).

Section Reader.

(** The decoder, [json.loads]. *)
Variable loads : bytes → loads_result.

Definition probe (b : bytes) : probe_result :=
  match b with
  | [] => NoBoundary
  | first :: _ =>
      if json_start first then
        match loads b with
        | Loaded obj => Boundary (Some obj) (length b - 1)
        | ExtraData pos => Boundary None pos
        | Malformed => NoBoundary
        | Failed e => ProbeRaise e
        end
      else ProbeRaise AssertionError
  end.

(** The [while True] loop, lines 31-59.  [evs] is what the transport
    delivers while the coroutine waits; what is left of it is returned.
    An empty [feed_data] does not wake the waiter; going round the loop
    on the unchanged buffer is the same as waiting on. *)
Fixpoint find_frame (evs : list event) (r : t)
  : outcome (option json * nat) * t * list event :=
  let r := with_buffer (skip_whitespace (_buffer r)) r in
  match probe (_buffer r) with
  | ProbeRaise e => (Raise e, r, evs)
  | Boundary obj sep => (Return (obj, sep), r, evs)
  | NoBoundary =>
      if _eof r then
        (Raise (IncompleteReadError (_buffer r)), with_buffer [] r, evs)
      else
        match evs with
        | [] => (Suspended, r, [])
        | feed_data data :: evs' =>
            find_frame evs' (with_buffer (_buffer r ++ data) r)
        | feed_eof :: evs' => find_frame evs' (with_eof r)
        | set_exception e :: evs' => (Raise e, with_exception e r, evs')
        end
  end.

(** Lines 61-70: the limit check, then the frame is cut off the buffer and
    decoded unless line 41 already did. *)
Definition take_frame (obj : option json) (sep : nat) (r : t)
  : outcome json * t :=
  if Z.of_nat sep >? _limit r then (Raise (LimitOverrunError sep), r)
  else
    let chunk := take sep (_buffer r) in
    let r' := with_buffer (drop sep (_buffer r)) r in
    match obj with
    | Some v => (Return v, r')
    | None =>
        match loads chunk with
        | Loaded v => (Return v, r')
        | ExtraData _ | Malformed => (Raise JSONDecodeError, r')
        | Failed e => (Raise e, r')
        end
    end.

Definition readjson (evs : list event) (r : t)
  : outcome json * t * list event :=
  match _exception r with
  | Some e => (Raise e, r, evs)
  | None =>
      match find_frame evs r with
      | (Return (obj, sep), r', evs') =>
          let '(o, r'') := take_frame obj sep r' in (o, r'', evs')
      | (Raise e, r', evs') => (Raise e, r', evs')
      | (Suspended, r', evs') => (Suspended, r', evs')
      end
  end.

End Reader.

End JsonStreamReader.

(* ================================================================== *)
(** * asyncio futures and the callbacks of the event loop *)
(* ================================================================== *)

Module Asyncio.
Import Py.

(** The only done-callback the program registers: the closure [cleanup]
    of [issue_request], which captures [req_id]. *)
Inductive callback :=
  | cleanup (req_id : Z).

Inductive fut_state := PENDING | CANCELLED | FINISHED.

(** A future: its state and the callbacks to schedule when it is done.
    The result of a finished future is kept by its owner. *)
Record Future := mkFuture {
  _state : fut_state;
  _callbacks : list callback
}.

(** [loop.create_future()]. *)
Definition create_future : Future := mkFuture PENDING [].

Definition cancelled (f : Future) : bool :=
  match _state f with CANCELLED => true | _ => false end.

Definition done (f : Future) : bool :=
  match _state f with PENDING => false | _ => true end.

(** [f.cancel()]: the future afterwards and the callbacks handed to
    [loop.call_soon].  A future that is already done is left alone. *)
Definition cancel (f : Future) : Future * list callback :=
  match _state f with
  | PENDING => (mkFuture CANCELLED [], _callbacks f)
  | _ => (f, [])
  end.

(** [f.set_result(r)]; [None] is InvalidStateError. *)
Definition set_result (f : Future) : option (Future * list callback) :=
  match _state f with
  | PENDING => Some (mkFuture FINISHED [], _callbacks f)
  | _ => None
  end.

(** [f.add_done_callback(c)]: kept for later, or scheduled at once when
    the future is already done. *)
Definition add_done_callback (c : callback) (f : Future)
  : Future * list callback :=
  match _state f with
  | PENDING => (mkFuture PENDING (_callbacks f ++ [c]), [])
  | _ => (f, [c])
  end.

End Asyncio.

(* ================================================================== *)
(** * class SpuEntry *)
(* ================================================================== *)

Module SpuEntry.
Import Py Json.

(** The dataclass of lines 73-77.  [index] is whatever value the reply
    held at that place. *)
Record t := mk {
  index : json;
  language : str;
  description : str
}.

End SpuEntry.

(* ================================================================== *)
(** * class Request *)
(* ================================================================== *)

Module Request.
Import Py Json Asyncio.

Record t := mk {
  request_id : Z;
  request_code : str;
  request_reply : option json;   (** [None] is Python's None *)
  completed : Future
}.

Definition with_reply (reply : json) (r : t) : t :=
  mk (request_id r) (request_code r) (Some reply) (completed r).
Definition with_completed (f : Future) (r : t) : t :=
  mk (request_id r) (request_code r) (request_reply r) f.

(** [Request.bytes]; [None] is the UnicodeEncodeError of [encode]. *)
Definition bytes (self : t) : option Py.bytes :=
  let message := str_of_int (request_id self) ++ text ":" ++ request_code self in
  let msg_length := Z.of_nat (length message) in
  let full_message := str_of_int msg_length ++ text ":" ++ message in
  utf8_encode full_message.

End Request.

(* ================================================================== *)
(** * class VLCApi *)
(* ================================================================== *)

Module VLCApi.
Import Py Json Asyncio.

(** Request objects are shared: the table [current_requests] and the
    caller that awaits [request.completed] hold the same object.  They
    live in a store, and the table holds references into it. *)
Definition ref := nat.

(** [self.reader_task]: not assigned yet, a running task, or None. *)
Inductive task_slot := NoAttribute | ReaderTask | NoTask.

(** The attributes of a client, followed by the run-time state that its
    methods act on: the store of Request objects and the callbacks that
    the event loop has been asked to call soon. *)
Record t := mk {
  reader : option JsonStreamReader.t;
  writer : option (list bytes);   (** what [writer.write] was given *)
  running : bool;
  reader_task : task_slot;
  request_count : Z;
  current_requests : list (Z * ref);
  read_exception : option exn;
  shutdown : option Future;   (** [None]: the attribute was never assigned *)
  objects : gmap ref Request.t;
  ready : list callback
}.

(** [VLCApi()], lines 111-115. *)
Definition init : t :=
  mk None None false NoAttribute 0 [] None None ∅ [].

Definition set_reader (x : option JsonStreamReader.t) (w : t) : t :=
  mk x (writer w) (running w) (reader_task w) (request_count w)
     (current_requests w) (read_exception w) (shutdown w) (objects w) (ready w).
Definition set_writer (x : option (list bytes)) (w : t) : t :=
  mk (reader w) x (running w) (reader_task w) (request_count w)
     (current_requests w) (read_exception w) (shutdown w) (objects w) (ready w).
Definition set_running (x : bool) (w : t) : t :=
  mk (reader w) (writer w) x (reader_task w) (request_count w)
     (current_requests w) (read_exception w) (shutdown w) (objects w) (ready w).
Definition set_reader_task (x : task_slot) (w : t) : t :=
  mk (reader w) (writer w) (running w) x (request_count w)
     (current_requests w) (read_exception w) (shutdown w) (objects w) (ready w).
Definition set_request_count (x : Z) (w : t) : t :=
  mk (reader w) (writer w) (running w) (reader_task w) x
     (current_requests w) (read_exception w) (shutdown w) (objects w) (ready w).
Definition set_current_requests (x : list (Z * ref)) (w : t) : t :=
  mk (reader w) (writer w) (running w) (reader_task w) (request_count w)
     x (read_exception w) (shutdown w) (objects w) (ready w).
Definition set_read_exception (x : option exn) (w : t) : t :=
  mk (reader w) (writer w) (running w) (reader_task w) (request_count w)
     (current_requests w) x (shutdown w) (objects w) (ready w).
Definition set_shutdown (x : option Future) (w : t) : t :=
  mk (reader w) (writer w) (running w) (reader_task w) (request_count w)
     (current_requests w) (read_exception w) x (objects w) (ready w).
Definition set_objects (x : gmap ref Request.t) (w : t) : t :=
  mk (reader w) (writer w) (running w) (reader_task w) (request_count w)
     (current_requests w) (read_exception w) (shutdown w) x (ready w).
Definition set_ready (x : list callback) (w : t) : t :=
  mk (reader w) (writer w) (running w) (reader_task w) (request_count w)
     (current_requests w) (read_exception w) (shutdown w) (objects w) x.

(** [loop.call_soon] for each of [cbs]. *)
Definition call_soon (cbs : list callback) (w : t) : t :=
  set_ready (ready w ++ cbs) w.

(** The event loop calls one scheduled callback.  [cleanup] is
    [del self.current_requests[req_id]]; its KeyError, if any, stays in
    the loop's exception handler. *)
Definition run_callback (c : callback) (w : t) : t :=
  match c with
  | cleanup req_id =>
      match dict_del req_id (current_requests w) with
      | Some d => set_current_requests d w
      | None => w
      end
  end.

(** One turn of the event loop: every callback that is ready. *)
Definition run_ready (w : t) : t :=
  fold_left (fun w c => run_callback c w) (ready w) (set_ready [] w).

(** ** read *)

(** Lines 155-169, the body of the loop after [readjson] has returned
    [reply].  [None]: the iteration ends normally ([continue] or falling
    off the end); [Some e]: it raises [e]. *)
Definition dispatch (reply : json) (w : t) : option exn * t :=
  match reply with
  | JObj d =>
      match dict_get (text "reply_id") d with
      | None | Some JNull => (None, w)
      | Some reply_id =>
          match as_int_key reply_id with
          | Unhashable => (Some TypeError, w)
          | NoIntKey => (None, w)
          | IntKey k =>
              match dict_get k (current_requests w) with
              | None => (None, w)
              | Some r =>
                  match objects w !! r with
                  | None => (None, w)   (* no reference dangles *)
                  | Some request =>
                      let request := Request.with_reply reply request in
                      if cancelled (Request.completed request) then
                        (None, set_objects (<[r := request]> (objects w)) w)
                      else
                        match set_result (Request.completed request) with
                        | None =>
                            (Some InvalidStateError,
                             set_objects (<[r := request]> (objects w)) w)
                        | Some (f, cbs) =>
                            (None,
                             call_soon cbs
                               (set_objects
                                  (<[r := Request.with_completed f request]>
                                     (objects w)) w))
                        end
                  end
              end
          end
      end
  | _ => (Some (AttributeError (text "get")), w)
  end.

(** Lines 174-175 for one request of the table. *)
Definition cancel_request (w : t) (r : ref) : t :=
  match objects w !! r with
  | None => w
  | Some request =>
      if cancelled (Request.completed request) then w
      else
        let '(f, cbs) := cancel (Request.completed request) in
        call_soon cbs
          (set_objects (<[r := Request.with_completed f request]> (objects w)) w)
  end.

(** Lines 172-175, the handler of [except (RuntimeError,
    IncompleteReadError) as e], before its [raise]. *)
Definition read_except (e : exn) (w : t) : t :=
  fold_left cancel_request (dict_values (current_requests w))
    (set_read_exception (Some e) w).

(** Lines 178-181, the [finally] block; [Some e]: it raises [e]. *)
Definition read_finally (w : t) : option exn * t :=
  let w := set_reader_task NoTask w in
  match shutdown w with
  | None => (Some (AttributeError (text "shutdown")), w)
  | Some f =>
      if cancelled f then (None, w)
      else
        let '(f', cbs) := cancel f in
        (None, call_soon cbs (set_shutdown (Some f') w))
  end.

Section Client.

(** The decoder, [json.loads]. *)
Variable loads : bytes → loads_result.

(** [str(v)] as an f-string renders a decoded value. *)
Variable format : json → str.

(** The [while self.running] loop, lines 153-169.  [evs] is what the
    transport delivers to the reader; [fuel] bounds the number of
    iterations, [None] is running out of it. *)
Fixpoint read_loop (fuel : nat) (evs : list JsonStreamReader.event) (w : t)
  : option (outcome () * t * list JsonStreamReader.event) :=
  match fuel with
  | O => None
  | S fuel' =>
      if running w then
        match reader w with
        | None => Some (Raise (AttributeError (text "reader")), w, evs)
        | Some r =>
            let '(o, r', evs') := JsonStreamReader.readjson loads evs r in
            let w := set_reader (Some r') w in
            match o with
            | Suspended => Some (Suspended, w, evs')
            | Raise e => Some (Raise e, w, evs')
            | Return reply =>
                match dispatch reply w with
                | (None, w') => read_loop fuel' evs' w'
                | (Some e, w') => Some (Raise e, w', evs')
                end
            end
        end
      else Some (Return (), w, evs)
  end.

(** [read], lines 151-181: the loop inside its [try], the handler for
    RuntimeError and IncompleteReadError, and the [finally] block. *)
Definition read (fuel : nat) (evs : list JsonStreamReader.event) (w : t)
  : option (outcome () * t * list JsonStreamReader.event) :=
  match read_loop fuel evs w with
  | None => None
  | Some (Suspended, w, evs') => Some (Suspended, w, evs')
  | Some (Return _, w, evs') =>
      match read_finally w with
      | (None, w) => Some (Return (), w, evs')
      | (Some e, w) => Some (Raise e, w, evs')
      end
  | Some (Raise e, w, evs') =>
      let w := if is_RuntimeError e || is_IncompleteReadError e
               then read_except e w else w in
      match read_finally w with
      | (None, w) => Some (Raise e, w, evs')
      | (Some e', w) => Some (Raise e', w, evs')
      end
  end.

(** ** issue_request *)

(** Lines 189-206.  The future that is returned is [request.completed]
    of the new Request, given by the reference to it. *)
Definition issue_request (lua : str) (w : t) : outcome ref * t :=
  match read_exception w with
  | Some e => (Raise e, w)
  | None =>
      let req_id := request_count w in
      let w := set_request_count (req_id + 1) w in
      let request := Request.mk req_id lua None create_future in
      let r : ref := fresh (dom (objects w)) in
      let w := set_objects (<[r := request]> (objects w)) w in
      let w := set_current_requests (dict_set req_id r (current_requests w)) w in
      match writer w with
      | None => (Raise (AttributeError (text "writer")), w)
      | Some out =>
          match Request.bytes request with
          | None => (Raise UnicodeEncodeError, w)
          | Some b =>
              let w := set_writer (Some (out ++ [b])) w in
              let '(f, cbs) :=
                add_done_callback (cleanup req_id) (Request.completed request) in
              (Return r,
               call_soon cbs
                 (set_objects (<[r := Request.with_completed f request]> (objects w)) w))
          end
      end
  end.

(** ** execute *)

(** Lines 213-220: what [execute] does with the payload [obj]. *)
Definition inspect (lua : str) (obj : option json) : outcome json :=
  match obj with
  | Some (JObj d) =>
      match dict_get (text "timeout") d with
      | None => Raise (KeyError (text "timeout"))
      | Some timeout =>
          if truthy timeout then
            Raise (TimeoutError
                     (text "Failed to execute '" ++ lua
                      ++ text "' within time constraints by vlc host"))
          else
            match dict_get (text "error") d with
            | None | Some JNull => Return (JObj d)
            | Some error =>
                Raise (RuntimeError
                         (text "Failed to execute '" ++ lua ++ text "': "
                          ++ format error))
            end
      end
  | _ => Raise TypeError   (* not subscriptable by a str *)
  end.

(** Line 211 after the call of [issue_request]: [await] of the future
    [fut], then lines 213-220. *)
Definition await_reply (lua : str) (fut : ref) (w : t) : outcome json :=
  match objects w !! fut with
  | None => Suspended   (* no reference dangles *)
  | Some request =>
      match _state (Request.completed request) with
      | PENDING => Suspended
      | CANCELLED => Raise CancelledError
      | FINISHED => inspect lua (Request.request_reply request)
      end
  end.

(** [execute].  [others] is what the rest of the program (the read loop,
    the callbacks of the event loop) does between the suspension of
    [execute] in its [await] and its resumption. *)
Definition execute (lua : str) (others : t → t) (w : t) : outcome json * t :=
  match issue_request lua w with
  | (Return fut, w) => let w := others w in (await_reply lua fut w, w)
  | (Raise e, w) => (Raise e, w)
  | (Suspended, w) => (Suspended, w)
  end.

(** [test_connection], lines 185-187. *)
Definition test_connection (others : t → t) (w : t) : outcome bool * t :=
  match execute (text "return 2+2") others w with
  | (Return (JObj d), w) =>
      match dict_get (text "result") d with
      | None => (Raise (KeyError (text "result")), w)
      | Some v =>
          (Return (match as_int_key v with
                   | IntKey k => k =? 4
                   | _ => false
                   end), w)
      end
  | (Return _, w) => (Raise TypeError, w)
  | (Raise e, w) => (Raise e, w)
  | (Suspended, w) => (Suspended, w)
  end.

(** ** connect *)

(** Lines 145-149, the handler of the bare [except]: what is raised in
    the end, and the client. *)
Definition connect_except (e : exn) (w : t) : exn * t :=
  let w := set_running false w in
  match shutdown w with
  | None => (AttributeError (text "shutdown"), w)
  | Some f =>
      if cancelled f then (e, w)
      else
        let '(f', cbs) := cancel f in
        (e, call_soon cbs (set_shutdown (Some f') w))
  end.

(** [connect], lines 127-149.  [open1] and [open2] say how the first and
    the second call of [_open_connection] end ([None]: a connection, with
    a new reader and writer); [others] is as for [execute]. *)
Definition connect (open1 open2 : option exn) (others : t → t) (w : t)
  : outcome () * t :=
  if running w then (Raise AssertionError, w)
  else
    let opened :=
      match open1 with
      | None => None
      | Some e => if is_ConnectionRefusedError e then open2 else Some e
      end in
    match opened with
    | Some e => let '(e', w) := connect_except e w in (Raise e', w)
    | None =>
        let w := set_reader (Some (JsonStreamReader.mk None [] false 65536)) w in
        let w := set_writer (Some []) w in
        let w := set_shutdown (Some create_future) w in
        let w := set_running true w in
        let w := set_reader_task ReaderTask w in
        match test_connection others w with
        | (Return true, w) => (Return (), w)
        | (Return false, w) =>
            let '(e', w) := connect_except AssertionError w in (Raise e', w)
        | (Raise e, w) => let '(e', w) := connect_except e w in (Raise e', w)
        | (Suspended, w) => (Suspended, w)
        end
    end.

(** ** get_spu_entries, get_spu_list, select_spu *)

(** What the functions below can do.  Beside the exceptions of the rest
    of the program there is the ValueError of the unpacking assignment on
    line 227. *)
Inductive spu_outcome (A : Type) :=
  | SpuReturn (a : A)
  | SpuRaise (e : exn)
  | SpuValueError
  | SpuSuspended.
Arguments SpuReturn {A} a.
Arguments SpuRaise {A} e.
Arguments SpuValueError {A}.
Arguments SpuSuspended {A}.

(** A command text of this file, with an apostrophe where the command has
    a double quote. *)
Definition command (s : string) : str :=
  map (λ c, if (c =? 39)%N then 34%N else c) (text s).

(** Lines 230-233, the body of the loop of [work] for one pair of the
    zip; [None] is the AttributeError of [text.split] for a text that is
    no str. *)
Definition spu_entry (index text : json) : option SpuEntry.t :=
  match text with
  | JStr s =>
      match take 2 (split_once (Py.text " - ") s ++ [Py.text "none"]) with
      | [a; b] =>
          Some (SpuEntry.mk index (remove_char 93 (remove_char 91 b)) a)
      | _ => None   (* the slice has two items *)
      end
  | _ => None
  end.

(** The generator [work()]: the entries it yields, and the exception that
    ends it, if any. *)
Fixpoint work_loop (pairs : list (json * json))
  : list SpuEntry.t * option exn :=
  match pairs with
  | [] => ([], None)
  | (index, text) :: pairs' =>
      match spu_entry index text with
      | None => ([], Some (AttributeError (Py.text "split")))
      | Some entry =>
          let '(entries, e) := work_loop pairs' in (entry :: entries, e)
      end
  end.

Definition work (indices descriptions : json)
  : list SpuEntry.t * option exn :=
  match iterate indices, iterate descriptions with
  | Some i, Some d => work_loop (zip i d)
  | _, _ => ([], Some TypeError)
  end.

(** [get_spu_entries], lines 223-234: the two values that the generator
    closes over. *)
Definition get_spu_entries (others : t → t) (w : t)
  : spu_outcome (json * json) * t :=
  match execute
          (command "return {vlc.var.get_list(vlc.object.input(), 'spu-es')}")
          others w with
  | (Return (JObj d), w) =>
      match dict_get (text "result") d with
      | None => (SpuRaise (KeyError (text "result")), w)
      | Some result =>
          match iterate result with
          | None => (SpuRaise TypeError, w)
          | Some [indices; descriptions] =>
              (SpuReturn (indices, descriptions), w)
          | Some _ => (SpuValueError, w)
          end
      end
  | (Return _, w) => (SpuRaise TypeError, w)
  | (Raise e, w) => (SpuRaise e, w)
  | (Suspended, w) => (SpuSuspended, w)
  end.

(** [get_spu_list], lines 236-237: [list] drains the generator. *)
Definition get_spu_list (others : t → t) (w : t)
  : spu_outcome (list SpuEntry.t) * t :=
  match get_spu_entries others w with
  | (SpuReturn (indices, descriptions), w) =>
      match work indices descriptions with
      | (entries, None) => (SpuReturn entries, w)
      | (_, Some e) => (SpuRaise e, w)
      end
  | (SpuRaise e, w) => (SpuRaise e, w)
  | (SpuValueError, w) => (SpuValueError, w)
  | (SpuSuspended, w) => (SpuSuspended, w)
  end.

(** [select_spu], lines 239-240. *)
Definition select_spu (spu : SpuEntry.t) (others : t → t) (w : t)
  : outcome () * t :=
  match execute
          (command "vlc.var.set(vlc.object.input(), 'spu-es', "
           ++ format (SpuEntry.index spu) ++ text ")")
          others w with
  | (Return _, w) => (Return (), w)
  | (Raise e, w) => (Raise e, w)
  | (Suspended, w) => (Suspended, w)
  end.

(** ** run *)

(** [str.lower]. *)
Variable lower : str → str.

(** Lines 249-254 of [run]: the choice of the track among [spu_list]. *)
Definition select_tracks (spu_list : list SpuEntry.t) (others : t → t) (w : t)
  : outcome () * t :=
  let candidates :=
    filter (λ spu, contains (text "english") (lower (SpuEntry.language spu)) = true)
      spu_list in
  let first :=
    match candidates with
    | [spu] => select_spu spu others w
    | _ => (Return (), w)
    end in
  match first with
  | (Return _, w) =>
      let candidates :=
        filter (λ spu, contains (text "full") (lower (SpuEntry.description spu)) = true)
          candidates in
      match candidates with
      | [spu] => select_spu spu others w
      | _ => (Return (), w)
      end
  | (o, w) => (o, w)
  end.

End Client.

Arguments SpuReturn {A} a.
Arguments SpuRaise {A} e.
Arguments SpuValueError {A}.
Arguments SpuSuspended {A}.

End VLCApi.

(* ================================================================== *)
(** * Vocabulary of the statements *)
(* ================================================================== *)

Import Py Json Asyncio.

(** The bytes that a sequence of transport events feeds to the reader. *)
Fixpoint fed (evs : list JsonStreamReader.event) : bytes :=
  match evs with
  | [] => []
  | JsonStreamReader.feed_data data :: evs' => data ++ fed evs'
  | _ :: evs' => fed evs'
  end.

(** The value of the frame that ends at [sep] in [buffer]: the one line
    41 decoded from the whole buffer, or else what line 68 decodes from
    the first [sep] bytes. *)
Definition frame_value (loads : bytes → loads_result)
    (obj : option json) (sep : nat) (buffer : bytes) : option json :=
  match obj with
  | Some v => Some v
  | None =>
      match loads (take sep buffer) with
      | Loaded v => Some v
      | _ => None
      end
  end.

(** A request whose future is resolved with the reply [reply]. *)
Definition resolved (reply : json) (req : Request.t) : Request.t :=
  Request.mk (Request.request_id req) (Request.request_code req)
    (Some reply) (mkFuture FINISHED []).

(** A request after [completed.cancel()]: a pending future becomes a
    cancelled one, a future that is done stays as it is; the reply slot
    is not touched. *)
Definition cancel_obj (req : Request.t) : Request.t :=
  match _state (Request.completed req) with
  | PENDING => Request.with_completed (mkFuture CANCELLED []) req
  | _ => req
  end.

(** The store invariant of a client: every reference of the table points
    to a Request object, and no object is in the table under two ids. *)
Definition wf (w : VLCApi.t) : Prop :=
  (∀ k r, dict_get k (VLCApi.current_requests w) = Some r →
          is_Some (VLCApi.objects w !! r))
  ∧ (∀ k1 k2 r, dict_get k1 (VLCApi.current_requests w) = Some r →
                dict_get k2 (VLCApi.current_requests w) = Some r → k1 = k2).

(** The body of the read loop on the replies that successive calls of
    [readjson] return. *)
Fixpoint dispatch_all (replies : list json) (w : VLCApi.t)
  : option exn * VLCApi.t :=
  match replies with
  | [] => (None, w)
  | reply :: replies' =>
      match VLCApi.dispatch reply w with
      | (None, w') => dispatch_all replies' w'
      | (Some e, w') => (Some e, w')
      end
  end.

(** Successive calls of [issue_request]: what each of them gives, and the
    client in the end. *)
Fixpoint issue_each (luas : list str) (w : VLCApi.t)
  : list (outcome VLCApi.ref) * VLCApi.t :=
  match luas with
  | [] => ([], w)
  | lua :: luas' =>
      let '(o, w') := VLCApi.issue_request lua w in
      let '(os, w'') := issue_each luas' w' in
      (o :: os, w'')
  end.

(** A connected client with an empty reader. *)
Definition connected : VLCApi.t :=
  VLCApi.mk (Some (JsonStreamReader.mk None [] false 65536)) (Some [])
    true VLCApi.ReaderTask 0 [] None (Some create_future) ∅ [].

(** The same client after the requests a, b and c were issued. *)
Definition three_outstanding : VLCApi.t :=
  (issue_each [text "a"; text "b"; text "c"] connected).2.

(** A reply with the given [reply_id] whose timeout flag is false. *)
Definition reply_to (k : Z) : list (str * json) :=
  [(text "reply_id", JInt k); (text "timeout", JBool false)].

(** [str(v)] for the decoded values that are strings, which is what the
    error field of a reply holds; any other value prints as nothing
    here. *)
Definition format_str (v : json) : str :=
  match v with
  | JStr s => s
  | _ => []
  end.

(** The rest of the program while a caller waits: the read loop takes
    [chunk] from the transport, then the event loop calls what is
    ready. *)
Definition serve (chunk : bytes) (w : VLCApi.t) : VLCApi.t :=
  match VLCApi.read Json.loads 8 [JsonStreamReader.feed_data chunk] w with
  | Some (_, w', _) => VLCApi.run_ready w'
  | None => w
  end.

(** A string of ASCII characters. *)
Definition ascii_only (s : str) : Prop := Forall (λ c, (c < 128)%N) s.

(** The characters of a decimal numeral: the minus sign and the digits. *)
Definition numeral_char (c : N) : Prop := (c = 45 ∨ 48 ≤ c ≤ 57)%N.

(** The characters that UTF-8 cannot encode: the surrogates, and what
    lies beyond the last code point. *)
Definition unencodable (c : N) : Prop :=
  (0xD800 ≤ c ≤ 0xDFFF ∨ 0x110000 ≤ c)%N.

(** The table invariant of a client: the ids of the table are distinct
    and below the counter. *)
Definition table_ok (w : VLCApi.t) : Prop :=
  NoDup (VLCApi.current_requests w).*1
  ∧ Forall (λ kr, kr.1 < VLCApi.request_count w) (VLCApi.current_requests w).

(** The peer answers: the read loop dispatches [reply], then the event
    loop calls what is ready. *)
Definition answer (reply : json) (w : VLCApi.t) : VLCApi.t :=
  VLCApi.run_ready (VLCApi.dispatch reply w).2.

(** [str.lower] on ASCII letters, which is all the examples below need. *)
Definition ascii_lower (s : str) : str :=
  map (λ c, if (65 <=? c)%N && (c <=? 90)%N then (c + 32)%N else c) s.


(** A client is consistent when its table and its store are: distinct ids
    below the counter, that refer to distinct objects of the store. *)
Definition consistent (w : VLCApi.t) : Prop := table_ok w ∧ wf w.

(** What a program does with a client: the calls of the API, a run of the
    read loop on what the transport delivers, and a turn of the event
    loop.  The calls that wait for a reply carry what the rest of the
    program does in the meantime. *)
Inductive action :=
  | Issue (lua : str)
  | Read (fuel : nat) (evs : list JsonStreamReader.event)
  | Turn
  | Execute (lua : str) (others : list action)
  | Connect (open1 open2 : option exn) (others : list action)
  | SpuList (others : list action)
  | Select (spu : SpuEntry.t) (others : list action).

Section Actions.

Variable loads : bytes → loads_result.
Variable format : json → str.

(** The client after an action. *)
Fixpoint act (a : action) (w : VLCApi.t) : VLCApi.t :=
  let all := fold_left (λ w a, act a w) in
  match a with
  | Issue lua => (VLCApi.issue_request lua w).2
  | Read fuel evs =>
      match VLCApi.read loads fuel evs w with
      | Some (_, w', _) => w'
      | None => w
      end
  | Turn => VLCApi.run_ready w
  | Execute lua others => (VLCApi.execute format lua (all others) w).2
  | Connect open1 open2 others =>
      (VLCApi.connect format open1 open2 (all others) w).2
  | SpuList others => (VLCApi.get_spu_list format (all others) w).2
  | Select spu others => (VLCApi.select_spu format spu (all others) w).2
  end.

Definition acts (l : list action) (w : VLCApi.t) : VLCApi.t :=
  fold_left (λ w a, act a w) l w.

End Actions.

(** The rest of the program while a caller waits, in general: the read
    loop runs on what the transport delivers, then the event loop calls
    what is ready. *)
Definition serve_events (loads : bytes → loads_result) (fuel : nat)
    (evs : list JsonStreamReader.event) (w : VLCApi.t) : VLCApi.t :=
  match VLCApi.read loads fuel evs w with
  | Some (_, w', _) => VLCApi.run_ready w'
  | None => w
  end.

(** The transport delivers [replies]: successive calls of [readjson]
    return them one after the other from the events [evs], and the call
    after the last one uses up the events and waits for more, with the
    reader [rd'].  [rd] is the reader at the first call. *)
Fixpoint delivers (loads : bytes → loads_result) (replies : list json)
    (evs : list JsonStreamReader.event) (rd rd' : JsonStreamReader.t) : Prop :=
  match replies with
  | [] => JsonStreamReader.readjson loads evs rd = (Suspended, rd', [])
  | reply :: replies' =>
      ∃ rd1 evs1,
        JsonStreamReader.readjson loads evs rd = (Return reply, rd1, evs1)
        ∧ delivers loads replies' evs1 rd1 rd'
  end.

(** The command of [get_spu_entries], line 224. *)
Definition spu_list_command : str :=
  VLCApi.command "return {vlc.var.get_list(vlc.object.input(), 'spu-es')}".

(** The command of [select_spu], line 240, for a track. *)
Definition select_command (format : json → str) (spu : SpuEntry.t) : str :=
  VLCApi.command "vlc.var.set(vlc.object.input(), 'spu-es', "
  ++ format (SpuEntry.index spu) ++ text ")".

(** A decoded value that is a str. *)
Definition is_str (v : json) : Prop :=
  match v with JStr _ => True | _ => False end.

(** The peer answers the request that was issued last, with a reply that
    has a false timeout flag and nothing else; then the event loop calls
    what is ready. *)
Definition echo (w : VLCApi.t) : VLCApi.t :=
  answer (JObj (reply_to (VLCApi.request_count w - 1))) w.

(* ================================================================== *)
(** * The decoder: the value of a float literal *)
(* ================================================================== *)

(** A float literal is read as the nearest double.  Twenty decimals after
    the point are lost; 2^53 + 1 is no double; a literal beyond the
    largest double is an infinity and one below the smallest is zero. *)
Example float_literals_round :
  float_int_value (text "1.00000000000000000001") = Some 1
  ∧ float_int_value (text "4.0000000000000000001") = Some 4
  ∧ float_int_value (text "9007199254740993.0") = Some 9007199254740992
  ∧ float_int_value (text "-2.5e1") = Some (-25)
  ∧ float_int_value (text "1.5") = None
  ∧ float_int_value (text "1e400") = None
  ∧ truthy (JFloat (text "1e400")) = true
  ∧ truthy (JFloat (text "1e-400")) = false
  ∧ truthy (JFloat (text "5e-324")) = true
  ∧ truthy (JFloat (text "-0.0")) = false
  ∧ truthy (JFloat (text "NaN")) = true.
Proof. vm_compute. done. Qed.

(* ================================================================== *)
(** * The framer: properties of [readjson] *)
(* ================================================================== *)

Section ReaderFacts.
Import JsonStreamReader.

Variable loads : bytes → loads_result.

Lemma skip_whitespace_idem b :
  skip_whitespace (skip_whitespace b) = skip_whitespace b.
Proof.
  induction b as [|c b IH]; simpl; [done|].
  destruct (isspace c) eqn:E; [done|]. simpl. by rewrite E.
Qed.

Lemma skip_whitespace_app b d :
  skip_whitespace (skip_whitespace b ++ d) = skip_whitespace (b ++ d).
Proof.
  induction b as [|c b IH]; simpl; [done|].
  destruct (isspace c) eqn:E; [done|]. simpl. by rewrite E.
Qed.

Lemma json_start_not_space c : json_start c = true → isspace c = false.
Proof.
  unfold json_start. intros H. apply orb_prop in H.
  destruct H as [H|H]; apply Byte.byte_dec_bl in H; by subst.
Qed.

(** A buffer in which a boundary is found starts with an opening brace or
    bracket, so it has no leading white space. *)
Lemma probe_boundary_stripped b obj sep :
  probe loads b = Boundary obj sep → skip_whitespace b = b.
Proof.
  destruct b as [|c b]; simpl; [done|].
  destruct (json_start c) eqn:E; [|done].
  intros _. by rewrite (json_start_not_space _ E).
Qed.

Lemma with_buffer_id r : with_buffer (_buffer r) r = r.
Proof. by destruct r. Qed.

(** Where the search ends with a boundary, the reader holds the buffer in
    which it was found; the limit, the end-of-stream flag of the events
    and the stored exception are as the events left them. *)
Lemma find_frame_found evs r obj sep r' evs' :
  find_frame loads evs r = (Return (obj, sep), r', evs') →
  probe loads (_buffer r') = Boundary obj sep
  ∧ _limit r' = _limit r ∧ _exception r' = _exception r
  ∧ ∃ consumed, evs = consumed ++ evs'
      ∧ _buffer r' = skip_whitespace (_buffer r ++ fed consumed).
Proof.
  revert r. induction evs as [|ev evs IH]; intros r; simpl.
  - destruct (probe loads (skip_whitespace (_buffer r))) eqn:P.
    + intros [= <- <- <- <-]. simpl. repeat split; try done.
      exists []. by rewrite !app_nil_r.
    + destruct (_eof r); intros [=].
    + intros [=].
  - destruct (probe loads (skip_whitespace (_buffer r))) eqn:P.
    + intros [= <- <- <- <-]. simpl. repeat split; try done.
      exists []. by rewrite !app_nil_r.
    + destruct (_eof r) eqn:Eof; [intros [=]|].
      destruct ev as [data| |e]; [| |intros [=]].
      * intros H. apply IH in H. simpl in H.
        destruct H as (Hp & Hl & He & consumed & -> & Hb).
        repeat split; try done.
        exists (feed_data data :: consumed). split; [done|].
        simpl. by rewrite Hb, <- app_assoc, skip_whitespace_app.
      * intros H. apply IH in H. simpl in H.
        destruct H as (Hp & Hl & He & consumed & -> & Hb).
        repeat split; try done.
        exists (feed_eof :: consumed). split; [done|].
        simpl. by rewrite Hb, skip_whitespace_app.
    + intros [=].
Qed.

(** Searching again in the reader that a successful search left, without
    new events, finds the same boundary and changes nothing. *)
Lemma find_frame_again r obj sep :
  probe loads (_buffer r) = Boundary obj sep →
  find_frame loads [] r = (Return (obj, sep), r, []).
Proof.
  intros P. simpl.
  rewrite (probe_boundary_stripped _ _ _ P), P. by rewrite with_buffer_id.
Qed.

(** The search does not look at the limit. *)
Lemma find_frame_limit l evs r :
  find_frame loads evs (with_limit l r)
  = let '(o, r', evs') := find_frame loads evs r in (o, with_limit l r', evs').
Proof.
  revert r. induction evs as [|ev evs IH]; intros r; simpl.
  - destruct (probe loads (skip_whitespace (_buffer r))); try done.
    by destruct (_eof r).
  - destruct (probe loads (skip_whitespace (_buffer r))); try done.
    destruct (_eof r); [done|].
    destruct ev as [data| |e]; try done.
    + apply (IH (with_buffer (skip_whitespace (_buffer r) ++ data) r)).
    + apply (IH (with_eof (with_buffer (skip_whitespace (_buffer r)) r))).
Qed.

Lemma find_frame_unfold evs r :
  find_frame loads evs r =
  let r := with_buffer (skip_whitespace (_buffer r)) r in
  match probe loads (_buffer r) with
  | ProbeRaise e => (Raise e, r, evs)
  | Boundary obj sep => (Return (obj, sep), r, evs)
  | NoBoundary =>
      if _eof r then
        (Raise (IncompleteReadError (_buffer r)), with_buffer [] r, evs)
      else
        match evs with
        | [] => (Suspended, r, [])
        | feed_data data :: evs' =>
            find_frame loads evs' (with_buffer (_buffer r ++ data) r)
        | feed_eof :: evs' => find_frame loads evs' (with_eof r)
        | set_exception e :: evs' => (Raise e, with_exception e r, evs')
        end
  end.
Proof. by destruct evs. Qed.



(** End of stream while [readjson] waits, with nothing that makes a frame
    in the buffer: the same IncompleteReadError, and an empty buffer. *)
Lemma readjson_eof_while_waiting evs r :
  _exception r = None → _eof r = false →
  probe loads (skip_whitespace (_buffer r)) = NoBoundary →
  readjson loads (feed_eof :: evs) r
  = (Raise (IncompleteReadError (skip_whitespace (_buffer r))),
     with_eof (with_buffer [] r), evs).
Proof.
  intros He Hf P. unfold readjson. rewrite He, find_frame_unfold. cbn zeta.
  simpl _buffer. rewrite P. simpl _eof. rewrite Hf.
  rewrite find_frame_unfold. cbn zeta. simpl _buffer.
  by rewrite skip_whitespace_idem, P.
Qed.

End ReaderFacts.

(** C1: the two concatenated objects fed as one chunk.  The two calls
    return the two decoded objects, but the second one takes the boundary
    of its frame at the last byte of the buffer (offset 6 of 7) instead of
    the buffer end: the closing brace stays behind in the buffer, and the
    third call trips over it. *)
Theorem readjson_two_objects_residue :
  let r0 := JsonStreamReader.mk None (lit "{'a':1}{'b':2}") false 65536 in
  let r1 := JsonStreamReader.mk None (lit "{'b':2}") false 65536 in
  let r2 := JsonStreamReader.mk None (lit "}") false 65536 in
  JsonStreamReader.readjson Json.loads [] r0
    = (Return (JObj [(text "a", JInt 1)]), r1, [])
  ∧ JsonStreamReader.probe Json.loads (JsonStreamReader._buffer r1)
    = JsonStreamReader.Boundary (Some (JObj [(text "b", JInt 2)])) 6
  ∧ JsonStreamReader.readjson Json.loads [] r1
    = (Return (JObj [(text "b", JInt 2)]), r2, [])
  ∧ JsonStreamReader.readjson Json.loads [] r2 = (Raise AssertionError, r2, []).
Proof. vm_compute. done. Qed.

(** C3: a frame that holds a character of two bytes, with more data
    after it, and a limit of 4.  The decoder reports the extra data at
    offset 7, which counts characters: the frame is 8 bytes long.  The
    first call raises LimitOverrunError with that offset and keeps the
    buffer.  The call with the limit raised cuts the buffer at 7 bytes,
    one short of the frame: line 68 cannot decode the piece and raises
    JSONDecodeError, the object is not returned, and the bytes cut off
    are gone.  The closing brace is left at the head of the buffer, so
    every later call fails the assertion of line 38. *)
Theorem limit_retry_cuts_frame_short :
  let r0 := JsonStreamReader.mk None (lit "{'é':1}{'b':2}") false 4 in
  let r1 := JsonStreamReader.with_limit 65536 r0 in
  let r2 := JsonStreamReader.mk None (lit "}{'b':2}") false 65536 in
  length (lit "{'é':1}") = 8%nat
  ∧ Json.loads (lit "{'é':1}") = Loaded (JObj [([233%N], JInt 1)])
  ∧ Json.loads (lit "{'é':1}{'b':2}") = ExtraData 7
  ∧ JsonStreamReader.readjson Json.loads [] r0
    = (Raise (LimitOverrunError 7), r0, [])
  ∧ JsonStreamReader.readjson Json.loads [] r1 = (Raise JSONDecodeError, r2, [])
  ∧ JsonStreamReader.readjson Json.loads [] r2 = (Raise AssertionError, r2, []).
Proof. vm_compute. done. Qed.

(** X27: when the search finds a boundary at an offset above the limit,
    [readjson] raises LimitOverrunError with that offset and leaves the
    reader as it was when the boundary was found: the buffer is what was
    buffered and fed, less its leading white space.  A later call with
    the limit raised to the offset or more and nothing fed finds the same
    boundary and does what the first call would have done under that
    limit; it returns the value that lines 41 or 68 decode for that
    boundary, where there is one. *)
Theorem limit_overrun_keeps_frame
    (loads : bytes → loads_result) evs r obj sep r' evs' :
  JsonStreamReader._exception r = None →
  JsonStreamReader.find_frame loads evs r = (Return (obj, sep), r', evs') →
  Z.of_nat sep > JsonStreamReader._limit r →
  JsonStreamReader.readjson loads evs r = (Raise (LimitOverrunError sep), r', evs')
  ∧ (∃ consumed, evs = consumed ++ evs'
       ∧ JsonStreamReader._buffer r'
         = JsonStreamReader.skip_whitespace (JsonStreamReader._buffer r ++ fed consumed))
  ∧ ∀ l, Z.of_nat sep ≤ l →
      let retry := JsonStreamReader.readjson loads [] (JsonStreamReader.with_limit l r') in
      (∀ o r'', JsonStreamReader.readjson loads evs (JsonStreamReader.with_limit l r) = (o, r'', evs')
                ↔ retry = (o, r'', []))
      ∧ ∀ v, frame_value loads obj sep (JsonStreamReader._buffer r') = Some v →
          retry = (Return v,
                   JsonStreamReader.with_buffer
                     (drop sep (JsonStreamReader._buffer r'))
                     (JsonStreamReader.with_limit l r'), []).
Proof.
  intros He F Hs.
  destruct (find_frame_found loads _ _ _ _ _ _ F) as (P & Hl & He' & Hc).
  split; [|split; [done|]].
  - unfold JsonStreamReader.readjson. rewrite He, F.
    unfold JsonStreamReader.take_frame. rewrite Hl.
    by destruct (Z.gtb_spec (Z.of_nat sep) (JsonStreamReader._limit r)); [|lia].
  - intros l Hle retry.
    assert (R : retry = let '(o, r'') := JsonStreamReader.take_frame loads obj sep
                                           (JsonStreamReader.with_limit l r') in
                        (o, r'', [])).
    { unfold retry, JsonStreamReader.readjson. simpl JsonStreamReader._exception.
      rewrite He', He, find_frame_limit, (find_frame_again loads r' obj sep P).
      done. }
    split.
    + intros o r''. unfold JsonStreamReader.readjson at 1.
      simpl JsonStreamReader._exception. rewrite He, find_frame_limit, F, R.
      destruct (JsonStreamReader.take_frame loads obj sep _) as [o1 r1].
      split; intros [= <- <-]; done.
    + intros v Hv. rewrite R. unfold JsonStreamReader.take_frame.
      simpl JsonStreamReader._limit.
      destruct (Z.gtb_spec (Z.of_nat sep) l); [lia|].
      unfold frame_value in Hv. simpl JsonStreamReader._buffer.
      destruct obj as [v'|]; [by injection Hv as ->|].
      destruct (loads _); try done. by injection Hv as ->.
Qed.

Lemma limit_overrun_keeps_frame_witness :
  let r := JsonStreamReader.mk None (lit " {'a':1}") false 3 in
  let r' := JsonStreamReader.mk None (lit "{'a':1}") false 3 in
  JsonStreamReader.readjson Json.loads [] r = (Raise (LimitOverrunError 6), r', []).
Proof.
  intros r r'.
  refine (proj1 (limit_overrun_keeps_frame Json.loads [] r
                   (Some (JObj [(text "a", JInt 1)])) 6 r' [] _ _ _)).
  - reflexivity.
  - vm_compute. reflexivity.
  - vm_compute. reflexivity.
Defined.

(** The offset of 'Extra data' counts characters of the decoded text, and
    lines 65-66 cut the buffer at that many bytes.  With a two-byte
    character in the first object the frame is cut one byte short: line 68
    raises JSONDecodeError, raised limit or not, and the buffer has
    already lost the bytes. *)
Example readjson_character_offset :
  JsonStreamReader.readjson Json.loads []
    (JsonStreamReader.mk None (lit "{'é':1}{'b':2}") false 65536)
  = (Raise JSONDecodeError,
     JsonStreamReader.mk None (lit "}{'b':2}") false 65536, []).
Proof. vm_compute. reflexivity. Qed.

(** C4: a partial object that ends inside a character of two bytes, at
    end of stream.  The decoder raises UnicodeDecodeError, which line 44
    does not catch: [readjson] raises it in place of IncompleteReadError
    and keeps the partial bytes in the buffer, so every later call does
    the same.  The same bytes arriving while [readjson] waits end it
    before it learns of the end of the stream. *)
Theorem incomplete_read_inside_character :
  let partial := lit "{'a':'" ++ [Byte.xc3] in
  let r := JsonStreamReader.mk None partial true 65536 in
  let r0 := JsonStreamReader.mk None (lit "{'a':'") false 65536 in
  Json.loads partial = Failed UnicodeDecodeError
  ∧ JsonStreamReader.readjson Json.loads [] r = (Raise UnicodeDecodeError, r, [])
  ∧ JsonStreamReader.readjson Json.loads
      [JsonStreamReader.feed_data [Byte.xc3]; JsonStreamReader.feed_eof] r0
    = (Raise UnicodeDecodeError,
       JsonStreamReader.mk None partial false 65536,
       [JsonStreamReader.feed_eof])
  ∧ JsonStreamReader.readjson Json.loads []
      (JsonStreamReader.mk None (lit "{'a':'") true 65536)
    = (Raise (IncompleteReadError (lit "{'a':'")),
       JsonStreamReader.mk None [] true 65536, []).
Proof. vm_compute. done. Qed.

(** X28: no stored exception, and a buffer in which, once its leading
    white space is skipped, lines 36-47 find no boundary and raise
    nothing: it is empty, or it starts with an opening brace or bracket
    and the decoder rejects it as JSON that is not well formed.  If end
    of stream is already signalled, or is signalled while [readjson]
    waits, [readjson] raises IncompleteReadError with what the buffer
    holds and leaves the buffer empty; the next call carries no stale
    byte. *)
Theorem incomplete_read_clears_buffer
    (loads : bytes → loads_result) evs r :
  JsonStreamReader._exception r = None →
  JsonStreamReader.probe loads
    (JsonStreamReader.skip_whitespace (JsonStreamReader._buffer r))
    = JsonStreamReader.NoBoundary →
  let partial := JsonStreamReader.skip_whitespace (JsonStreamReader._buffer r) in
  let r' := JsonStreamReader.with_eof (JsonStreamReader.with_buffer [] r) in
  (if JsonStreamReader._eof r
   then JsonStreamReader.readjson loads evs r
        = (Raise (IncompleteReadError partial), r', evs)
   else JsonStreamReader.readjson loads (JsonStreamReader.feed_eof :: evs) r
        = (Raise (IncompleteReadError partial), r', evs))
  ∧ JsonStreamReader._buffer r' = []
  ∧ JsonStreamReader.readjson loads evs r'
    = (Raise (IncompleteReadError []), r', evs).
Proof.
  intros He P partial r'. split; [|split; [done|]].
  - destruct (JsonStreamReader._eof r) eqn:Hf.
    + unfold JsonStreamReader.readjson. rewrite He, find_frame_unfold.
      cbn zeta. simpl. rewrite P, Hf. unfold r'. destruct r. simpl in *.
      by rewrite Hf.
    + by apply readjson_eof_while_waiting.
  - unfold JsonStreamReader.readjson. simpl JsonStreamReader._exception.
    by rewrite He, find_frame_unfold.
Qed.

Lemma incomplete_read_clears_buffer_witness :
  let r := JsonStreamReader.mk None (lit "  {'a':1") true 65536 in
  let r' := JsonStreamReader.mk None [] true 65536 in
  JsonStreamReader.readjson Json.loads [] r
    = (Raise (IncompleteReadError (lit "{'a':1")), r', [])
  ∧ JsonStreamReader._buffer r' = []
  ∧ JsonStreamReader.readjson Json.loads [] r'
    = (Raise (IncompleteReadError []), r', []).
Proof.
  intros r r'.
  refine (incomplete_read_clears_buffer Json.loads [] r _ _).
  - reflexivity.
  - vm_compute. reflexivity.
Defined.


(* ================================================================== *)
(** * The dispatcher: properties of [read] *)
(* ================================================================== *)

Section DictFacts.
Context {K V : Type} `{EqDecision K}.
Implicit Types (d : list (K * V)).

Lemma dict_get_set d k k' v :
  dict_get k (dict_set k' v d) = if decide (k' = k) then Some v else dict_get k d.
Proof.
  induction d as [|[k0 v0] d IH]; simpl.
  - by destruct (decide (k' = k)).
  - destruct (decide (k0 = k')) as [->|N]; simpl.
    + by destruct (decide (k' = k)).
    + destruct (decide (k0 = k)) as [->|N'].
      * by destruct (decide (k' = k)); [subst|].
      * by rewrite IH.
Qed.

Lemma dict_get_del d d' k k' :
  dict_del k' d = Some d' → k ≠ k' → dict_get k d' = dict_get k d.
Proof.
  revert d'. induction d as [|[k0 v0] d IH]; intros d'; simpl; [done|].
  destruct (decide (k0 = k')) as [->|N].
  - intros [= ->] Hk. by destruct (decide (k' = k)); [subst|].
  - destruct (dict_del k' d) as [d0|]; [|done]. intros [= <-] Hk. simpl.
    destruct (decide (k0 = k)); [done|]. by apply IH.
Qed.

Lemma dict_get_values d k v : dict_get k d = Some v → v ∈ dict_values d.
Proof.
  induction d as [|[k0 v0] d IH]; simpl; [done|].
  destruct (decide (k0 = k)).
  - intros [= ->]. apply list_elem_of_here.
  - intros H. apply list_elem_of_further. by apply IH.
Qed.

End DictFacts.

Section DispatchFacts.
Import VLCApi.

Lemma dispatch_unfold_int d k w :
  dict_get (text "reply_id") d = Some (JInt k) →
  dispatch (JObj d) w =
    match dict_get k (current_requests w) with
    | None => (None, w)
    | Some r =>
        match objects w !! r with
        | None => (None, w)
        | Some request =>
            let request := Request.with_reply (JObj d) request in
            if cancelled (Request.completed request) then
              (None, set_objects (<[r := request]> (objects w)) w)
            else
              match set_result (Request.completed request) with
              | None =>
                  (Some InvalidStateError,
                   set_objects (<[r := request]> (objects w)) w)
              | Some (f, cbs) =>
                  (None,
                   call_soon cbs
                     (set_objects
                        (<[r := Request.with_completed f request]> (objects w)) w))
              end
        end
    end.
Proof. intros H. unfold dispatch. by rewrite H. Qed.

(** A reply for an id that is not in the table changes nothing. *)
Lemma dispatch_unknown d k w :
  dict_get (text "reply_id") d = Some (JInt k) →
  dict_get k (current_requests w) = None →
  dispatch (JObj d) w = (None, w).
Proof. intros H N. by rewrite (dispatch_unfold_int _ _ _ H), N. Qed.

(** A reply for a request whose future is pending resolves it. *)
Lemma dispatch_pending d k w r req :
  dict_get (text "reply_id") d = Some (JInt k) →
  dict_get k (current_requests w) = Some r →
  objects w !! r = Some req →
  _state (Request.completed req) = PENDING →
  dispatch (JObj d) w
  = (None, call_soon (_callbacks (Request.completed req))
             (set_objects (<[r := resolved (JObj d) req]> (objects w)) w)).
Proof.
  intros H T O S. rewrite (dispatch_unfold_int _ _ _ H), T, O. cbn zeta.
  unfold cancelled, set_result. simpl. by rewrite S.
Qed.

(** A reply for a request whose future was cancelled is stored, and the
    future stays cancelled. *)
Lemma dispatch_cancelled d k w r req :
  dict_get (text "reply_id") d = Some (JInt k) →
  dict_get k (current_requests w) = Some r →
  objects w !! r = Some req →
  _state (Request.completed req) = CANCELLED →
  dispatch (JObj d) w
  = (None, set_objects (<[r := Request.with_reply (JObj d) req]> (objects w)) w).
Proof.
  intros H T O S. rewrite (dispatch_unfold_int _ _ _ H), T, O. cbn zeta.
  unfold cancelled. simpl. by rewrite S.
Qed.

(** A second reply for a request that is resolved but still in the table
    (its [cleanup] has not run yet) makes [set_result] raise. *)
Lemma dispatch_finished d k w r req :
  dict_get (text "reply_id") d = Some (JInt k) →
  dict_get k (current_requests w) = Some r →
  objects w !! r = Some req →
  _state (Request.completed req) = FINISHED →
  dispatch (JObj d) w
  = (Some InvalidStateError,
     set_objects (<[r := Request.with_reply (JObj d) req]> (objects w)) w).
Proof.
  intros H T O S. rewrite (dispatch_unfold_int _ _ _ H), T, O. cbn zeta.
  unfold cancelled, set_result. simpl. by rewrite S.
Qed.

Lemma dispatch_all_cons reply replies w :
  dispatch_all (reply :: replies) w
  = match dispatch reply w with
    | (None, w') => dispatch_all replies w'
    | (Some e, w') => (Some e, w')
    end.
Proof. done. Qed.

(** Replies for distinct pending requests, in whatever order they come:
    each request is resolved with the reply that carries its id, and no
    other object changes. *)
Lemma dispatch_all_resolves (replies : list (Z * list (str * json))) w :
  wf w →
  NoDup replies.*1 →
  (∀ k d, (k, d) ∈ replies →
     dict_get (text "reply_id") d = Some (JInt k)
     ∧ ∃ r req, dict_get k (current_requests w) = Some r
                ∧ objects w !! r = Some req
                ∧ _state (Request.completed req) = PENDING) →
  ∃ w', dispatch_all (JObj <$> replies.*2) w = (None, w')
    ∧ current_requests w' = current_requests w
    ∧ (∀ k d r req, (k, d) ∈ replies →
         dict_get k (current_requests w) = Some r →
         objects w !! r = Some req →
         objects w' !! r = Some (resolved (JObj d) req))
    ∧ (∀ r, (∀ k d, (k, d) ∈ replies →
                    dict_get k (current_requests w) ≠ Some r) →
         objects w' !! r = objects w !! r).
Proof.
  revert w. induction replies as [|[k d] replies IH]; intros w Hwf Hnd Hall.
  - exists w. simpl. repeat split; try done.
    intros k d r req Hin. by apply elem_of_nil in Hin.
  - destruct (Hall k d) as (Hid & r & req & T & O & S); [apply list_elem_of_here|].
    apply NoDup_cons in Hnd as [Hk Hnd].
    rewrite !fmap_cons, dispatch_all_cons. cbn [snd].
    rewrite (dispatch_pending _ _ _ _ _ Hid T O S).
    set (w1 := call_soon _ _).
    assert (Hother : ∀ k' d', (k', d') ∈ replies → k' ≠ k).
    { intros k' d' Hin ->. apply Hk. apply list_elem_of_fmap. by exists (k, d'). }
    assert (Hr : ∀ k' d' r', (k', d') ∈ replies →
                 dict_get k' (current_requests w) = Some r' → r' ≠ r).
    { intros k' d' r' Hin T' ->. apply (Hother _ _ Hin).
      by apply (proj2 Hwf k' k r). }
    destruct (IH w1) as (w' & D & Tw & Hres & Hrest).
    + split.
      * intros k0 r0 T0. simpl in T0. simpl.
        destruct (decide (r = r0)) as [->|N].
        -- rewrite lookup_insert_eq. by eexists.
        -- rewrite lookup_insert_ne by done. by apply (proj1 Hwf k0).
      * apply (proj2 Hwf).
    + done.
    + intros k' d' Hin.
      destruct (Hall k' d') as (Hid' & r' & req' & T' & O' & S');
        [by apply list_elem_of_further|].
      split; [done|]. exists r', req'. simpl. split; [done|].
      rewrite lookup_insert_ne; [done|]. intros <-. by apply (Hr k' d' r).
    + exists w'. split; [done|]. split; [by rewrite Tw|]. split.
      * intros k' d' r' req' Hin T' O'.
        apply elem_of_cons in Hin as [[= -> ->]|Hin].
        -- rewrite T in T'. injection T' as <-. rewrite O in O'.
           injection O' as <-. rewrite Hrest.
           ++ simpl. by rewrite lookup_insert_eq.
           ++ intros k2 d2 Hin2 T2. simpl in T2. by apply (Hr k2 d2 r).
        -- rewrite (Hres k' d' r' req' Hin).
           ++ done.
           ++ done.
           ++ simpl. rewrite lookup_insert_ne; [done|].
              intros <-. by apply (Hr k' d' r).
      * intros r' Hnone. rewrite Hrest.
        -- simpl. rewrite lookup_insert_ne; [done|]. intros <-.
           by apply (Hnone k d); [apply list_elem_of_here|].
        -- intros k2 d2 Hin2. apply (Hnone k2 d2). by apply list_elem_of_further.
Qed.

End DispatchFacts.

Section StoreInvariant.
Import VLCApi.

Lemma wf_init : wf init.
Proof. by split. Qed.

Lemma wf_connected : wf connected.
Proof. by split. Qed.

(** Writing to an object that exists keeps the invariant. *)
Lemma wf_set_object w r req :
  wf w → is_Some (objects w !! r) →
  wf (set_objects (<[r := req]> (objects w)) w).
Proof.
  intros [H1 H2] Hr. split; [|done].
  intros k r0 T. simpl in *. destruct (decide (r = r0)) as [->|N].
  - rewrite lookup_insert_eq. by eexists.
  - rewrite lookup_insert_ne by done. by apply (H1 k).
Qed.

Lemma wf_call_soon w cbs : wf w → wf (call_soon cbs w).
Proof. done. Qed.

Lemma wf_dispatch reply w : wf w → wf (dispatch reply w).2.
Proof.
  intros Hwf. unfold dispatch.
  repeat match goal with
         | |- wf (_, _).2 => cbn [snd]
         | |- wf (let _ := _ in _).2 => cbn zeta
         | |- wf (match ?x with _ => _ end).2 => destruct x eqn:?
         end;
    try exact Hwf; try apply wf_call_soon; apply wf_set_object; by eauto.
Qed.

Lemma wf_cancel_request w r : wf w → wf (cancel_request w r).
Proof.
  intros Hwf. unfold cancel_request.
  destruct (objects w !! r) as [req|] eqn:O; [|done].
  destruct req as [i c rep [[] cbs]]; simpl; try done;
    apply wf_set_object; rewrite ?O; by eauto.
Qed.

Lemma wf_read_except e w : wf w → wf (read_except e w).
Proof.
  intros Hwf. unfold read_except.
  assert (H0 : wf (set_read_exception (Some e) w)) by done.
  revert H0. generalize (set_read_exception (Some e) w).
  generalize (dict_values (current_requests w)).
  intros l. induction l as [|r l IH]; intros w0 H0; [done|].
  simpl. apply IH. by apply wf_cancel_request.
Qed.

(** [issue_request] puts a new object into the store and refers to it
    under the new id. *)
Lemma wf_issue_request lua w : wf w → wf (issue_request lua w).2.
Proof.
  intros [H1 H2]. unfold issue_request.
  destruct (read_exception w); [done|].
  set (r := fresh (dom (objects w))).
  assert (Hr : objects w !! r = None).
  { apply not_elem_of_dom. apply is_fresh. }
  assert (Hold : ∀ k, dict_get k (current_requests w) ≠ Some r).
  { intros k T. apply H1 in T. rewrite Hr in T. by destruct T. }
  assert (G : ∀ req, wf (set_current_requests
                          (dict_set (request_count w) r (current_requests w))
                          (set_objects (<[r := req]> (objects w)) w))).
  { intros req. split; simpl.
    - intros k r0. rewrite dict_get_set.
      destruct (decide (request_count w = k)).
      + intros [= <-]. rewrite lookup_insert_eq. by eexists.
      + intros T. rewrite lookup_insert_ne; [by apply (H1 k)|].
        intros <-. by apply (Hold k).
    - intros k1 k2 r0. rewrite !dict_get_set.
      destruct (decide (request_count w = k1)), (decide (request_count w = k2));
        subst; try done.
      + intros [= <-] T. by destruct (Hold k2).
      + intros T [= <-]. by destruct (Hold k1).
      + apply H2. }
  simpl. destruct (writer w); [|apply G].
  destruct (Request.bytes _); [|apply G]. simpl.
  rewrite insert_insert_eq. apply G.
Qed.

Lemma wf_issue_each luas w : wf w → wf (issue_each luas w).2.
Proof.
  revert w. induction luas as [|lua luas IH]; intros w Hwf; [done|].
  simpl. destruct (issue_request lua w) as [o w1] eqn:E.
  specialize (IH w1). destruct (issue_each luas w1) as [os w2]. simpl.
  apply IH. change w1 with (o, w1).2. rewrite <- E. by apply wf_issue_request.
Qed.

End StoreInvariant.

(** X30: the body of the loop of [read], lines 155-169, on a message
    whose reply_id is an integer.  If the id is not in the table the
    message is dropped and nothing changes.  If it is, the payload is
    stored in that request; a pending future is resolved and its
    callbacks are scheduled, a cancelled future stays cancelled, and for
    a future that is already resolved - its entry not yet removed by
    [cleanup] - line 169 raises InvalidStateError.  No other request is
    touched.  For replies to distinct pending requests this holds in
    whatever order they are dispatched: each request ends resolved with
    the reply of its own id. *)
Theorem reply_resolves_its_request (w : VLCApi.t) :
  (∀ d k, dict_get (text "reply_id") d = Some (JInt k) →
     (dict_get k (VLCApi.current_requests w) = None →
      VLCApi.dispatch (JObj d) w = (None, w))
     ∧ ∀ r req, dict_get k (VLCApi.current_requests w) = Some r →
         VLCApi.objects w !! r = Some req →
         (_state (Request.completed req) = PENDING →
          VLCApi.dispatch (JObj d) w
          = (None, VLCApi.call_soon (_callbacks (Request.completed req))
                     (VLCApi.set_objects
                        (<[r := resolved (JObj d) req]> (VLCApi.objects w)) w)))
         ∧ (_state (Request.completed req) = CANCELLED →
            VLCApi.dispatch (JObj d) w
            = (None, VLCApi.set_objects
                       (<[r := Request.with_reply (JObj d) req]> (VLCApi.objects w))
                       w))
         ∧ (_state (Request.completed req) = FINISHED →
            VLCApi.dispatch (JObj d) w
            = (Some InvalidStateError,
               VLCApi.set_objects
                 (<[r := Request.with_reply (JObj d) req]> (VLCApi.objects w))
                 w)))
  ∧ (wf w →
     ∀ replies : list (Z * list (str * json)),
       NoDup replies.*1 →
       (∀ k d, (k, d) ∈ replies →
          dict_get (text "reply_id") d = Some (JInt k)
          ∧ ∃ r req, dict_get k (VLCApi.current_requests w) = Some r
                     ∧ VLCApi.objects w !! r = Some req
                     ∧ _state (Request.completed req) = PENDING) →
       ∃ w', dispatch_all (JObj <$> replies.*2) w = (None, w')
         ∧ VLCApi.current_requests w' = VLCApi.current_requests w
         ∧ (∀ k d r req, (k, d) ∈ replies →
              dict_get k (VLCApi.current_requests w) = Some r →
              VLCApi.objects w !! r = Some req →
              VLCApi.objects w' !! r = Some (resolved (JObj d) req))
         ∧ (∀ r, (∀ k d, (k, d) ∈ replies →
                         dict_get k (VLCApi.current_requests w) ≠ Some r) →
              VLCApi.objects w' !! r = VLCApi.objects w !! r)).
Proof.
  split.
  - intros d k Hid. split; [apply dispatch_unknown; done|].
    intros r req T O. split; [|split]; intros S.
    + by apply (dispatch_pending d k).
    + by apply (dispatch_cancelled d k).
    + by apply (dispatch_finished d k).
  - intros Hwf replies. by apply dispatch_all_resolves.
Qed.

(** The three outstanding requests answered in the order 2, 0, 1. *)
Lemma reply_resolves_its_request_witness :
  ∃ w', dispatch_all [JObj (reply_to 2); JObj (reply_to 0); JObj (reply_to 1)]
          three_outstanding = (None, w')
    ∧ VLCApi.objects w' !! 0%nat
      = Some (Request.mk 0 (text "a") (Some (JObj (reply_to 0)))
                (mkFuture FINISHED []))
    ∧ VLCApi.objects w' !! 1%nat
      = Some (Request.mk 1 (text "b") (Some (JObj (reply_to 1)))
                (mkFuture FINISHED []))
    ∧ VLCApi.objects w' !! 2%nat
      = Some (Request.mk 2 (text "c") (Some (JObj (reply_to 2)))
                (mkFuture FINISHED [])).
Proof.
  destruct (proj2 (reply_resolves_its_request three_outstanding)
              (wf_issue_each _ _ wf_connected)
              [(2, reply_to 2); (0, reply_to 0); (1, reply_to 1)])
    as (w' & D & _ & Hres & _).
  - apply (bool_decide_unpack _). vm_compute. exact I.
  - intros k d Hin. rewrite !elem_of_cons in Hin.
    destruct Hin as [[= -> ->]|[[= -> ->]|[[= -> ->]|Hin]]];
      [| | |by apply elem_of_nil in Hin]; (split; [vm_compute; reflexivity|]).
    + exists 2%nat, (Request.mk 2 (text "c") None (mkFuture PENDING [cleanup 2])).
      vm_compute. auto.
    + exists 0%nat, (Request.mk 0 (text "a") None (mkFuture PENDING [cleanup 0])).
      vm_compute. auto.
    + exists 1%nat, (Request.mk 1 (text "b") None (mkFuture PENDING [cleanup 1])).
      vm_compute. auto.
  - exists w'. split; [exact D|].
    split; [|split].
    + apply (Hres 0 (reply_to 0) 0%nat (Request.mk 0 (text "a") None (mkFuture PENDING [cleanup 0])));
        [do 1 apply list_elem_of_further; apply list_elem_of_here
        |vm_compute; reflexivity|vm_compute; reflexivity].
    + apply (Hres 1 (reply_to 1) 1%nat (Request.mk 1 (text "b") None (mkFuture PENDING [cleanup 1])));
        [do 2 apply list_elem_of_further; apply list_elem_of_here
        |vm_compute; reflexivity|vm_compute; reflexivity].
    + apply (Hres 2 (reply_to 2) 2%nat (Request.mk 2 (text "c") None (mkFuture PENDING [cleanup 2])));
        [apply list_elem_of_here|vm_compute; reflexivity|vm_compute; reflexivity].
Defined.

Section ReadFacts.
Import VLCApi.

Variable loads : bytes → loads_result.


Lemma cancel_obj_idem req : cancel_obj (cancel_obj req) = cancel_obj req.
Proof. unfold cancel_obj. by destruct req as [i c rep [[] cbs]]. Qed.

(** Lines 174-175 act on the store only, and only on the request at [r]. *)
Lemma cancel_request_spec w r :
  current_requests (cancel_request w r) = current_requests w
  ∧ read_exception (cancel_request w r) = read_exception w
  ∧ shutdown (cancel_request w r) = shutdown w
  ∧ ∀ r', objects (cancel_request w r) !! r'
          = if decide (r = r') then cancel_obj <$> objects w !! r'
            else objects w !! r'.
Proof.
  unfold cancel_request.
  destruct (objects w !! r) as [req|] eqn:O.
  - destruct req as [i c rep [[] cbs]]; simpl; repeat split; try done;
      intros r'; destruct (decide (r = r')) as [<-|N];
      rewrite ?lookup_insert_eq, ?lookup_insert_ne, ?O by done; done.
  - repeat split; try done.
    intros r'. destruct (decide (r = r')) as [<-|N]; [by rewrite O|done].
Qed.

Lemma cancel_all_spec l w :
  let w' := fold_left cancel_request l w in
  current_requests w' = current_requests w
  ∧ read_exception w' = read_exception w
  ∧ shutdown w' = shutdown w
  ∧ ∀ r, objects w' !! r
         = if decide (r ∈ l) then cancel_obj <$> objects w !! r
           else objects w !! r.
Proof.
  revert w. induction l as [|r0 l IH]; intros w; simpl.
  - by repeat split.
  - destruct (IH (cancel_request w r0)) as (T & E & S & O).
    destruct (cancel_request_spec w r0) as (T0 & E0 & S0 & O0).
    repeat split; try congruence.
    intros r. rewrite O, O0.
    destruct (decide (r ∈ l)) as [Hin|Hnin], (decide (r0 = r)) as [->|N].
    + rewrite decide_True by apply list_elem_of_here.
      destruct (objects w !! r); simpl; [|done]. by rewrite cancel_obj_idem.
    + by rewrite decide_True by by apply list_elem_of_further.
    + by rewrite decide_True by apply list_elem_of_here.
    + rewrite decide_False; [done|].
      intros H. apply elem_of_cons in H as [->|H]; done.
Qed.

(** The handler records the error and cancels what the table holds. *)
Lemma read_except_spec e w :
  let w' := read_except e w in
  read_exception w' = Some e
  ∧ current_requests w' = current_requests w
  ∧ shutdown w' = shutdown w
  ∧ ∀ k r, dict_get k (current_requests w) = Some r →
           objects w' !! r = cancel_obj <$> objects w !! r.
Proof.
  unfold read_except.
  destruct (cancel_all_spec (dict_values (current_requests w))
              (set_read_exception (Some e) w)) as (T & E & S & O).
  repeat split; try done.
  intros k r Hk. rewrite O. rewrite decide_True; [done|].
  by apply (dict_get_values _ k).
Qed.




End ReadFacts.

(** Two replies for the same id in one chunk: the first resolves the
    request, whose [cleanup] has not run when the second is dispatched;
    [set_result] raises InvalidStateError, which [read] does not
    handle. *)
Example read_second_reply_for_same_id :
  ∃ w', VLCApi.read Json.loads 3
          [JsonStreamReader.feed_data
             (lit "{'reply_id':1,'timeout':false}{'reply_id':1,'timeout':true} ")]
          three_outstanding
        = Some (Raise InvalidStateError, w', [])
    ∧ VLCApi.read_exception w' = None
    ∧ VLCApi.objects w' !! 1%nat
      = Some (Request.mk 1 (text "b")
                (Some (JObj [(text "reply_id", JInt 1);
                             (text "timeout", JBool true)]))
                (mkFuture FINISHED [])).
Proof.
  eexists. split; [vm_compute; reflexivity|]. vm_compute. auto.
Qed.

(** C5: three requests are outstanding and the peer answers them in the
    order 2, 0, 1.  When a blank follows each reply, [read] resolves each
    request with the reply of its own id and waits for more.  When the
    replies come one per chunk with nothing between them, the first one
    is decoded from the whole buffer, line 42 leaves its closing brace
    behind, and the next call of [readjson] fails the assertion of line
    38 before it reads the second chunk: [read] ends, request 2 is
    resolved, and the requests 0 and 1 stay pending with no error
    recorded.  And when a second reply for request 1 follows the first
    in one chunk, the entry is still in the table with its future
    resolved: line 169 raises InvalidStateError, which ends [read] as
    well. *)
Theorem read_stops_resolving_replies :
  let reply k := lit "{'reply_id':" ++ map byte_of (str_of_int k)
                 ++ lit ",'timeout':false}" in
  let resolved_with k lua :=
    Some (Request.mk k lua (Some (JObj (reply_to k))) (mkFuture FINISHED [])) in
  let pending k lua :=
    Some (Request.mk k lua None (mkFuture PENDING [cleanup k])) in
  (∃ w', VLCApi.read Json.loads 4
           [JsonStreamReader.feed_data (reply 2 ++ lit " ");
            JsonStreamReader.feed_data (reply 0 ++ lit " ");
            JsonStreamReader.feed_data (reply 1 ++ lit " ")]
           three_outstanding
         = Some (Suspended, w', [])
     ∧ VLCApi.objects w' !! 0%nat = resolved_with 0 (text "a")
     ∧ VLCApi.objects w' !! 1%nat = resolved_with 1 (text "b")
     ∧ VLCApi.objects w' !! 2%nat = resolved_with 2 (text "c"))
  ∧ (∃ w', VLCApi.read Json.loads 4
             [JsonStreamReader.feed_data (reply 2);
              JsonStreamReader.feed_data (reply 0);
              JsonStreamReader.feed_data (reply 1)]
             three_outstanding
           = Some (Raise AssertionError, w',
                   [JsonStreamReader.feed_data (reply 0);
                    JsonStreamReader.feed_data (reply 1)])
       ∧ VLCApi.reader w'
         = Some (JsonStreamReader.mk None (lit "}") false 65536)
       ∧ VLCApi.objects w' !! 2%nat = resolved_with 2 (text "c")
       ∧ VLCApi.objects w' !! 0%nat = pending 0 (text "a")
       ∧ VLCApi.objects w' !! 1%nat = pending 1 (text "b")
       ∧ VLCApi.read_exception w' = None
       ∧ VLCApi.reader_task w' = VLCApi.NoTask)
  ∧ (∃ w', VLCApi.read Json.loads 4
             [JsonStreamReader.feed_data (reply 1 ++ lit " " ++ reply 1 ++ lit " ")]
             three_outstanding
           = Some (Raise InvalidStateError, w', [])
       ∧ VLCApi.objects w' !! 0%nat = pending 0 (text "a")
       ∧ VLCApi.objects w' !! 2%nat = pending 2 (text "c")
       ∧ VLCApi.read_exception w' = None
       ∧ VLCApi.reader_task w' = VLCApi.NoTask).
Proof.
  cbn zeta. split; [|split]; eexists;
    (split; [vm_compute; reflexivity|vm_compute; done]).
Qed.




(* ================================================================== *)
(** * The outgoing frame: properties of [Request.bytes] *)
(* ================================================================== *)

Section FrameFacts.

Lemma utf8_encode_app a b :
  utf8_encode (a ++ b)
  = match utf8_encode a, utf8_encode b with
    | Some x, Some y => Some (x ++ y)
    | _, _ => None
    end.
Proof.
  induction a as [|c a IH]; simpl.
  - by destruct (utf8_encode b).
  - rewrite IH. destruct (utf8_encode_cp c); [|done].
    destruct (utf8_encode a); [|done].
    destruct (utf8_encode b); [|done]. by rewrite app_assoc.
Qed.

Lemma utf8_encode_ascii s :
  ascii_only s → utf8_encode s = Some (map byte_of s).
Proof.
  induction 1 as [|c s Hc _ IH]; simpl; [done|].
  rewrite IH. unfold utf8_encode_cp.
  by destruct (N.ltb_spec c 128); [|lia].
Qed.

Lemma ascii_only_uint d : ascii_only (text (NilEmpty.string_of_uint d)).
Proof.
  induction d; simpl; try (apply Forall_nil; done);
    (apply Forall_cons; split; [done|exact IHd]).
Qed.

Lemma ascii_only_int n : ascii_only (str_of_int n).
Proof.
  unfold str_of_int.
  assert (U : ∀ d, ascii_only (text (NilZero.string_of_uint d))).
  { intros d. unfold NilZero.string_of_uint.
    destruct d; try apply ascii_only_uint.
    apply Forall_cons. split; [done|apply Forall_nil; done]. }
  destruct (Z.to_int n) as [d|d]; simpl NilZero.string_of_int.
  - apply U.
  - apply Forall_cons. split; [done|apply U].
Qed.

Lemma text_back s :
  string_of_list_ascii (map ascii_of_N (text s)) = s.
Proof.
  unfold text. rewrite map_map.
  rewrite <- (string_of_list_ascii_of_string s) at 2.
  f_equal. induction (list_ascii_of_string s) as [|c l IH]; simpl; [done|].
  by rewrite ascii_N_embedding, IH.
Qed.

(** The decimal numeral that [str] prints reads back as the number. *)
Lemma int_of_str_of_int n : int_of_str (str_of_int n) = Some n.
Proof.
  unfold int_of_str.
  assert (A : forallb (λ c, (c <? 128)%N) (str_of_int n) = true).
  { apply forallb_forall. intros c Hc.
    pose proof (ascii_only_int n) as F. unfold ascii_only in F.
    rewrite Forall_forall in F.
    apply N.ltb_lt. apply F. by apply list_elem_of_In. }
  rewrite A. unfold str_of_int. rewrite text_back.
  rewrite NilZero.isi.
  - simpl. by rewrite DecimalZ.of_to.
  - destruct n; simpl; try done. intros [= H].
    by apply DecimalPos.Unsigned.to_uint_nonnil in H.
  - destruct n; simpl; try done. intros [= H].
    by apply DecimalPos.Unsigned.to_uint_nonnil in H.
Qed.

End FrameFacts.

(** C7: for every id and command text, the frame is the UTF-8 encoding of
    the decimal inner length, a colon, the id, a colon and the command
    text, where the inner length is the number of characters of id, colon
    and command text.  Nothing follows the bytes of the command text, and
    the frame exists exactly when the command text can be encoded. *)
Theorem request_bytes_frame (self : Request.t) :
  let id := str_of_int (Request.request_id self) in
  let code := Request.request_code self in
  let inner_length := Z.of_nat (length (id ++ text ":" ++ code)) in
  Request.bytes self
    = utf8_encode (str_of_int inner_length ++ text ":" ++ id ++ text ":" ++ code)
  ∧ Request.bytes self
    = (λ body, map byte_of (str_of_int inner_length) ++ lit ":"
               ++ map byte_of id ++ lit ":" ++ body) <$> utf8_encode code
  ∧ int_of_str (str_of_int inner_length) = Some inner_length
  ∧ inner_length = Z.of_nat (length id) + 1 + Z.of_nat (length code).
Proof.
  intros id code inner_length. split; [done|]. split; [|split].
  - unfold Request.bytes. fold id code inner_length.
    rewrite !utf8_encode_app.
    rewrite (utf8_encode_ascii (str_of_int inner_length)) by apply ascii_only_int.
    rewrite (utf8_encode_ascii id) by apply ascii_only_int.
    change (utf8_encode (text ":")) with (Some (lit ":")).
    by destruct (utf8_encode code).
  - apply int_of_str_of_int.
  - unfold inner_length. rewrite !length_app. simpl. lia.
Qed.

(* ================================================================== *)
(** * The client facade: [issue_request], [execute] and [connect] *)
(* ================================================================== *)

Section ExecuteFacts.
Import VLCApi.

Variable format : json → str.

(** [execute] once the awaited future is resolved: it inspects the reply
    slot of the request. *)
Lemma execute_resolved lua others w fut w1 req :
  issue_request lua w = (Return fut, w1) →
  objects (others w1) !! fut = Some req →
  _state (Request.completed req) = FINISHED →
  execute format lua others w
  = (inspect format lua (Request.request_reply req), others w1).
Proof.
  intros I O S. unfold execute, await_reply. by rewrite I, O, S.
Qed.

End ExecuteFacts.

(** C6, as stated, fails: the reply to the self test carries a result and
    no timeout field.  [execute] does not return the payload: it raises
    KeyError. *)
Lemma execute_result_without_timeout_raises :
  (VLCApi.execute format_str (text "return 2+2")
     (serve (lit "{'reply_id':0,'result':4} ")) connected).1
  = Raise (KeyError (text "timeout")).
Proof. vm_compute. reflexivity. Qed.

(** C6, amended: the awaited reply is a payload with a timeout field.  If
    the flag is true (more generally, truthy), [execute] raises
    TimeoutError whatever else the payload holds; otherwise, if the error
    field is there and is not null, it raises RuntimeError with a message
    that ends with that error; otherwise it returns the payload as it
    is. *)
Theorem execute_inspects_reply
    (format : json → str) lua others w fut w1 req d timeout :
  VLCApi.issue_request lua w = (Return fut, w1) →
  VLCApi.objects (others w1) !! fut = Some req →
  _state (Request.completed req) = FINISHED →
  Request.request_reply req = Some (JObj d) →
  dict_get (text "timeout") d = Some timeout →
  let result := (VLCApi.execute format lua others w).1 in
  (timeout = JBool true →
   result = Raise (TimeoutError
                     (text "Failed to execute '" ++ lua
                      ++ text "' within time constraints by vlc host")))
  ∧ (truthy timeout = true → ∃ msg, result = Raise (TimeoutError msg))
  ∧ (truthy timeout = false →
     (∀ error, dict_get (text "error") d = Some error → error ≠ JNull →
        result = Raise (RuntimeError
                          (text "Failed to execute '" ++ lua ++ text "': "
                           ++ format error)))
     ∧ (dict_get (text "error") d = None
        ∨ dict_get (text "error") d = Some JNull →
        result = Return (JObj d))).
Proof.
  intros I O S Hr Ht result.
  assert (R : result = VLCApi.inspect format lua (Some (JObj d))).
  { unfold result. by rewrite (execute_resolved format _ _ _ _ _ _ I O S), Hr. }
  rewrite R. unfold VLCApi.inspect. rewrite Ht. clear R.
  split; [by intros ->|]. split.
  - intros ->. by eexists.
  - intros ->. split.
    + intros error -> Hn. by destruct error.
    + by intros [->| ->].
Qed.

(** A reply whose timeout flag is true and that carries a result. *)
Lemma execute_inspects_reply_witness :
  (VLCApi.execute format_str (text "return 2+2")
     (serve (lit "{'reply_id':0,'timeout':true,'result':4} ")) connected).1
  = Raise (TimeoutError
             (text "Failed to execute 'return 2+2' within time constraints by vlc host")).
Proof.
  set (d := [(text "reply_id", JInt 0); (text "timeout", JBool true);
             (text "result", JInt 4)]).
  set (others := serve (lit "{'reply_id':0,'timeout':true,'result':4} ")).
  refine (proj1 (execute_inspects_reply format_str (text "return 2+2") others
                   connected 0%nat
                   (VLCApi.issue_request (text "return 2+2") connected).2
                   (Request.mk 0 (text "return 2+2") (Some (JObj d))
                      (mkFuture FINISHED []))
                   d (JBool true) _ _ _ _ _) _);
    try reflexivity; vm_compute; reflexivity.
Defined.

(** C9: a reply whose payload has no timeout key at all.  [execute]
    raises KeyError for that key, whatever else the payload holds: it
    neither returns the payload nor raises TimeoutError or
    RuntimeError. *)
Theorem execute_needs_timeout_key
    (format : json → str) lua others w fut w1 req d :
  VLCApi.issue_request lua w = (Return fut, w1) →
  VLCApi.objects (others w1) !! fut = Some req →
  _state (Request.completed req) = FINISHED →
  Request.request_reply req = Some (JObj d) →
  dict_get (text "timeout") d = None →
  (VLCApi.execute format lua others w).1 = Raise (KeyError (text "timeout")).
Proof.
  intros I O S Hr Ht.
  rewrite (execute_resolved format _ _ _ _ _ _ I O S), Hr.
  unfold VLCApi.inspect. by rewrite Ht.
Qed.

(** A reply that reports an error and has no timeout key. *)
Lemma execute_needs_timeout_key_witness :
  (VLCApi.execute format_str (text "return 1/0")
     (serve (lit "{'reply_id':0,'error':'division by zero'} ")) connected).1
  = Raise (KeyError (text "timeout")).
Proof.
  set (d := [(text "reply_id", JInt 0);
             (text "error", JStr (text "division by zero"))]).
  refine (execute_needs_timeout_key format_str (text "return 1/0")
            (serve (lit "{'reply_id':0,'error':'division by zero'} "))
            connected 0%nat
            (VLCApi.issue_request (text "return 1/0") connected).2
            (Request.mk 0 (text "return 1/0") (Some (JObj d))
               (mkFuture FINISHED []))
            d _ _ _ _ _);
    try reflexivity; vm_compute; reflexivity.
Defined.

(** C8: once an error is recorded on the client, [issue_request] raises
    it at once and leaves the client as it is: the counter, the table,
    the store and the writer are untouched.  So does every later call. *)
Theorem issue_request_fails_fast lua (w : VLCApi.t) e :
  VLCApi.read_exception w = Some e →
  VLCApi.issue_request lua w = (Raise e, w)
  ∧ ∀ luas, issue_each luas w = ((λ _, Raise e) <$> luas, w).
Proof.
  intros H.
  assert (I : ∀ lua, VLCApi.issue_request lua w = (Raise e, w)).
  { intros l. unfold VLCApi.issue_request. by rewrite H. }
  split; [apply I|].
  intros luas. induction luas as [|l luas IH]; [done|].
  simpl. by rewrite I, IH.
Qed.

(** The three outstanding requests after the stream has ended. *)
Lemma issue_request_fails_fast_witness :
  let w := VLCApi.set_read_exception (Some (IncompleteReadError []))
             three_outstanding in
  VLCApi.issue_request (text "d") w = (Raise (IncompleteReadError []), w).
Proof.
  intros w.
  refine (proj1 (issue_request_fails_fast (text "d") w
                   (IncompleteReadError []) _)).
  reflexivity.
Defined.

(** The same happens when the first attempt is refused and the second
    one fails, refused or not. *)
Lemma connect_second_attempt_fails
    (format : json → str) e1 e2 others (w : VLCApi.t) :
  VLCApi.running w = false →
  VLCApi.shutdown w = None →
  is_ConnectionRefusedError e1 = true →
  VLCApi.connect format (Some e1) (Some e2) others w
  = (Raise (AttributeError (text "shutdown")), VLCApi.set_running false w).
Proof.
  intros Hr Hs He. unfold VLCApi.connect, VLCApi.connect_except.
  rewrite Hr, He. simpl. by rewrite Hs.
Qed.

(** C10: a client whose shutdown future was never created, and a first
    attempt to open the connection that fails with anything but a
    refusal.  The handler sets running to false and then reads
    [self.shutdown]: [connect] raises AttributeError in place of the
    error of the attempt. *)
Theorem connect_masks_open_error
    (format : json → str) e open2 others (w : VLCApi.t) :
  VLCApi.running w = false →
  VLCApi.shutdown w = None →
  is_ConnectionRefusedError e = false →
  VLCApi.connect format (Some e) open2 others w
  = (Raise (AttributeError (text "shutdown")), VLCApi.set_running false w).
Proof.
  intros Hr Hs He. unfold VLCApi.connect, VLCApi.connect_except.
  rewrite Hr, He. simpl. by rewrite Hs.
Qed.

(** A new client and a name that does not resolve (an OSError). *)
Lemma connect_masks_open_error_witness :
  VLCApi.connect format_str (Some OSError) None (λ w, w) VLCApi.init
  = (Raise (AttributeError (text "shutdown")), VLCApi.init).
Proof.
  refine (connect_masks_open_error format_str OSError None (λ w, w)
            VLCApi.init _ _ _); reflexivity.
Defined.

(* ================================================================== *)
(** * More about the framer *)
(* ================================================================== *)

Section ReaderMore.
Import JsonStreamReader.

Variable loads : bytes → loads_result.

(** What the search leaves behind, whatever its outcome: the limit is
    untouched, end of stream is never taken back, the events that are left
    are a suffix of the events given, and unless the search raised
    IncompleteReadError the buffer is what was buffered and fed, less its
    leading white space. *)
Lemma find_frame_state evs r o r' evs' :
  find_frame loads evs r = (o, r', evs') →
  _limit r' = _limit r
  ∧ (_eof r = true → _eof r' = true)
  ∧ ∃ consumed, evs = consumed ++ evs'
      ∧ ((∀ p, o ≠ Raise (IncompleteReadError p)) ∨ _buffer r' ≠ [] →
         _buffer r' = skip_whitespace (_buffer r ++ fed consumed)).
Proof.
  revert r. induction evs as [|ev evs IH]; intros r;
    rewrite find_frame_unfold; cbn zeta; simpl _buffer; simpl _eof.
  - destruct (probe loads _) eqn:P.
    + intros [= <- <- <-]. repeat split; try done. exists [].
      by rewrite !app_nil_r.
    + destruct (_eof r) eqn:E.
      * intros [= <- <- <-]. repeat split; try done. exists []. split; [done|].
        intros [H|H]; [by destruct (H (skip_whitespace (_buffer r)))|done].
      * intros [= <- <- <-]. repeat split; try done. exists [].
        by rewrite !app_nil_r.
    + intros [= <- <- <-]. repeat split; try done. exists [].
      by rewrite !app_nil_r.
  - destruct (probe loads _) eqn:P.
    + intros [= <- <- <-]. repeat split; try done. exists [].
      by rewrite !app_nil_r.
    + destruct (_eof r) eqn:E.
      * intros [= <- <- <-]. repeat split; try done. exists []. split; [done|].
        intros [H|H]; [by destruct (H (skip_whitespace (_buffer r)))|done].
      * destruct ev as [data| |e].
        -- intros H. apply IH in H. simpl in H.
           destruct H as (Hl & He & consumed & -> & Hb).
           repeat split; try done.
           exists (feed_data data :: consumed). split; [done|].
           intros C. simpl. by rewrite (Hb C), <- app_assoc, skip_whitespace_app.
        -- intros H. apply IH in H. simpl in H.
           destruct H as (Hl & He & consumed & -> & Hb).
           repeat split; try done.
           exists (feed_eof :: consumed). split; [done|].
           intros C. simpl. by rewrite (Hb C), skip_whitespace_app.
        -- intros [= <- <- <-]. repeat split; try done.
           exists [set_exception e]. split; [done|]. intros _. simpl.
           by rewrite app_nil_r.
    + intros [= <- <- <-]. repeat split; try done. exists [].
      by rewrite !app_nil_r.
Qed.

(** A boundary comes from the decoder: the whole buffer was one value,
    and the boundary is one short of its length, or the decoder found
    extra data, and the boundary is where it starts. *)
Lemma probe_boundary_inv b obj sep :
  probe loads b = Boundary obj sep →
  (∃ c b', b = c :: b' ∧ json_start c = true)
  ∧ ((∃ v, loads b = Loaded v ∧ obj = Some v ∧ sep = (length b - 1)%nat)
     ∨ (loads b = ExtraData sep ∧ obj = None)).
Proof.
  destruct b as [|c b']; simpl; [done|].
  destruct (json_start c) eqn:J; [|done].
  destruct (loads (c :: b')) eqn:L; intros [= <- <-].
  - split; [by eexists _, _|]. left. exists obj0. by rewrite Nat.sub_0_r.
  - split; [by eexists _, _|]. by right.
Qed.

Lemma readjson_unfold evs r :
  readjson loads evs r =
  match _exception r with
  | Some e => (Raise e, r, evs)
  | None =>
      match find_frame loads evs r with
      | (Return (obj, sep), r', evs') =>
          let '(o, r'') := take_frame loads obj sep r' in (o, r'', evs')
      | (Raise e, r', evs') => (Raise e, r', evs')
      | (Suspended, r', evs') => (Suspended, r', evs')
      end
  end.
Proof. done. Qed.

End ReaderMore.

(** X1: what [readjson] returns is what the decoder made of the bytes it
    takes off the buffer.  Either the whole buffer (less leading white
    space) was one value: that value is returned and exactly one byte, the
    last one, stays in the buffer.  Or the decoder reported extra data at
    an offset: the value decoded from the bytes before that offset is
    returned and the bytes from that offset on stay.  In both cases the
    offset is within the limit. *)
Theorem readjson_returns_decoded
    (loads : bytes → loads_result) evs r v r' evs' :
  JsonStreamReader.readjson loads evs r = (Return v, r', evs') →
  ∃ consumed, evs = consumed ++ evs' ∧
    let b := JsonStreamReader.skip_whitespace
               (JsonStreamReader._buffer r ++ fed consumed) in
    (loads b = Loaded v
     ∧ JsonStreamReader._buffer r' = drop (length b - 1) b
     ∧ length (JsonStreamReader._buffer r') = 1%nat
     ∧ Z.of_nat (length b - 1) ≤ JsonStreamReader._limit r)
    ∨ (∃ pos, loads b = ExtraData pos
        ∧ loads (take pos b) = Loaded v
        ∧ JsonStreamReader._buffer r' = drop pos b
        ∧ Z.of_nat pos ≤ JsonStreamReader._limit r).
Proof.
  rewrite readjson_unfold. destruct (JsonStreamReader._exception r); [done|].
  destruct (JsonStreamReader.find_frame loads evs r) as [[o r1] evs1] eqn:F.
  destruct o as [[obj sep]|e|]; [|done|done].
  destruct (find_frame_found loads _ _ _ _ _ _ F)
    as (P & Hl & He & consumed & -> & Hb).
  unfold JsonStreamReader.take_frame. rewrite Hl.
  destruct (Z.gtb_spec (Z.of_nat sep) (JsonStreamReader._limit r)) as [G|G];
    [done|].
  intros H. exists consumed. split.
  { destruct obj; [by injection H as _ _ ->|].
    destruct (loads _); by injection H as _ _ ->. }
  cbn zeta. rewrite <- Hb.
  destruct (probe_boundary_inv loads _ _ _ P)
    as ((c & b' & Eb & J) & [(v0 & L & -> & ->)|(L & ->)]).
  - left. injection H as <- <- _. simpl. rewrite Eb in *. simpl in *.
    rewrite Nat.sub_0_r in *. repeat split; try done.
    rewrite length_drop. simpl. lia.
  - right. exists sep. destruct (loads (take sep _)) eqn:L2; try done.
    injection H as <- <- _. done.
Qed.

Lemma readjson_returns_decoded_witness :
  ∃ consumed,
    [JsonStreamReader.feed_data (lit ":1} "); JsonStreamReader.feed_eof]
    = consumed ++ [JsonStreamReader.feed_eof] ∧
    let b := JsonStreamReader.skip_whitespace (lit " {'a'" ++ fed consumed) in
    (Json.loads b = Loaded (JObj [(text "a", JInt 1)])
     ∧ lit " " = drop (length b - 1) b
     ∧ length (lit " ") = 1%nat
     ∧ Z.of_nat (length b - 1) ≤ 65536)
    ∨ (∃ pos, Json.loads b = ExtraData pos
        ∧ Json.loads (take pos b) = Loaded (JObj [(text "a", JInt 1)])
        ∧ lit " " = drop pos b
        ∧ Z.of_nat pos ≤ 65536).
Proof.
  refine (readjson_returns_decoded Json.loads
            [JsonStreamReader.feed_data (lit ":1} "); JsonStreamReader.feed_eof]
            (JsonStreamReader.mk None (lit " {'a'") false 65536)
            (JObj [(text "a", JInt 1)])
            (JsonStreamReader.mk None (lit " ") false 65536)
            [JsonStreamReader.feed_eof] _).
  vm_compute. reflexivity.
Defined.

Section ReaderWaits.
Import JsonStreamReader.

Variable loads : bytes → loads_result.

(** Where the search suspends: every event was an arrival of data and is
    consumed, end of stream is not signalled, and the buffer holds all
    that was buffered and fed, less leading white space, with no boundary
    in it. *)
Lemma find_frame_suspended evs r r' evs' :
  find_frame loads evs r = (Suspended, r', evs') →
  evs' = [] ∧ _eof r' = false ∧ _eof r = false
  ∧ _exception r' = _exception r ∧ _limit r' = _limit r
  ∧ Forall (λ ev, ∃ data, ev = feed_data data) evs
  ∧ _buffer r' = skip_whitespace (_buffer r ++ fed evs)
  ∧ probe loads (_buffer r') = NoBoundary.
Proof.
  revert r. induction evs as [|ev evs IH]; intros r;
    rewrite find_frame_unfold; cbn zeta; simpl _buffer; simpl _eof;
    destruct (probe loads (skip_whitespace (_buffer r))) eqn:P; try done;
    destruct (_eof r) eqn:E; try done.
  - intros [= <- <-]. simpl. rewrite app_nil_r.
    repeat split; try done; constructor.
  - destruct ev as [data| |e]; [| |done].
    + intros H. apply IH in H. simpl in H.
      destruct H as (-> & E' & _ & X & L & F & B & P').
      repeat split; try done.
      * apply Forall_cons. split; [by eexists|done].
      * simpl. by rewrite B, <- app_assoc, skip_whitespace_app.
    + intros H. apply IH in H. simpl in H. by destruct H as (_ & _ & ? & _).
Qed.

(** Searching on from where the search suspended is searching with all
    the events in one go. *)
Lemma find_frame_resume evs1 evs2 r r' evs' :
  find_frame loads evs1 r = (Suspended, r', evs') →
  find_frame loads evs2 r' = find_frame loads (evs1 ++ evs2) r.
Proof.
  revert r. induction evs1 as [|ev evs1 IH]; intros r;
    rewrite (find_frame_unfold loads _ r); cbn zeta; simpl _buffer; simpl _eof;
    destruct (probe loads (skip_whitespace (_buffer r))) eqn:P; try done;
    destruct (_eof r) eqn:E; try done.
  - intros [= <- _]. simpl app.
    rewrite (find_frame_unfold loads evs2 (with_buffer _ r)),
            (find_frame_unfold loads evs2 r).
    cbn zeta. simpl _buffer. by rewrite skip_whitespace_idem.
  - destruct ev as [data| |e]; [| |done].
    + intros H. rewrite (IH _ H). simpl app.
      rewrite (find_frame_unfold loads (_ :: _) r). cbn zeta. simpl _buffer.
      by rewrite P; simpl; rewrite E.
    + intros H. rewrite (IH _ H). simpl app.
      rewrite (find_frame_unfold loads (_ :: _) r). cbn zeta. simpl _buffer.
      by rewrite P; simpl; rewrite E.
Qed.

Lemma last_drop (first : Byte.byte) rest c :
  last (first :: rest) = Some c → drop (length rest) (first :: rest) = [c].
Proof.
  intros H. apply last_Some in H as [b' E]. rewrite E.
  assert (L : length rest = length b').
  { apply (f_equal length) in E. rewrite length_app in E. simpl in E. lia. }
  by rewrite L, drop_app_length.
Qed.

(** The whole buffer is one value: it is returned, and the buffer is cut
    one byte before its end. *)
Lemma readjson_whole_buffer evs r v first rest :
  _exception r = None →
  skip_whitespace (_buffer r) = first :: rest →
  json_start first = true →
  loads (first :: rest) = Loaded v →
  Z.of_nat (length rest) ≤ _limit r →
  readjson loads evs r
  = (Return v, with_buffer (drop (length rest) (first :: rest)) r, evs).
Proof.
  intros He Hb J L Hl.
  rewrite readjson_unfold, He, find_frame_unfold. cbn zeta.
  simpl _buffer. rewrite Hb. unfold probe. rewrite J, L.
  unfold take_frame. simpl _limit.
  replace (length (first :: rest) - 1)%nat with (length rest) by (simpl; lia).
  by destruct (Z.gtb_spec (Z.of_nat (length rest)) (_limit r)); [lia|].
Qed.

(** Lines 61-70 do not wait. *)
Lemma take_frame_not_suspended obj sep r :
  (take_frame loads obj sep r).1 ≠ Suspended.
Proof.
  unfold take_frame. destruct (_ >? _); [done|].
  destruct obj; [done|]. by destruct (loads _).
Qed.

(** The first byte after the white space starts no JSON value. *)
Lemma readjson_other_start evs r c rest :
  _exception r = None →
  skip_whitespace (_buffer r) = c :: rest →
  json_start c = false →
  readjson loads evs r = (Raise AssertionError, with_buffer (c :: rest) r, evs).
Proof.
  intros He Hb J.
  rewrite readjson_unfold, He, find_frame_unfold. cbn zeta.
  simpl _buffer. rewrite Hb. unfold probe. by rewrite J.
Qed.

Lemma skip_whitespace_head b c rest :
  skip_whitespace b = c :: rest → isspace c = false.
Proof.
  induction b as [|x b IH]; simpl; [done|].
  destruct (isspace x) eqn:S; [done|]. by intros [= <- _].
Qed.

(** An exception on the reader after the search is the one that the
    search raised. *)
Lemma find_frame_exception evs r o r' evs' e :
  find_frame loads evs r = (o, r', evs') →
  _exception r = None → _exception r' = Some e → o = Raise e.
Proof.
  revert r. induction evs as [|ev evs IH]; intros r;
    rewrite find_frame_unfold; cbn zeta; simpl _buffer; simpl _eof;
    destruct (probe loads (skip_whitespace (_buffer r)));
    try (intros [= <- <- <-] He; simpl; rewrite He; done);
    destruct (_eof r);
    try (intros [= <- <- <-] He; simpl; rewrite He; done).
  destruct ev as [data| |e1].
  - intros F He. by apply (IH _ F).
  - intros F He. by apply (IH _ F).
  - intros [= <- <- <-] He. simpl. by intros [= ->].
Qed.

End ReaderWaits.

(** X2: a value that arrives complete, with nothing after it.  The whole
    buffer decodes, the value is returned, and the last byte of the buffer
    stays behind.  When that byte is neither white space nor an opening
    brace or bracket (it is the closing one of the value), every later
    call raises AssertionError and reads nothing of what arrives. *)
Theorem readjson_wedges_on_last_byte
    (loads : bytes → loads_result) evs r v first rest c :
  JsonStreamReader._exception r = None →
  JsonStreamReader.skip_whitespace (JsonStreamReader._buffer r) = first :: rest →
  JsonStreamReader.json_start first = true →
  loads (first :: rest) = Loaded v →
  Z.of_nat (length rest) ≤ JsonStreamReader._limit r →
  last (first :: rest) = Some c →
  JsonStreamReader.isspace c = false →
  JsonStreamReader.json_start c = false →
  JsonStreamReader.readjson loads evs r
    = (Return v, JsonStreamReader.with_buffer [c] r, evs)
  ∧ ∀ evs2, JsonStreamReader.readjson loads evs2 (JsonStreamReader.with_buffer [c] r)
            = (Raise AssertionError, JsonStreamReader.with_buffer [c] r, evs2).
Proof.
  intros He Hb J L Hl Hc Hs Hj. split.
  - by rewrite (readjson_whole_buffer loads evs r v first rest),
               (last_drop _ _ _ Hc).
  - intros evs2.
    rewrite (readjson_other_start loads evs2
               (JsonStreamReader.with_buffer [c] r) c []); [done|done| |done].
    cbn [JsonStreamReader._buffer JsonStreamReader.with_buffer
         JsonStreamReader.skip_whitespace]. by rewrite Hs.
Qed.

Lemma readjson_wedges_on_last_byte_witness :
  let r := JsonStreamReader.mk None (lit " {'a':[1]}") false 65536 in
  JsonStreamReader.readjson Json.loads [JsonStreamReader.feed_data (lit "{}")] r
    = (Return (JObj [(text "a", JArr [JInt 1])]),
       JsonStreamReader.with_buffer (lit "}") r,
       [JsonStreamReader.feed_data (lit "{}")])
  ∧ ∀ evs2, JsonStreamReader.readjson Json.loads evs2
              (JsonStreamReader.with_buffer (lit "}") r)
            = (Raise AssertionError, JsonStreamReader.with_buffer (lit "}") r, evs2).
Proof.
  intros r.
  refine (readjson_wedges_on_last_byte Json.loads _ r _ Byte.x7b
            (lit "'a':[1]}") Byte.x7d _ _ _ _ _ _ _ _);
    try reflexivity; vm_compute; congruence.
Defined.

(** X3: the same value followed by one byte of white space, as a peer
    that ends each message with a newline sends it.  The value is
    returned, the white space stays in the buffer, and the next call
    behaves as on an empty buffer. *)
Theorem readjson_skips_trailing_space
    (loads : bytes → loads_result) evs r v first rest c :
  JsonStreamReader._exception r = None →
  JsonStreamReader.skip_whitespace (JsonStreamReader._buffer r) = first :: rest →
  JsonStreamReader.json_start first = true →
  loads (first :: rest) = Loaded v →
  Z.of_nat (length rest) ≤ JsonStreamReader._limit r →
  last (first :: rest) = Some c →
  JsonStreamReader.isspace c = true →
  JsonStreamReader.readjson loads evs r
    = (Return v, JsonStreamReader.with_buffer [c] r, evs)
  ∧ ∀ evs2, JsonStreamReader.readjson loads evs2 (JsonStreamReader.with_buffer [c] r)
            = JsonStreamReader.readjson loads evs2 (JsonStreamReader.with_buffer [] r).
Proof.
  intros He Hb J L Hl Hc Hs. split.
  - by rewrite (readjson_whole_buffer loads evs r v first rest),
               (last_drop _ _ _ Hc).
  - intros evs2. rewrite !readjson_unfold.
    cbn [JsonStreamReader._exception JsonStreamReader.with_buffer].
    rewrite He, !find_frame_unfold. cbn zeta.
    cbn [JsonStreamReader._buffer JsonStreamReader.with_buffer
         JsonStreamReader.skip_whitespace JsonStreamReader._eof
         JsonStreamReader._exception JsonStreamReader._limit].
    by rewrite Hs.
Qed.

Lemma readjson_skips_trailing_space_witness :
  let r := JsonStreamReader.mk None (lit "{'a':1}" ++ [Byte.x0a]) false 65536 in
  JsonStreamReader.readjson Json.loads [] r
    = (Return (JObj [(text "a", JInt 1)]),
       JsonStreamReader.with_buffer [Byte.x0a] r, [])
  ∧ ∀ evs2, JsonStreamReader.readjson Json.loads evs2
              (JsonStreamReader.with_buffer [Byte.x0a] r)
            = JsonStreamReader.readjson Json.loads evs2
                (JsonStreamReader.with_buffer [] r).
Proof.
  intros r.
  refine (readjson_skips_trailing_space Json.loads _ r _ Byte.x7b
            (lit "'a':1}" ++ [Byte.x0a]) Byte.x0a _ _ _ _ _ _ _);
    try reflexivity; vm_compute; congruence.
Defined.

(** X4: [readjson] suspends only to wait for data.  When it does, every
    event it was given was an arrival of data and all of them are
    consumed, no exception is stored, end of stream is not signalled, and
    the buffer holds everything buffered and fed, less leading white
    space, with no boundary in it.  In particular a call after end of
    stream never suspends. *)
Theorem readjson_suspends_only_for_data
    (loads : bytes → loads_result) evs r r' evs' :
  JsonStreamReader.readjson loads evs r = (Suspended, r', evs') →
  evs' = []
  ∧ JsonStreamReader._exception r = None
  ∧ JsonStreamReader._eof r = false ∧ JsonStreamReader._eof r' = false
  ∧ Forall (λ ev, ∃ data, ev = JsonStreamReader.feed_data data) evs
  ∧ JsonStreamReader._buffer r'
    = JsonStreamReader.skip_whitespace (JsonStreamReader._buffer r ++ fed evs)
  ∧ JsonStreamReader.probe loads (JsonStreamReader._buffer r')
    = JsonStreamReader.NoBoundary.
Proof.
  rewrite readjson_unfold.
  destruct (JsonStreamReader._exception r) eqn:He; [done|].
  destruct (JsonStreamReader.find_frame loads evs r) as [[o r1] evs1] eqn:F.
  destruct o as [[obj sep]|e|].
  - pose proof (take_frame_not_suspended loads obj sep r1) as N.
    destruct (JsonStreamReader.take_frame loads obj sep r1) as [o2 r2].
    by intros [= -> _ _].
  - done.
  - intros [= <- <-].
    destruct (find_frame_suspended loads _ _ _ _ F)
      as (-> & E' & E & _ & _ & Fa & B & P). by repeat split.
Qed.

Lemma readjson_suspends_only_for_data_witness :
  let r := JsonStreamReader.mk None (lit " ") false 65536 in
  let evs := [JsonStreamReader.feed_data (lit " {'a'");
              JsonStreamReader.feed_data (lit ":")] in
  Forall (λ ev, ∃ data, ev = JsonStreamReader.feed_data data) evs
  ∧ lit "{'a':" = JsonStreamReader.skip_whitespace (lit " " ++ fed evs).
Proof.
  intros r evs.
  destruct (readjson_suspends_only_for_data Json.loads evs r
              (JsonStreamReader.mk None (lit "{'a':") false 65536) [])
    as (_ & _ & _ & _ & F & B & _).
  - vm_compute. reflexivity.
  - split; [exact F|exact B].
Defined.

(** X5: [readjson] can be resumed.  Giving a suspended call the events
    that arrive later is the same as giving the call all events in one
    go. *)
Theorem readjson_resumes
    (loads : bytes → loads_result) evs1 evs2 r r' evs' :
  JsonStreamReader.readjson loads evs1 r = (Suspended, r', evs') →
  JsonStreamReader.readjson loads evs2 r'
  = JsonStreamReader.readjson loads (evs1 ++ evs2) r.
Proof.
  rewrite !readjson_unfold.
  destruct (JsonStreamReader._exception r) eqn:He; [done|].
  destruct (JsonStreamReader.find_frame loads evs1 r) as [[o r1] evs1'] eqn:F.
  destruct o as [[obj sep]|e|].
  - pose proof (take_frame_not_suspended loads obj sep r1) as N.
    destruct (JsonStreamReader.take_frame loads obj sep r1) as [o2 r2].
    by intros [= -> _ _].
  - done.
  - intros [= <- <-].
    destruct (find_frame_suspended loads _ _ _ _ F) as (_ & _ & _ & X & _).
    by rewrite X, He, (find_frame_resume loads _ evs2 _ _ _ F).
Qed.

Lemma readjson_resumes_witness :
  JsonStreamReader.readjson Json.loads
    [JsonStreamReader.feed_data (lit ":1} {")]
    (JsonStreamReader.mk None (lit "{'a'") false 65536)
  = JsonStreamReader.readjson Json.loads
      [JsonStreamReader.feed_data (lit "{'a'");
       JsonStreamReader.feed_data (lit ":1} {")]
      (JsonStreamReader.mk None (lit "  ") false 65536).
Proof.
  refine (readjson_resumes Json.loads
            [JsonStreamReader.feed_data (lit "{'a'")]
            [JsonStreamReader.feed_data (lit ":1} {")]
            (JsonStreamReader.mk None (lit "  ") false 65536)
            (JsonStreamReader.mk None (lit "{'a'") false 65536) [] _).
  vm_compute. reflexivity.
Defined.

(** X6: a byte that starts no JSON value at the head of the buffer, after
    the white space.  [readjson] raises AssertionError whatever the limit
    and the end-of-stream flag are, consumes no event, keeps the byte in
    the buffer, and so raises again on every later call. *)
Theorem readjson_rejects_other_start
    (loads : bytes → loads_result) evs r c rest :
  JsonStreamReader._exception r = None →
  JsonStreamReader.skip_whitespace (JsonStreamReader._buffer r) = c :: rest →
  JsonStreamReader.json_start c = false →
  let r' := JsonStreamReader.with_buffer (c :: rest) r in
  JsonStreamReader.readjson loads evs r = (Raise AssertionError, r', evs)
  ∧ ∀ evs2, JsonStreamReader.readjson loads evs2 r'
            = (Raise AssertionError, r', evs2).
Proof.
  intros He Hb J r'.
  pose proof (skip_whitespace_head _ _ _ Hb) as Hc.
  split.
  - by apply readjson_other_start.
  - intros evs2. rewrite (readjson_other_start loads evs2 r' c rest); [done|done| |done].
    cbn [r' JsonStreamReader._buffer JsonStreamReader.with_buffer
         JsonStreamReader.skip_whitespace]. by rewrite Hc.
Qed.

Lemma readjson_rejects_other_start_witness :
  let r := JsonStreamReader.mk None (lit "  4 {'a':1}") true 65536 in
  let r' := JsonStreamReader.with_buffer (lit "4 {'a':1}") r in
  JsonStreamReader.readjson Json.loads [] r = (Raise AssertionError, r', [])
  ∧ ∀ evs2, JsonStreamReader.readjson Json.loads evs2 r'
            = (Raise AssertionError, r', evs2).
Proof.
  intros r r'.
  refine (readjson_rejects_other_start Json.loads [] r Byte.x34
            (lit " {'a':1}") _ _ _); reflexivity.
Defined.

(** X7: whatever a call of [readjson] does, it leaves the limit as it
    was, never takes end of stream back, and hands back a suffix of the
    events it was given.  When the reader holds an exception afterwards,
    that exception is what the call raised and what every later call
    raises, with no event consumed. *)
Theorem readjson_keeps_reader_settings
    (loads : bytes → loads_result) evs r o r' evs' :
  JsonStreamReader.readjson loads evs r = (o, r', evs') →
  JsonStreamReader._limit r' = JsonStreamReader._limit r
  ∧ (JsonStreamReader._eof r = true → JsonStreamReader._eof r' = true)
  ∧ (∃ consumed, evs = consumed ++ evs')
  ∧ ∀ e, JsonStreamReader._exception r' = Some e →
      o = Raise e
      ∧ ∀ evs2, JsonStreamReader.readjson loads evs2 r' = (Raise e, r', evs2).
Proof.
  rewrite readjson_unfold.
  destruct (JsonStreamReader._exception r) as [e0|] eqn:He.
  - intros [= <- <- <-]. split; [done|]. split; [done|].
    split; [by exists []|]. intros e H. rewrite He in H. injection H as ->.
    split; [done|]. intros evs2. by rewrite readjson_unfold, He.
  - destruct (JsonStreamReader.find_frame loads evs r) as [[o1 r1] evs1] eqn:F.
    destruct (find_frame_state loads _ _ _ _ _ F) as (Hl & Hf & consumed & E & _).
    pose proof (λ e, find_frame_exception loads _ _ _ _ _ e F He) as X.
    assert (S : ∀ e, JsonStreamReader._exception r' = Some e →
                ∀ evs2, JsonStreamReader.readjson loads evs2 r' = (Raise e, r', evs2)).
    { intros e H evs2. by rewrite readjson_unfold, H. }
    destruct o1 as [[obj sep]|e1|].
    + unfold JsonStreamReader.take_frame.
      destruct (_ >? _).
      * intros [= <- <- <-]. split; [done|]. split; [done|].
        split; [by exists consumed|]. intros e H. by specialize (X e H).
      * assert (∀ o2, (o2, JsonStreamReader.with_buffer
                             (drop sep (JsonStreamReader._buffer r1)) r1, evs1)
                      = (o, r', evs') →
                JsonStreamReader._limit r' = JsonStreamReader._limit r
                ∧ (JsonStreamReader._eof r = true → JsonStreamReader._eof r' = true)
                ∧ (∃ consumed, evs = consumed ++ evs')
                ∧ ∀ e, JsonStreamReader._exception r' = Some e →
                    o = Raise e
                    ∧ ∀ evs2, JsonStreamReader.readjson loads evs2 r'
                              = (Raise e, r', evs2)) as G.
        { intros o2 [= <- <- <-]. split; [done|]. split; [done|].
          split; [by exists consumed|]. intros e H. simpl in H.
          by specialize (X e H). }
        destruct obj; [apply G|]. destruct (loads _); apply G.
    + intros [= <- <- <-]. split; [done|]. split; [done|].
      split; [by exists consumed|]. intros e H. injection (X e H) as ->.
      split; [done|by apply S].
    + intros [= <- <- <-]. split; [done|]. split; [done|].
      split; [by exists consumed|]. intros e H. by specialize (X e H).
Qed.

Lemma readjson_keeps_reader_settings_witness :
  let r' := JsonStreamReader.mk (Some OSError) (lit "{'a'") false 16 in
  JsonStreamReader.readjson Json.loads
    [JsonStreamReader.feed_data (lit "{'a'");
     JsonStreamReader.set_exception OSError;
     JsonStreamReader.feed_eof]
    (JsonStreamReader.mk None (lit "  ") false 16)
  = (Raise OSError, r', [JsonStreamReader.feed_eof])
  ∧ ∀ evs2, JsonStreamReader.readjson Json.loads evs2 r' = (Raise OSError, r', evs2).
Proof.
  intros r'. split; [vm_compute; reflexivity|].
  destruct (readjson_keeps_reader_settings Json.loads
              [JsonStreamReader.feed_data (lit "{'a'");
               JsonStreamReader.set_exception OSError;
               JsonStreamReader.feed_eof]
              (JsonStreamReader.mk None (lit "  ") false 16)
              (Raise OSError) r' [JsonStreamReader.feed_eof])
    as (_ & _ & _ & X).
  - vm_compute. reflexivity.
  - exact (proj2 (X OSError eq_refl)).
Defined.

(* ================================================================== *)
(** * More about the outgoing frame *)
(* ================================================================== *)

Section Utf8Facts.

Lemma to_N_byte_of n : (n < 256)%N → Byte.to_N (byte_of n) = n.
Proof.
  intros H. unfold byte_of. destruct (Byte.of_N n) as [b|] eqn:E.
  - by apply Byte.to_of_N.
  - apply Byte.of_N_None_iff in E. lia.
Qed.

Ltac split_div c k :=
  let q := fresh "q" in let m := fresh "m" in
  let Hq := fresh "Hq" in let Hm := fresh "Hm" in
  pose proof (N.div_mod c k ltac:(done)) as Hq;
  pose proof (N.mod_lt c k ltac:(done)) as Hm;
  set (q := (c / k)%N) in *; set (m := (c mod k)%N) in *;
  clearbody q m.

Ltac decide_tests :=
  repeat match goal with
         | |- context [(?a <? ?b)%N] => destruct (N.ltb_spec a b); try lia
         | |- context [(?a <=? ?b)%N] => destruct (N.leb_spec a b); try lia
         | |- context [(?a =? ?b)%N] => destruct (N.eqb_spec a b); try lia
         end.

(** Decoding undoes encoding, one character at a time. *)
Lemma utf8_decode_encode_cp c b rest :
  utf8_encode_cp c = Some b →
  utf8_decode (map Byte.to_N b ++ rest) = cons c <$> utf8_decode rest.
Proof.
  unfold utf8_encode_cp.
  destruct (N.ltb_spec c 0x80).
  { intros [= <-]. simpl map. simpl app. rewrite to_N_byte_of by lia.
    cbn [utf8_decode].
    by destruct (N.ltb_spec c 128); [|lia]. }
  destruct (N.ltb_spec c 0x800).
  { intros [= <-]. split_div c 64%N.
    simpl map. rewrite !to_N_byte_of by lia. simpl app.
    cbn [utf8_decode]. unfold is_cont. decide_tests; simpl; try done.
    all: do 2 f_equal; lia. }
  destruct ((0xD800 <=? c)%N && (c <=? 0xDFFF)%N) eqn:S; [done|].
  assert (c < 0xD800 ∨ 0xDFFF < c)%N as HS.
  { apply andb_false_iff in S as [S|S];
      [apply N.leb_gt in S|apply N.leb_gt in S]; lia. }
  clear S.
  destruct (N.ltb_spec c 0x10000).
  { intros [= <-].
    pose proof (N.div_mod c 64 ltac:(done)) as H64.
    pose proof (N.mod_lt c 64 ltac:(done)) as M64.
    pose proof (N.div_mod (c / 64) 64 ltac:(done)) as H4096.
    pose proof (N.mod_lt (c / 64) 64 ltac:(done)) as M4096.
    replace (c / 4096)%N with (c / 64 / 64)%N by (by rewrite N.Div0.div_div).
    set (q := (c / 64 / 64)%N) in *. set (m1 := ((c / 64) mod 64)%N) in *.
    set (m0 := (c mod 64)%N) in *. set (q1 := (c / 64)%N) in *.
    clearbody q m1 m0 q1.
    simpl map. rewrite !to_N_byte_of by lia. simpl app.
    cbn [utf8_decode]. unfold is_cont. decide_tests; simpl; try done.
    all: do 2 f_equal; lia. }
  destruct (N.ltb_spec c 0x110000); [|done].
  intros [= <-].
  pose proof (N.div_mod c 64 ltac:(done)) as H64.
  pose proof (N.mod_lt c 64 ltac:(done)) as M64.
  pose proof (N.div_mod (c / 64) 64 ltac:(done)) as H4096.
  pose proof (N.mod_lt (c / 64) 64 ltac:(done)) as M4096.
  pose proof (N.div_mod (c / 64 / 64) 64 ltac:(done)) as H262144.
  pose proof (N.mod_lt (c / 64 / 64) 64 ltac:(done)) as M262144.
  replace (c / 262144)%N with (c / 64 / 64 / 64)%N by (by rewrite !N.Div0.div_div).
  replace (c / 4096)%N with (c / 64 / 64)%N by (by rewrite N.Div0.div_div).
  set (q := (c / 64 / 64 / 64)%N) in *.
  set (m2 := ((c / 64 / 64) mod 64)%N) in *.
  set (q2 := (c / 64 / 64)%N) in *.
  set (m1 := ((c / 64) mod 64)%N) in *.
  set (m0 := (c mod 64)%N) in *. set (q1 := (c / 64)%N) in *.
  clearbody q m2 q2 m1 m0 q1.
  simpl map. rewrite !to_N_byte_of by lia. simpl app.
  cbn [utf8_decode]. unfold is_cont. decide_tests; simpl; try done.
    all: do 2 f_equal; lia.
Qed.

End Utf8Facts.

Section FrameMore.

Lemma utf8_decode_encode s b :
  utf8_encode s = Some b → utf8_decode (map Byte.to_N b) = Some s.
Proof.
  revert b. induction s as [|c s IH]; intros b; simpl.
  - by intros [= <-].
  - destruct (utf8_encode_cp c) as [bc|] eqn:C; [|done].
    destruct (utf8_encode s) as [bs|]; [|done]. intros [= <-].
    rewrite map_app, (utf8_decode_encode_cp c bc _ C), (IH bs eq_refl). done.
Qed.

Lemma utf8_encode_inj s1 s2 b :
  utf8_encode s1 = Some b → utf8_encode s2 = Some b → s1 = s2.
Proof.
  intros H1 H2. apply utf8_decode_encode in H1, H2. congruence.
Qed.

Lemma numeral_uint d : Forall numeral_char (text (NilEmpty.string_of_uint d)).
Proof.
  induction d; simpl; try (by apply Forall_nil);
    (apply Forall_cons; split; [right; simpl; lia|exact IHd]).
Qed.

Lemma numeral_int n : Forall numeral_char (str_of_int n).
Proof.
  unfold str_of_int.
  assert (U : ∀ d, Forall numeral_char (text (NilZero.string_of_uint d))).
  { intros d. unfold NilZero.string_of_uint.
    destruct d; try apply numeral_uint.
    apply Forall_cons. split; [right; simpl; lia|by apply Forall_nil]. }
  destruct (Z.to_int n) as [d|d]; simpl NilZero.string_of_int.
  - apply U.
  - apply Forall_cons. split; [by left|apply U].
Qed.

Lemma str_of_int_inj n1 n2 : str_of_int n1 = str_of_int n2 → n1 = n2.
Proof.
  intros H. pose proof (int_of_str_of_int n1) as H1.
  rewrite H, int_of_str_of_int in H1. by injection H1.
Qed.

(** A text is cut at its first colon in one way only. *)
Lemma cut_at_colon (l1 l2 r1 r2 : str) :
  Forall numeral_char l1 → Forall numeral_char l2 →
  l1 ++ 58%N :: r1 = l2 ++ 58%N :: r2 → l1 = l2 ∧ r1 = r2.
Proof.
  revert l2. induction l1 as [|a l1 IH]; intros l2 F1 F2; destruct l2 as [|b l2];
    simpl.
  - by intros [= ->].
  - intros [= <- _]. apply Forall_cons in F2 as [[?|?] _]; lia.
  - intros [= -> _]. apply Forall_cons in F1 as [[?|?] _]; lia.
  - intros [= -> H]. apply Forall_cons in F1 as [_ F1].
    apply Forall_cons in F2 as [_ F2].
    destruct (IH l2 F1 F2 H) as [-> ->]. done.
Qed.

Lemma utf8_encode_cp_length c b :
  utf8_encode_cp c = Some b →
  (1 ≤ length b)%nat ∧ (length b = 1%nat ↔ (c < 128)%N).
Proof.
  unfold utf8_encode_cp.
  destruct (N.ltb_spec c 0x80); [intros [= <-]; simpl; split; [lia|done]|].
  destruct (N.ltb_spec c 0x800);
    [intros [= <-]; simpl; split; [lia|split; [done|lia]]|].
  destruct (_ && _); [done|].
  destruct (N.ltb_spec c 0x10000);
    [intros [= <-]; simpl; split; [lia|split; [done|lia]]|].
  destruct (N.ltb_spec c 0x110000); [|done].
  intros [= <-]; simpl; split; [lia|split; [done|lia]].
Qed.

Lemma utf8_encode_length s b :
  utf8_encode s = Some b →
  (length s ≤ length b)%nat ∧ (length b = length s ↔ ascii_only s).
Proof.
  revert b. induction s as [|c s IH]; intros b; simpl.
  - intros [= <-]. split; [done|]. split; [intros _; apply Forall_nil; done|done].
  - destruct (utf8_encode_cp c) as [bc|] eqn:C; [|done].
    destruct (utf8_encode s) as [bs|]; [|done]. intros [= <-].
    destruct (utf8_encode_cp_length _ _ C) as [L1 E1].
    destruct (IH bs eq_refl) as [L2 E2]. rewrite length_app.
    split; [lia|]. unfold ascii_only in *. rewrite Forall_cons. split.
    + intros H. split; [apply E1; lia|apply E2; lia].
    + intros [Hc Hs]. apply E1 in Hc. apply E2 in Hs. lia.
Qed.

Lemma utf8_encode_cp_none c : utf8_encode_cp c = None ↔ unencodable c.
Proof.
  unfold utf8_encode_cp, unencodable.
  destruct (N.ltb_spec c 0x80); [split; [done|lia]|].
  destruct (N.ltb_spec c 0x800); [split; [done|lia]|].
  destruct (N.leb_spec 0xD800 c), (N.leb_spec c 0xDFFF); simpl;
    try (split; [intros _; lia|done]);
    (destruct (N.ltb_spec c 0x10000); [split; [done|lia]|]);
    (destruct (N.ltb_spec c 0x110000); [split; [done|lia]|split; [lia|done]]).
Qed.

Lemma utf8_encode_none s : utf8_encode s = None ↔ Exists unencodable s.
Proof.
  induction s as [|c s IH]; simpl.
  - split; [done|]. intros H. by apply Exists_nil in H.
  - rewrite Exists_cons, <- IH, <- utf8_encode_cp_none.
    destruct (utf8_encode_cp c); [|by split; [left|]].
    destruct (utf8_encode s); split; try done.
    + by intros [?|?].
    + intros _. by right.
Qed.

End FrameMore.

(** X8: a frame says which request it is.  Two requests with the same
    frame have the same id and the same command text, so the peer can
    tell every request from every other. *)
Theorem request_frames_unambiguous (r1 r2 : Request.t) frame :
  Request.bytes r1 = Some frame →
  Request.bytes r2 = Some frame →
  Request.request_id r1 = Request.request_id r2
  ∧ Request.request_code r1 = Request.request_code r2.
Proof.
  unfold Request.bytes. intros H1 H2.
  pose proof (utf8_encode_inj _ _ _ H1 H2) as E.
  change (text ":") with [58%N] in E. simpl app in E.
  apply cut_at_colon in E as [_ E]; try apply numeral_int.
  apply cut_at_colon in E as [E1 E2]; try apply numeral_int.
  split; [by apply str_of_int_inj|done].
Qed.

Lemma request_frames_unambiguous_witness :
  let r1 := Request.mk 7 (text "play " ++ [252%N]) None create_future in
  let r2 := Request.mk 7 (text "play " ++ [252%N]) (Some JNull)
              (mkFuture FINISHED []) in
  Request.bytes r1 = Some (lit "8:7:play ü")
  ∧ Request.bytes r2 = Some (lit "8:7:play ü")
  ∧ Request.request_id r1 = Request.request_id r2
  ∧ Request.request_code r1 = Request.request_code r2.
Proof.
  intros r1 r2.
  assert (H1 : Request.bytes r1 = Some (lit "8:7:play ü"))
    by (vm_compute; reflexivity).
  assert (H2 : Request.bytes r2 = Some (lit "8:7:play ü"))
    by (vm_compute; reflexivity).
  split; [exact H1|]. split; [exact H2|].
  exact (request_frames_unambiguous r1 r2 (lit "8:7:play ü") H1 H2).
Defined.

(** X9: the length at the head of a frame counts characters, not bytes.
    What follows the first colon is at least that many bytes long, and
    exactly that many only when the command text is all ASCII. *)
Theorem request_length_counts_characters (self : Request.t) frame :
  Request.bytes self = Some frame →
  let inner_length :=
    (length (str_of_int (Request.request_id self)) + 1
     + length (Request.request_code self))%nat in
  ∃ payload,
    frame = map byte_of (str_of_int (Z.of_nat inner_length)) ++ lit ":" ++ payload
    ∧ (inner_length ≤ length payload)%nat
    ∧ (length payload = inner_length ↔ ascii_only (Request.request_code self)).
Proof.
  intros H inner_length. unfold Request.bytes in H.
  set (id := str_of_int (Request.request_id self)) in *.
  set (code := Request.request_code self) in *.
  assert (L : length (id ++ text ":" ++ code) = inner_length).
  { rewrite !length_app. simpl. unfold inner_length. lia. }
  rewrite L in H. rewrite utf8_encode_app in H.
  rewrite (utf8_encode_ascii (str_of_int _)) in H by apply ascii_only_int.
  destruct (utf8_encode (text ":" ++ id ++ text ":" ++ code)) as [b|] eqn:B;
    [|done].
  injection H as <-.
  change (text ":" ++ id ++ text ":" ++ code)
    with ([58%N] ++ (id ++ text ":" ++ code)) in B.
  rewrite utf8_encode_app in B. change (utf8_encode [58%N]) with (Some (lit ":")) in B.
  destruct (utf8_encode (id ++ text ":" ++ code)) as [payload|] eqn:P; [|done].
  injection B as <-. exists payload. split; [done|].
  destruct (utf8_encode_length _ _ P) as [Hle Hiff]. rewrite L in Hle, Hiff.
  split; [done|]. rewrite Hiff. unfold ascii_only.
  rewrite !Forall_app. split.
  - by intros (_ & _ & ?).
  - intros Hc. split; [apply ascii_only_int|]. split; [|done].
    apply Forall_cons. split; [done|apply Forall_nil; done].
Qed.

Lemma request_length_counts_characters_witness :
  ∃ payload,
    lit "8:7:play ü" = map byte_of (str_of_int (Z.of_nat 8)) ++ lit ":" ++ payload
    ∧ (8 ≤ length payload)%nat
    ∧ (length payload = 8%nat ↔ ascii_only (text "play " ++ [252%N])).
Proof.
  refine (request_length_counts_characters
            (Request.mk 7 (text "play " ++ [252%N]) None create_future)
            (lit "8:7:play ü") _).
  vm_compute. reflexivity.
Defined.

(** X10: [Request.bytes] fails, with the UnicodeEncodeError of [encode],
    exactly when the command text holds a surrogate or a value beyond the
    last code point; the id never stands in the way. *)
Theorem request_bytes_fails_on_surrogates (self : Request.t) :
  Request.bytes self = None ↔ Exists unencodable (Request.request_code self).
Proof.
  unfold Request.bytes. rewrite utf8_encode_none, !Exists_app.
  assert (A : ∀ s, ascii_only s → ¬ Exists unencodable s).
  { intros s Hs Hx. apply Exists_exists in Hx as (c & Hin & Hc).
    unfold ascii_only in Hs. rewrite Forall_forall in Hs.
    specialize (Hs c Hin). unfold unencodable in Hc. simpl in Hs. lia. }
  assert (C : ¬ Exists unencodable (text ":")).
  { apply A. apply Forall_cons. split; [done|apply Forall_nil; done]. }
  pose proof (λ n, A _ (ascii_only_int n)) as I.
  split; [|by auto 10].
  intros [H|[H|[H|[H|H]]]]; try done;
    first [by apply I in H|by apply C in H].
Qed.

(* ================================================================== *)
(** * More about the dispatcher and the client *)
(* ================================================================== *)

Section DictMore.
Context {K V : Type} `{EqDecision K}.
Implicit Types (d : list (K * V)).

Lemma dict_get_elem_of d k v : dict_get k d = Some v → (k, v) ∈ d.
Proof.
  induction d as [|[k0 v0] d IH]; simpl; [done|].
  destruct (decide (k0 = k)) as [->|N].
  - intros [= ->]. apply list_elem_of_here.
  - intros H. apply list_elem_of_further. by apply IH.
Qed.

Lemma dict_get_none d k : dict_get k d = None ↔ k ∉ d.*1.
Proof.
  induction d as [|[k0 v0] d IH]; simpl.
  - split; [intros _ H; by apply elem_of_nil in H|done].
  - rewrite not_elem_of_cons. destruct (decide (k0 = k)) as [->|N].
    + split; [done|]. by intros [? _].
    + rewrite IH. split; [by intros ?; split|by intros [_ ?]].
Qed.

(** Setting a key that is not there appends. *)
Lemma dict_set_new d k v : k ∉ d.*1 → dict_set k v d = d ++ [(k, v)].
Proof.
  induction d as [|[k0 v0] d IH]; simpl; [done|].
  rewrite not_elem_of_cons. intros [N H].
  destruct (decide (k0 = k)) as [->|_]; [done|]. by rewrite IH.
Qed.

(** Deleting a key of a dict removes it and nothing else. *)
Lemma dict_del_keys d d' k :
  dict_del k d = Some d' → d'.*1 `sublist_of` d.*1 ∧ (NoDup d.*1 → k ∉ d'.*1).
Proof.
  revert d'. induction d as [|[k0 v0] d IH]; intros d'; simpl; [done|].
  destruct (decide (k0 = k)) as [->|N].
  - intros [= ->]. split; [by apply sublist_cons|].
    intros H. by apply NoDup_cons in H as [? _].
  - destruct (dict_del k d) as [d0|]; [|done]. intros [= <-].
    destruct (IH d0 eq_refl) as [S F]. simpl. split; [by apply sublist_skip|].
    intros H. apply NoDup_cons in H as [_ H]. rewrite not_elem_of_cons.
    split; [done|by apply F].
Qed.

Lemma dict_del_none d k : dict_del k d = None ↔ k ∉ d.*1.
Proof.
  induction d as [|[k0 v0] d IH]; simpl.
  - split; [intros _ H; by apply elem_of_nil in H|done].
  - rewrite not_elem_of_cons. destruct (decide (k0 = k)) as [->|N].
    + split; [done|]. by intros [? _].
    + destruct (dict_del k d); simpl.
      * split; [done|]. intros [_ H]. by apply IH in H.
      * split; [|done]. intros _. split; [done|]. by apply IH.
Qed.

End DictMore.

Section TableFacts.
Import VLCApi.

Lemma table_ok_init : table_ok init.
Proof. split; simpl; constructor. Qed.

(** [dispatch] writes to the store and schedules callbacks; it touches
    nothing else of the client. *)
Lemma dispatch_frame reply w :
  let w' := (dispatch reply w).2 in
  current_requests w' = current_requests w
  ∧ request_count w' = request_count w
  ∧ writer w' = writer w
  ∧ running w' = running w
  ∧ read_exception w' = read_exception w
  ∧ shutdown w' = shutdown w
  ∧ reader w' = reader w
  ∧ reader_task w' = reader_task w.
Proof.
  unfold dispatch.
  repeat match goal with
         | |- context [match ?x with _ => _ end] => destruct x
         end; by repeat split.
Qed.

(** What [issue_request] does when no error is recorded, there is a
    writer and the command can be encoded. *)
Lemma issue_request_ok lua w out b :
  read_exception w = None →
  writer w = Some out →
  Request.bytes (Request.mk (request_count w) lua None create_future) = Some b →
  let r := fresh (dom (objects w)) in
  issue_request lua w
  = (Return r,
     set_writer (Some (out ++ [b]))
       (set_current_requests
          (dict_set (request_count w) r (current_requests w))
          (set_objects
             (<[r := Request.mk (request_count w) lua None
                       (mkFuture PENDING [cleanup (request_count w)])]>
                (objects w))
             (set_request_count (request_count w + 1) w)))).
Proof.
  intros He Hw Hb r. unfold issue_request. rewrite He. cbn zeta.
  simpl writer. rewrite Hw, Hb. simpl. unfold call_soon, set_writer,
    set_current_requests, set_objects, set_request_count. simpl.
  by rewrite insert_insert_eq, app_nil_r.
Qed.

(** Whether it returns or raises, [issue_request] with no error recorded
    takes the next id and puts the new request into the table: the
    request has no callback yet when the write fails. *)
Lemma issue_request_registers lua w :
  read_exception w = None →
  let r := fresh (dom (objects w)) in
  let w' := (issue_request lua w).2 in
  request_count w' = request_count w + 1
  ∧ current_requests w' = dict_set (request_count w) r (current_requests w)
  ∧ ready w' = ready w
  ∧ (∀ r', r' ≠ r → objects w' !! r' = objects w !! r')
  ∧ ((issue_request lua w).1 = Return r
     ∧ objects w' !! r
       = Some (Request.mk (request_count w) lua None
                 (mkFuture PENDING [cleanup (request_count w)]))
     ∨ ((issue_request lua w).1 = Raise (AttributeError (text "writer"))
        ∨ (issue_request lua w).1 = Raise UnicodeEncodeError)
       ∧ writer w' = writer w
       ∧ objects w' !! r
         = Some (Request.mk (request_count w) lua None (mkFuture PENDING []))).
Proof.
  intros He r w'. unfold w', issue_request. rewrite He. cbn zeta.
  simpl writer. fold r. destruct (writer w) as [out|] eqn:Hw.
  - destruct (Request.bytes _) as [b|]; simpl.
    + split; [done|]. split; [done|]. split; [apply app_nil_r|]. split.
      * intros r' N. by rewrite insert_insert_eq, lookup_insert_ne.
      * left. split; [done|]. by rewrite insert_insert_eq, lookup_insert_eq.
    + split; [done|]. split; [done|]. split; [done|]. split.
      * intros r' N. by rewrite lookup_insert_ne.
      * right. split; [by right|]. split; [done|]. by rewrite lookup_insert_eq.
  - simpl. split; [done|]. split; [done|]. split; [done|]. split.
    + intros r' N. by rewrite lookup_insert_ne.
    + right. split; [by left|]. split; [done|]. by rewrite lookup_insert_eq.
Qed.

Lemma table_ok_issue_request lua w :
  table_ok w → table_ok (issue_request lua w).2.
Proof.
  intros [N F]. destruct (read_exception w) as [e|] eqn:He.
  { unfold issue_request. by rewrite He. }
  destruct (issue_request_registers lua w He) as (C & T & _).
  assert (Hk : request_count w ∉ (current_requests w).*1).
  { intros Hin. apply list_elem_of_fmap in Hin as ([k r0] & E & Hin).
    rewrite Forall_forall in F. specialize (F _ Hin). simpl in *. lia. }
  unfold table_ok. rewrite C, T, (dict_set_new _ _ _ Hk). split.
  - rewrite fmap_app. simpl. apply NoDup_app. split; [done|].
    split; [|apply NoDup_singleton].
    intros k Hin Hin'. apply list_elem_of_singleton in Hin'. by subst.
  - apply Forall_app. split.
    + eapply Forall_impl; [exact F|]. simpl. intros; lia.
    + apply Forall_singleton. simpl. lia.
Qed.

Lemma table_ok_dispatch reply w : table_ok w → table_ok (dispatch reply w).2.
Proof.
  intros H. destruct (dispatch_frame reply w) as (T & C & _).
  unfold table_ok. by rewrite T, C.
Qed.

Lemma table_ok_run_callback c w : table_ok w → table_ok (run_callback c w).
Proof.
  intros [N F]. destruct c as [k]. simpl.
  destruct (dict_del k (current_requests w)) as [d|] eqn:D; [|done].
  destruct (dict_del_keys _ _ _ D) as [S _].
  split; simpl.
  - by eapply sublist_NoDup.
  - clear S N. revert d D. induction (current_requests w) as [|[k0 r0] l IH];
      intros d; simpl; [done|].
    apply Forall_cons in F as [F0 F].
    destruct (decide (k0 = k)); [by intros [= <-]|].
    destruct (dict_del k l) as [d0|]; [|done]. intros [= <-].
    apply Forall_cons. split; [done|]. by apply IH.
Qed.

Lemma run_callback_frame c w :
  request_count (run_callback c w) = request_count w
  ∧ objects (run_callback c w) = objects w
  ∧ writer (run_callback c w) = writer w
  ∧ read_exception (run_callback c w) = read_exception w.
Proof.
  destruct c as [k]. simpl. by destruct (dict_del k (current_requests w)).
Qed.

(** Running callbacks keeps the table invariant and the store, and the
    ids whose [cleanup] ran are gone from the table. *)
Lemma run_callbacks_spec cbs w :
  table_ok w →
  let w' := fold_left (λ w c, run_callback c w) cbs w in
  table_ok w'
  ∧ objects w' = objects w
  ∧ request_count w' = request_count w
  ∧ writer w' = writer w
  ∧ read_exception w' = read_exception w
  ∧ ((current_requests w').*1 `sublist_of` (current_requests w).*1)
  ∧ ∀ k, cleanup k ∈ cbs → k ∉ (current_requests w').*1.
Proof.
  revert w. induction cbs as [|c cbs IH]; intros w Hok; simpl.
  - repeat split; try done; try apply Hok.
    intros k H. by apply elem_of_nil in H.
  - pose proof (table_ok_run_callback c w Hok) as Hok1.
    destruct (IH _ Hok1) as (Hok' & O & C & W & E & S & G).
    destruct (run_callback_frame c w) as (C1 & O1 & W1 & E1).
    assert (S1 : (current_requests (run_callback c w)).*1
                 `sublist_of` (current_requests w).*1).
    { destruct c as [k]. simpl.
      destruct (dict_del k (current_requests w)) as [d|] eqn:D; [|done].
      by destruct (dict_del_keys _ _ _ D). }
    split; [done|]. split; [congruence|]. split; [congruence|].
    split; [congruence|]. split; [congruence|].
    split; [by etrans|].
    intros k Hin. apply elem_of_cons in Hin as [<-|Hin]; [|by apply G].
    intros Hk. eapply elem_of_sublist in Hk; [|exact S]. revert Hk.
    simpl. destruct (dict_del k (current_requests w)) as [d|] eqn:D.
    + destruct (dict_del_keys _ _ _ D) as [_ X]. apply X. apply Hok.
    + by apply dict_del_none.
Qed.

End TableFacts.

Section LoopFacts.
Import VLCApi.

Variable loads : bytes → loads_result.

Lemma cancel_request_frame w r :
  request_count (cancel_request w r) = request_count w
  ∧ writer (cancel_request w r) = writer w
  ∧ running (cancel_request w r) = running w
  ∧ reader (cancel_request w r) = reader w.
Proof.
  unfold cancel_request. destruct (objects w !! r) as [req|]; [|done].
  destruct (cancelled _); [done|]. by destruct (cancel _).
Qed.

Lemma read_except_frame e w :
  request_count (read_except e w) = request_count w
  ∧ writer (read_except e w) = writer w
  ∧ running (read_except e w) = running w
  ∧ reader (read_except e w) = reader w.
Proof.
  unfold read_except.
  assert (G : ∀ l w0,
            request_count (fold_left cancel_request l w0) = request_count w0
            ∧ writer (fold_left cancel_request l w0) = writer w0
            ∧ running (fold_left cancel_request l w0) = running w0
            ∧ reader (fold_left cancel_request l w0) = reader w0).
  { intros l. induction l as [|r l IH]; intros w0; simpl; [done|].
    destruct (IH (cancel_request w0 r)) as (A & B & C & D).
    destruct (cancel_request_frame w0 r) as (A' & B' & C' & D').
    repeat split; congruence. }
  apply (G _ (set_read_exception (Some e) w)).
Qed.

Lemma read_finally_frame w :
  request_count (read_finally w).2 = request_count w
  ∧ writer (read_finally w).2 = writer w
  ∧ running (read_finally w).2 = running w
  ∧ reader (read_finally w).2 = reader w
  ∧ current_requests (read_finally w).2 = current_requests w
  ∧ objects (read_finally w).2 = objects w
  ∧ read_exception (read_finally w).2 = read_exception w
  ∧ reader_task (read_finally w).2 = NoTask
  ∧ match shutdown w with
    | None => (read_finally w).1 = Some (AttributeError (text "shutdown"))
              ∧ shutdown (read_finally w).2 = None
    | Some f => (read_finally w).1 = None
                ∧ shutdown (read_finally w).2 = Some (cancel f).1
    end.
Proof.
  unfold read_finally. simpl. destruct (shutdown w) as [[[] cbs]|] eqn:S;
    simpl; rewrite ?S; by repeat split.
Qed.

(** The loop of [read] changes the reader and the store, and schedules
    callbacks; it does not touch the rest of the client. *)
Lemma read_loop_frame fuel evs w o w' evs' :
  read_loop loads fuel evs w = Some (o, w', evs') →
  current_requests w' = current_requests w
  ∧ request_count w' = request_count w
  ∧ writer w' = writer w
  ∧ running w' = running w
  ∧ read_exception w' = read_exception w
  ∧ shutdown w' = shutdown w
  ∧ reader_task w' = reader_task w.
Proof.
  revert evs w. induction fuel as [|fuel IH]; intros evs w; simpl; [done|].
  destruct (running w) eqn:R; [|by intros [= <- <- <-]].
  destruct (reader w) as [r|] eqn:Rd; [|by intros [= <- <- <-]].
  destruct (JsonStreamReader.readjson loads evs r) as [[o1 r1] evs1].
  destruct o1 as [reply|e|]; try by intros [= <- <- <-].
  pose proof (dispatch_frame reply (set_reader (Some r1) w)) as F.
  destruct (dispatch reply (set_reader (Some r1) w)) as [[e|] w1];
    simpl in F; destruct F as (A & B & C & D & E & G & _ & H).
  - intros [= <- <- <-]. repeat split; congruence.
  - intros L. apply IH in L. destruct L as (A' & B' & C' & D' & E' & G' & H').
    repeat split; congruence.
Qed.

End LoopFacts.

(** X11: [read] never writes to the peer and never adds an entry to the
    table or removes one: however it ends, the table, the id counter, the
    bytes written and the running flag are as they were.  Entries leave
    the table only through their [cleanup] callback. *)
Theorem read_leaves_table_alone
    (loads : bytes → loads_result) fuel evs w o w' evs' :
  VLCApi.read loads fuel evs w = Some (o, w', evs') →
  VLCApi.current_requests w' = VLCApi.current_requests w
  ∧ VLCApi.request_count w' = VLCApi.request_count w
  ∧ VLCApi.writer w' = VLCApi.writer w
  ∧ VLCApi.running w' = VLCApi.running w.
Proof.
  unfold VLCApi.read.
  destruct (VLCApi.read_loop loads fuel evs w) as [[[o1 w1] evs1]|] eqn:L;
    [|done].
  destruct (read_loop_frame loads _ _ _ _ _ _ L) as (T & C & W & R & _).
  destruct o1 as [[]|e|].
  - destruct (read_finally_frame w1) as (C' & W' & R' & _ & T' & _).
    destruct (VLCApi.read_finally w1) as [[e|] w2]; simpl in *;
      intros [= <- <- <-]; repeat split; congruence.
  - set (w1' := if is_RuntimeError e || is_IncompleteReadError e
                then VLCApi.read_except e w1 else w1).
    assert (X : VLCApi.current_requests w1' = VLCApi.current_requests w1
                ∧ VLCApi.request_count w1' = VLCApi.request_count w1
                ∧ VLCApi.writer w1' = VLCApi.writer w1
                ∧ VLCApi.running w1' = VLCApi.running w1).
    { unfold w1'. destruct (_ || _); [|done].
      destruct (read_except_frame e w1) as (? & ? & ? & _).
      destruct (read_except_spec e w1) as (_ & ? & _). by repeat split. }
    destruct X as (T1 & C1 & W1 & R1).
    destruct (read_finally_frame w1') as (C' & W' & R' & _ & T' & _).
    destruct (VLCApi.read_finally w1') as [[e'|] w2]; simpl in *;
      intros [= <- <- <-]; repeat split; congruence.
  - intros [= <- <- <-]. by repeat split.
Qed.

Lemma read_leaves_table_alone_witness :
  ∃ w', VLCApi.read Json.loads 4
          [JsonStreamReader.feed_data
             (lit "{'reply_id':1,'timeout':false} {'event':1} ");
           JsonStreamReader.feed_eof] three_outstanding
        = Some (Raise (IncompleteReadError []), w', [])
    ∧ VLCApi.current_requests w' = [(0, 0%nat); (1, 1%nat); (2, 2%nat)]
    ∧ VLCApi.request_count w' = 3
    ∧ VLCApi.writer w' = Some [lit "3:0:a"; lit "3:1:b"; lit "3:2:c"]
    ∧ VLCApi.running w' = true.
Proof.
  set (evs := [JsonStreamReader.feed_data
                 (lit "{'reply_id':1,'timeout':false} {'event':1} ");
               JsonStreamReader.feed_eof]).
  set (res := VLCApi.read Json.loads 4 evs three_outstanding).
  assert (E : ∃ w', res = Some (Raise (IncompleteReadError []), w', [])).
  { eexists. vm_compute. reflexivity. }
  destruct E as [w' E]. exists w'. split; [exact E|].
  destruct (read_leaves_table_alone Json.loads 4 evs three_outstanding _ w' [] E)
    as (T & C & W & R).
  rewrite T, C, W, R. vm_compute. repeat split; reflexivity.
Defined.

Section ConsistencyFacts.
Import VLCApi.

Variable loads : bytes → loads_result.
Variable format : json → str.

(** Consistency speaks of the table, the counter and the store only. *)
Lemma consistent_same w w' :
  current_requests w' = current_requests w →
  request_count w' = request_count w →
  objects w' = objects w →
  consistent w → consistent w'.
Proof.
  unfold consistent, table_ok, wf. intros -> -> ->. done.
Qed.

Lemma wf_run_callback c w : table_ok w → wf w → wf (run_callback c w).
Proof.
  intros [N _] [H1 H2]. destruct c as [k]. simpl.
  destruct (dict_del k (current_requests w)) as [d|] eqn:D; [|done].
  assert (G : ∀ k' r, dict_get k' d = Some r →
                      dict_get k' (current_requests w) = Some r).
  { intros k' r T. destruct (decide (k' = k)) as [->|Hk].
    - destruct (dict_del_keys _ _ _ D) as [_ X]. specialize (X N).
      apply dict_get_none in X. congruence.
    - by rewrite <- (dict_get_del _ _ _ _ D Hk). }
  split; simpl.
  - intros k' r T. apply (H1 k'). by apply G.
  - intros k1 k2 r T1 T2. apply (H2 k1 k2 r); by apply G.
Qed.

Lemma consistent_run_callbacks cbs w :
  consistent w → consistent (fold_left (λ w c, run_callback c w) cbs w).
Proof.
  revert w. induction cbs as [|c cbs IH]; intros w [T W]; [done|].
  simpl. apply IH. split; [by apply table_ok_run_callback|by apply wf_run_callback].
Qed.

Lemma consistent_run_ready w : consistent w → consistent (run_ready w).
Proof.
  intros H. apply consistent_run_callbacks.
  by apply (consistent_same w).
Qed.

Lemma consistent_dispatch reply w :
  consistent w → consistent (dispatch reply w).2.
Proof.
  intros [T W]. split; [by apply table_ok_dispatch|by apply wf_dispatch].
Qed.

Lemma consistent_read_loop fuel evs w o w' evs' :
  read_loop loads fuel evs w = Some (o, w', evs') →
  consistent w → consistent w'.
Proof.
  revert evs w. induction fuel as [|fuel IH]; intros evs w; simpl; [done|].
  destruct (running w); [|by intros [= <- <- <-]].
  destruct (reader w) as [r|]; [|by intros [= <- <- <-]].
  destruct (JsonStreamReader.readjson loads evs r) as [[o1 r1] evs1].
  destruct o1 as [reply|e|]; try by intros [= <- <- <-].
  pose proof (consistent_dispatch reply (set_reader (Some r1) w)) as F.
  destruct (dispatch reply (set_reader (Some r1) w)) as [[e|] w1]; simpl in F.
  - intros [= <- <- <-] H. by apply F.
  - intros L H. apply (IH _ _ L). by apply F.
Qed.

Lemma consistent_read_except e w : consistent w → consistent (read_except e w).
Proof.
  intros [[N F] W]. split; [|by apply wf_read_except].
  destruct (read_except_spec e w) as (_ & T & _).
  destruct (read_except_frame e w) as (C & _).
  unfold table_ok. by rewrite T, C.
Qed.

Lemma consistent_read_finally w : consistent w → consistent (read_finally w).2.
Proof.
  destruct (read_finally_frame w) as (C & _ & _ & _ & T & O & _).
  by apply consistent_same.
Qed.

Lemma consistent_read fuel evs w o w' evs' :
  read loads fuel evs w = Some (o, w', evs') →
  consistent w → consistent w'.
Proof.
  unfold read.
  destruct (read_loop loads fuel evs w) as [[[o1 w1] evs1]|] eqn:L; [|done].
  intros R H. pose proof (consistent_read_loop _ _ _ _ _ _ L H) as H1.
  destruct o1 as [[]|e|].
  - pose proof (consistent_read_finally w1 H1) as H2.
    destruct (read_finally w1) as [[e|] w2]; simpl in *;
      by injection R as <- <- <-.
  - set (w1' := if is_RuntimeError e || is_IncompleteReadError e
                then read_except e w1 else w1) in *.
    assert (H1' : consistent w1').
    { unfold w1'. destruct (_ || _); [by apply consistent_read_except|done]. }
    pose proof (consistent_read_finally w1' H1') as H2.
    destruct (read_finally w1') as [[e'|] w2]; simpl in *;
      by injection R as <- <- <-.
  - by injection R as <- <- <-.
Qed.

Lemma consistent_issue_request lua w :
  consistent w → consistent (issue_request lua w).2.
Proof.
  intros [T W]. split; [by apply table_ok_issue_request|by apply wf_issue_request].
Qed.

(** The client after [execute]: it depends on what [issue_request] and
    the rest of the program do, not on the reply. *)
Lemma execute_state lua others w :
  (execute format lua others w).2
  = match (issue_request lua w).1 with
    | Return _ => others (issue_request lua w).2
    | _ => (issue_request lua w).2
    end.
Proof.
  unfold execute. by destruct (issue_request lua w) as [[r|e|] w1].
Qed.

Lemma consistent_execute lua others w :
  (∀ w, consistent w → consistent (others w)) →
  consistent w → consistent (execute format lua others w).2.
Proof.
  intros Ho H. rewrite execute_state.
  pose proof (consistent_issue_request lua w H).
  destruct (issue_request lua w).1; auto.
Qed.

Lemma test_connection_state others w :
  (test_connection format others w).2
  = (execute format (text "return 2+2") others w).2.
Proof.
  unfold test_connection.
  destruct (execute format (text "return 2+2") others w) as [[v|e|] w1];
    [|done..].
  destruct v; try done. by destruct (dict_get _ _).
Qed.

Lemma get_spu_entries_state others w :
  (get_spu_entries format others w).2
  = (execute format
       (command "return {vlc.var.get_list(vlc.object.input(), 'spu-es')}")
       others w).2.
Proof.
  unfold get_spu_entries.
  destruct (execute format _ others w) as [[v|e|] w1]; [|done..].
  destruct v; try done. destruct (dict_get _ _) as [result|]; [|done].
  destruct (iterate result) as [[|a [|b [|c l]]]|]; done.
Qed.

Lemma get_spu_list_state others w :
  (get_spu_list format others w).2 = (get_spu_entries format others w).2.
Proof.
  unfold get_spu_list.
  destruct (get_spu_entries format others w) as [[[i d]|e| |] w1]; [|done..].
  by destruct (work i d) as [entries [e|]].
Qed.

Lemma select_spu_state spu others w :
  (select_spu format spu others w).2
  = (execute format
       (command "vlc.var.set(vlc.object.input(), 'spu-es', "
        ++ format (SpuEntry.index spu) ++ text ")") others w).2.
Proof.
  unfold select_spu. by destruct (execute format _ others w) as [[v|e|] w1].
Qed.

Lemma consistent_connect_except e w :
  consistent w → consistent (connect_except e w).2.
Proof.
  unfold connect_except. simpl. destruct (shutdown w) as [[[] cbs]|];
    simpl; by apply consistent_same.
Qed.

Lemma consistent_connect open1 open2 others w :
  (∀ w, consistent w → consistent (others w)) →
  consistent w → consistent (connect format open1 open2 others w).2.
Proof.
  intros Ho H. unfold connect. destruct (running w); [done|].
  match goal with
  | |- context [match ?x with Some _ => _ | None => _ end] => destruct x as [e|]
  end.
  - pose proof (consistent_connect_except e w H).
    by destruct (connect_except e w).
  - match goal with
    | |- context [test_connection format others ?w0] =>
        assert (H0 : consistent w0) by (by apply (consistent_same w));
        pose proof (test_connection_state others w0) as E;
        pose proof (consistent_execute (text "return 2+2") others w0 Ho H0) as H1;
        destruct (test_connection format others w0) as [[[]|e|] w1]
    end; simpl in E; subst w1; try done.
    + pose proof (consistent_connect_except AssertionError _ H1).
      by destruct (connect_except AssertionError _).
    + pose proof (consistent_connect_except e _ H1).
      by destruct (connect_except e _).
Qed.

Lemma act_consistent : ∀ a w, consistent w → consistent (act loads format a w).
Proof.
  fix IH 1. intros a w H.
  destruct a as [lua|fuel evs| |lua others|open1 open2 others|others|spu others];
    simpl.
  - by apply consistent_issue_request.
  - destruct (read loads fuel evs w) as [[[o w'] evs']|] eqn:R; [|done].
    by apply (consistent_read _ _ _ _ _ _ R).
  - by apply consistent_run_ready.
  - apply consistent_execute; [|done]. clear w H. revert others.
    fix IHl 1. intros [|a l] w H; simpl; [done|]. apply IHl. by apply IH.
  - apply consistent_connect; [|done]. clear w H. revert others.
    fix IHl 1. intros [|a l] w H; simpl; [done|]. apply IHl. by apply IH.
  - rewrite get_spu_list_state, get_spu_entries_state.
    apply consistent_execute; [|done]. clear w H. revert others.
    fix IHl 1. intros [|a l] w H; simpl; [done|]. apply IHl. by apply IH.
  - rewrite select_spu_state.
    apply consistent_execute; [|done]. clear w H. revert others.
    fix IHl 1. intros [|a l] w H; simpl; [done|]. apply IHl. by apply IH.
Qed.

Lemma acts_consistent l w : consistent w → consistent (acts loads format l w).
Proof.
  revert w. induction l as [|a l IH]; intros w H; [done|].
  apply IH. by apply act_consistent.
Qed.

End ConsistencyFacts.

(** X12: whatever a program does with a new client - requests, runs of
    the read loop on whatever the transport delivers, turns of the event
    loop, [execute], [connect], [get_spu_list] and [select_spu] with
    anything of this going on while they wait - the ids of the table stay
    distinct and below the counter, every entry refers to a Request
    object of the store, and no object is in the table twice. *)
Theorem api_keeps_table_consistent
    (loads : bytes → loads_result) (format : json → str) (l : list action) :
  let w := acts loads format l VLCApi.init in
  NoDup (VLCApi.current_requests w).*1
  ∧ Forall (λ kr, kr.1 < VLCApi.request_count w) (VLCApi.current_requests w)
  ∧ (∀ k r, dict_get k (VLCApi.current_requests w) = Some r →
            is_Some (VLCApi.objects w !! r))
  ∧ (∀ k1 k2 r, dict_get k1 (VLCApi.current_requests w) = Some r →
                dict_get k2 (VLCApi.current_requests w) = Some r → k1 = k2).
Proof.
  destruct (acts_consistent loads format l VLCApi.init) as [[N F] [W1 W2]].
  - split; [apply table_ok_init|apply wf_init].
  - done.
Qed.

Section RequestFacts.
Import VLCApi.

Lemma sublist_snoc_without {A} (l' l : list A) k :
  l' `sublist_of` l ++ [k] → k ∉ l' → l' `sublist_of` l.
Proof.
  intros S N. apply sublist_app_r in S as (k1 & k2 & -> & S1 & S2).
  apply sublist_cons_r in S2 as [S2|(k3 & -> & _)].
  - apply sublist_nil_r in S2 as ->. by rewrite app_nil_r.
  - destruct N. apply elem_of_app. right. apply list_elem_of_here.
Qed.

(** The next id is not in a table that is in order. *)
Lemma table_ok_next_id w :
  table_ok w → request_count w ∉ (current_requests w).*1.
Proof.
  intros [_ F] Hin. apply list_elem_of_fmap in Hin as ([k r0] & E & Hin).
  rewrite Forall_forall in F. specialize (F _ Hin). simpl in *. lia.
Qed.

(** The request that [issue_request] has registered, found from its id. *)
Lemma issue_request_lookup lua w :
  read_exception w = None →
  dict_get (request_count w) (current_requests (issue_request lua w).2)
  = Some (fresh (dom (objects w))).
Proof.
  intros He. destruct (issue_request_registers lua w He) as (_ & -> & _).
  rewrite dict_get_set. by rewrite decide_True.
Qed.

(** The peer answers a request that waits for its reply: the request is
    resolved with the reply, and its entry has left the table. *)
Lemma answer_pending d k w r req :
  table_ok w →
  dict_get (text "reply_id") d = Some (JInt k) →
  dict_get k (current_requests w) = Some r →
  objects w !! r = Some req →
  _state (Request.completed req) = PENDING →
  let w' := answer (JObj d) w in
  objects w' = <[r := resolved (JObj d) req]> (objects w)
  ∧ request_count w' = request_count w
  ∧ writer w' = writer w
  ∧ read_exception w' = read_exception w
  ∧ ((current_requests w').*1 `sublist_of` (current_requests w).*1)
  ∧ (∀ k', cleanup k' ∈ ready w ++ _callbacks (Request.completed req) →
           k' ∉ (current_requests w').*1)
  ∧ (ready w ++ _callbacks (Request.completed req) = [] →
     current_requests w' = current_requests w).
Proof.
  intros Hok Hd Ht Ho Hs. unfold answer.
  rewrite (dispatch_pending _ _ _ _ _ Hd Ht Ho Hs). cbn [snd].
  unfold run_ready. simpl.
  set (w0 := set_ready [] _).
  assert (Hok0 : table_ok w0) by done.
  destruct (run_callbacks_spec (ready w ++ _callbacks (Request.completed req))
              w0 Hok0) as (_ & O & C & W & E & S & G).
  repeat split; try done.
  intros ->. done.
Qed.

Lemma table_ok_run_ready w : table_ok w → table_ok (run_ready w).
Proof.
  intros H. unfold run_ready.
  by destruct (run_callbacks_spec (ready w) (set_ready [] w) H) as (? & _).
Qed.

End RequestFacts.

(** X13: with no read error recorded, a writer and a command that can be
    encoded, [issue_request] on a table in order gives the request the id
    of the counter, makes a new Request object for it - pending, with
    [cleanup] of that id as its only callback - appends it to the table
    without replacing any entry, writes the one frame of the request and
    moves the counter by one. *)
Theorem issue_request_appends (lua : str) (w : VLCApi.t) out b :
  table_ok w →
  VLCApi.read_exception w = None →
  VLCApi.writer w = Some out →
  Request.bytes (Request.mk (VLCApi.request_count w) lua None create_future)
  = Some b →
  ∃ r w',
    VLCApi.issue_request lua w = (Return r, w')
    ∧ VLCApi.objects w !! r = None
    ∧ VLCApi.objects w'
      = <[r := Request.mk (VLCApi.request_count w) lua None
                 (mkFuture PENDING [cleanup (VLCApi.request_count w)])]>
          (VLCApi.objects w)
    ∧ VLCApi.current_requests w'
      = VLCApi.current_requests w ++ [(VLCApi.request_count w, r)]
    ∧ VLCApi.writer w' = Some (out ++ [b])
    ∧ VLCApi.request_count w' = VLCApi.request_count w + 1
    ∧ VLCApi.ready w' = VLCApi.ready w
    ∧ table_ok w'.
Proof.
  intros Hok He Hw Hb.
  pose proof (issue_request_ok lua w out b He Hw Hb) as E. cbn zeta in E.
  eexists _, _. split; [exact E|].
  split; [apply not_elem_of_dom, is_fresh|].
  split; [done|]. split.
  { simpl. apply dict_set_new. by apply table_ok_next_id. }
  split; [done|]. split; [done|]. split; [done|].
  pose proof (table_ok_issue_request lua w Hok) as T. by rewrite E in T.
Qed.

Lemma issue_request_appends_witness :
  ∃ r w',
    VLCApi.issue_request (text "play") three_outstanding = (Return r, w')
    ∧ VLCApi.current_requests w'
      = VLCApi.current_requests three_outstanding ++ [(3, r)]
    ∧ VLCApi.writer w'
      = Some ([lit "3:0:a"; lit "3:1:b"; lit "3:2:c"] ++ [lit "6:3:play"]).
Proof.
  assert (Ht : VLCApi.current_requests three_outstanding
               = [(0, 0%nat); (1, 1%nat); (2, 2%nat)])
    by (vm_compute; reflexivity).
  assert (Hc : VLCApi.request_count three_outstanding = 3)
    by (vm_compute; reflexivity).
  assert (Hok : table_ok three_outstanding).
  { unfold table_ok. rewrite Ht, Hc. split.
    - apply (bool_decide_unpack _). vm_compute. reflexivity.
    - repeat apply Forall_cons_2; try apply Forall_nil_2; simpl; lia. }
  assert (He : VLCApi.read_exception three_outstanding = None)
    by (vm_compute; reflexivity).
  assert (Hw : VLCApi.writer three_outstanding
               = Some [lit "3:0:a"; lit "3:1:b"; lit "3:2:c"])
    by (vm_compute; reflexivity).
  assert (Hb : Request.bytes
                 (Request.mk (VLCApi.request_count three_outstanding)
                    (text "play") None create_future)
               = Some (lit "6:3:play"))
    by (vm_compute; reflexivity).
  destruct (issue_request_appends (text "play") three_outstanding _ _ Hok
              He Hw Hb)
    as (r & w' & E & _ & _ & T & W & _).
  exists r, w'. split; [exact E|]. rewrite Hc in T. split; [exact T|exact W].
Defined.

(** X14: when the write fails - the client has no writer, or the command
    cannot be encoded - [issue_request] raises after it has taken the id
    and put the request into the table.  The request is pending and has
    no callback, so no [cleanup] will remove it: a reply with its id
    resolves it and the entry stays in the table. *)
Theorem failed_write_leaves_entry (lua : str) (w : VLCApi.t) :
  table_ok w →
  VLCApi.read_exception w = None →
  VLCApi.ready w = [] →
  VLCApi.writer w = None
  ∨ Request.bytes (Request.mk (VLCApi.request_count w) lua None create_future)
    = None →
  let k := VLCApi.request_count w in
  let w' := (VLCApi.issue_request lua w).2 in
  ((VLCApi.issue_request lua w).1 = Raise (AttributeError (text "writer"))
   ∨ (VLCApi.issue_request lua w).1 = Raise UnicodeEncodeError)
  ∧ VLCApi.request_count w' = k + 1
  ∧ VLCApi.writer w' = VLCApi.writer w
  ∧ ∃ r, dict_get k (VLCApi.current_requests w') = Some r
         ∧ VLCApi.objects w' !! r
           = Some (Request.mk k lua None (mkFuture PENDING []))
         ∧ ∀ d, dict_get (text "reply_id") d = Some (JInt k) →
                let w'' := answer (JObj d) w' in
                VLCApi.current_requests w'' = VLCApi.current_requests w'
                ∧ VLCApi.objects w'' !! r
                  = Some (Request.mk k lua (Some (JObj d)) (mkFuture FINISHED [])).
Proof.
  intros Hok He Hr Hfail k w'.
  destruct (issue_request_registers lua w He) as (C & T & R & _ & [[X _]|(X & W & O)]).
  { exfalso. revert X. unfold VLCApi.issue_request. rewrite He. cbn zeta.
    simpl VLCApi.writer. destruct Hfail as [->| ->]; [done|].
    by destruct (VLCApi.writer w). }
  split; [exact X|]. split; [exact C|]. split; [exact W|].
  exists (fresh (dom (VLCApi.objects w))).
  split; [by apply issue_request_lookup|]. split; [exact O|].
  intros d Hd w''.
  assert (Hok' : table_ok w') by (by apply table_ok_issue_request).
  destruct (answer_pending d k w' _ _ Hok' Hd (issue_request_lookup lua w He)
              O eq_refl) as (O' & _ & _ & _ & _ & _ & K).
  split.
  - apply K. cbn [Request.completed _callbacks]. rewrite app_nil_r.
    etrans; [exact R|exact Hr].
  - unfold w''. rewrite O'. by rewrite lookup_insert_eq.
Qed.

Lemma failed_write_leaves_entry_witness :
  (VLCApi.issue_request (text "play") VLCApi.init).1
  = Raise (AttributeError (text "writer"))
  ∧ VLCApi.current_requests
      (answer (JObj (reply_to 0)) (VLCApi.issue_request (text "play") VLCApi.init).2)
    = [(0, 0%nat)].
Proof.
  destruct (failed_write_leaves_entry (text "play") VLCApi.init table_ok_init
              eq_refl eq_refl (or_introl eq_refl))
    as ([X|X] & _ & _ & r & _ & _ & A).
  - split; [exact X|].
    destruct (A (reply_to 0) eq_refl) as [T _]. rewrite T.
    vm_compute. reflexivity.
  - exfalso. vm_compute in X. discriminate X.
Defined.

(** X15: the round trip of [execute].  On a consistent client with a
    writer, the request is written as one frame; when the peer then
    answers with the id of the request, [execute] gives what lines
    213-220 make of that reply, the request is resolved with it, and its
    entry has left the table again: after the call the table holds no id
    that it did not hold before. *)
Theorem execute_round_trip
    (format : json → str) (lua : str) (w : VLCApi.t) out b d :
  table_ok w →
  VLCApi.read_exception w = None →
  VLCApi.writer w = Some out →
  Request.bytes (Request.mk (VLCApi.request_count w) lua None create_future)
  = Some b →
  dict_get (text "reply_id") d = Some (JInt (VLCApi.request_count w)) →
  let w' := (VLCApi.execute format lua (answer (JObj d)) w).2 in
  (VLCApi.execute format lua (answer (JObj d)) w).1
  = VLCApi.inspect format lua (Some (JObj d))
  ∧ VLCApi.writer w' = Some (out ++ [b])
  ∧ VLCApi.request_count w' = VLCApi.request_count w + 1
  ∧ VLCApi.read_exception w' = None
  ∧ (VLCApi.request_count w ∉ (VLCApi.current_requests w').*1)
  ∧ ((VLCApi.current_requests w').*1
     `sublist_of` (VLCApi.current_requests w).*1)
  ∧ table_ok w'.
Proof.
  intros Hok He Hw Hb Hd.
  pose proof (issue_request_ok lua w out b He Hw Hb) as E. cbn zeta in E.
  set (r := fresh (dom (VLCApi.objects w))) in *.
  set (k := VLCApi.request_count w) in *.
  set (req := Request.mk k lua None (mkFuture PENDING [cleanup k])) in *.
  match type of E with _ = (_, ?x) => set (w1 := x) in * end.
  assert (Hok1 : table_ok w1).
  { pose proof (table_ok_issue_request lua w Hok) as T. by rewrite E in T. }
  assert (T1 : dict_get k (VLCApi.current_requests w1) = Some r).
  { pose proof (issue_request_lookup lua w He) as T. by rewrite E in T. }
  assert (O1 : VLCApi.objects w1 !! r = Some req).
  { simpl. by rewrite lookup_insert_eq. }
  destruct (answer_pending d k w1 r req Hok1 Hd T1 O1 eq_refl)
    as (O & C & W & X & S & G & _).
  assert (Ex : VLCApi.execute format lua (answer (JObj d)) w
               = (VLCApi.inspect format lua (Some (JObj d)), answer (JObj d) w1)).
  { apply (execute_resolved format lua _ w r w1 (resolved (JObj d) req) E);
      [|done]. rewrite O. by rewrite lookup_insert_eq. }
  rewrite Ex. cbn [fst snd].
  assert (Hk : k ∉ (VLCApi.current_requests (answer (JObj d) w1)).*1).
  { apply G. apply elem_of_app. right. apply list_elem_of_here. }
  split; [done|]. split; [by rewrite W|]. split; [by rewrite C|].
  split; [by rewrite X|]. split; [exact Hk|]. split.
  - apply (sublist_snoc_without _ _ k); [|exact Hk].
    replace ((VLCApi.current_requests w).*1 ++ [k])
      with (VLCApi.current_requests w1).*1; [exact S|].
    simpl. rewrite (dict_set_new _ _ _ (table_ok_next_id w Hok)).
    by rewrite fmap_app.
  - unfold answer. apply table_ok_run_ready.
    by apply table_ok_dispatch.
Qed.

Lemma execute_round_trip_witness :
  (VLCApi.execute format_str (text "play")
     (answer (JObj [(text "reply_id", JInt 3); (text "timeout", JBool false);
                    (text "error", JStr (text "no input"))]))
     three_outstanding).1
  = Raise (RuntimeError (text "Failed to execute 'play': no input")).
Proof.
  assert (Ht : VLCApi.current_requests three_outstanding
               = [(0, 0%nat); (1, 1%nat); (2, 2%nat)])
    by (vm_compute; reflexivity).
  assert (Hc : VLCApi.request_count three_outstanding = 3)
    by (vm_compute; reflexivity).
  assert (Hok : table_ok three_outstanding).
  { unfold table_ok. rewrite Ht, Hc. split.
    - apply (bool_decide_unpack _). vm_compute. reflexivity.
    - repeat apply Forall_cons_2; try apply Forall_nil_2; simpl; lia. }
  assert (He : VLCApi.read_exception three_outstanding = None)
    by (vm_compute; reflexivity).
  assert (Hw : VLCApi.writer three_outstanding
               = Some [lit "3:0:a"; lit "3:1:b"; lit "3:2:c"])
    by (vm_compute; reflexivity).
  assert (Hb : Request.bytes
                 (Request.mk (VLCApi.request_count three_outstanding)
                    (text "play") None create_future)
               = Some (lit "6:3:play"))
    by (vm_compute; reflexivity).
  set (d := [(text "reply_id", JInt 3); (text "timeout", JBool false);
             (text "error", JStr (text "no input"))]).
  assert (Hd : dict_get (text "reply_id") d
               = Some (JInt (VLCApi.request_count three_outstanding)))
    by (vm_compute; reflexivity).
  destruct (execute_round_trip format_str (text "play") three_outstanding _ _ d
              Hok He Hw Hb Hd) as (X & _).
  rewrite X. vm_compute. reflexivity.
Defined.

Section FailureFacts.
Import VLCApi.

Variable loads : bytes → loads_result.

(** The loop of [read] when the first call of [readjson] raises. *)
Lemma read_loop_first_raise fuel evs w rd e rd' evs' :
  running w = true → reader w = Some rd →
  JsonStreamReader.readjson loads evs rd = (Raise e, rd', evs') →
  read_loop loads (S fuel) evs w
  = Some (Raise e, set_reader (Some rd') w, evs').
Proof. intros Hr Hrd R. simpl. by rewrite Hr, Hrd, R. Qed.

(** Callbacks act on the table only. *)
Lemma run_callbacks_frame_task cbs w :
  reader_task (fold_left (λ w c, run_callback c w) cbs w) = reader_task w.
Proof.
  revert w. induction cbs as [|[k] cbs IH]; intros w; [done|].
  cbn [fold_left]. rewrite IH. simpl.
  by destruct (dict_del k (current_requests w)).
Qed.

Lemma run_callbacks_frame_more cbs w :
  running (fold_left (λ w c, run_callback c w) cbs w) = running w
  ∧ shutdown (fold_left (λ w c, run_callback c w) cbs w) = shutdown w
  ∧ reader (fold_left (λ w c, run_callback c w) cbs w) = reader w.
Proof.
  revert w. induction cbs as [|[k] cbs IH]; intros w; [done|].
  cbn [fold_left]. destruct (IH (run_callback (cleanup k) w)) as (R & S & D).
  rewrite R, S, D. simpl. by destruct (dict_del k (current_requests w)).
Qed.

End FailureFacts.

(** X16: a caller of [execute] learns of the end of the connection.  The
    request is written; the read loop then gets a RuntimeError or an
    IncompleteReadError from [readjson] before any reply; [execute] raises
    CancelledError, the error is recorded on the client, and every later
    [issue_request] raises it and changes nothing. *)
Theorem execute_cancelled_on_read_failure
    (loads : bytes → loads_result) (format : json → str) (lua : str)
    (w : VLCApi.t) out b rd f fuel evs e rd' evs' :
  table_ok w →
  VLCApi.read_exception w = None →
  VLCApi.writer w = Some out →
  Request.bytes (Request.mk (VLCApi.request_count w) lua None create_future)
  = Some b →
  VLCApi.running w = true →
  VLCApi.reader w = Some rd →
  VLCApi.shutdown w = Some f →
  JsonStreamReader.readjson loads evs rd = (Raise e, rd', evs') →
  is_RuntimeError e || is_IncompleteReadError e = true →
  let after := VLCApi.execute format lua (serve_events loads (S fuel) evs) w in
  after.1 = Raise CancelledError
  ∧ VLCApi.read_exception after.2 = Some e
  ∧ VLCApi.writer after.2 = Some (out ++ [b])
  ∧ VLCApi.reader_task after.2 = VLCApi.NoTask
  ∧ ∀ lua', VLCApi.issue_request lua' after.2 = (Raise e, after.2).
Proof.
  intros Hok He Hw Hb Hr Hrd Hs R Hcls.
  pose proof (issue_request_ok lua w out b He Hw Hb) as E. cbn zeta in E.
  set (r := fresh (dom (VLCApi.objects w))) in *.
  set (k := VLCApi.request_count w) in *.
  set (req := Request.mk k lua None (mkFuture PENDING [cleanup k])) in *.
  match type of E with _ = (_, ?x) => set (w1 := x) in * end.
  assert (Hok1 : table_ok w1).
  { pose proof (table_ok_issue_request lua w Hok) as T. by rewrite E in T. }
  assert (T1 : dict_get k (VLCApi.current_requests w1) = Some r).
  { pose proof (issue_request_lookup lua w He) as T. by rewrite E in T. }
  assert (O1 : VLCApi.objects w1 !! r = Some req).
  { simpl. by rewrite lookup_insert_eq. }
  pose proof (read_loop_first_raise loads fuel evs w1 rd e rd' evs' Hr Hrd R) as L.
  set (w2 := VLCApi.set_reader (Some rd') w1) in *.
  set (w3 := VLCApi.read_except e w2).
  destruct (read_except_spec e w2) as (X3 & T3 & S3 & O3).
  destruct (read_except_frame e w2) as (C3 & W3 & _).
  destruct (read_finally_frame w3) as (C4 & W4 & _ & _ & T4 & O4 & X4 & K4 & F4).
  fold w3 in X3, T3, S3, O3, C3, W3.
  assert (Rd : VLCApi.read loads (S fuel) evs w1
               = Some (Raise e, (VLCApi.read_finally w3).2, evs')).
  { unfold VLCApi.read. rewrite L, Hcls. fold w3.
    rewrite S3 in F4. simpl in F4. rewrite Hs in F4. destruct F4 as [F4 _].
    by destruct (VLCApi.read_finally w3) as [[e'|] w4]. }
  set (w4 := (VLCApi.read_finally w3).2) in *.
  assert (Hok4 : table_ok w4).
  { unfold table_ok. rewrite T4, C4, T3, C3. exact Hok1. }
  assert (Sv : serve_events loads (S fuel) evs w1 = VLCApi.run_ready w4).
  { unfold serve_events. by rewrite Rd. }
  destruct (run_callbacks_spec (VLCApi.ready w4) (VLCApi.set_ready [] w4) Hok4)
    as (_ & O5 & _ & W5 & X5 & _).
  fold (VLCApi.run_ready w4) in O5, W5, X5. simpl in O5, W5, X5.
  assert (Ex : VLCApi.execute format lua (serve_events loads (S fuel) evs) w
               = (Raise CancelledError, VLCApi.run_ready w4)).
  { unfold VLCApi.execute. rewrite E, Sv. unfold VLCApi.await_reply.
    rewrite O5, O4, (O3 k r T1). simpl VLCApi.objects in *. rewrite O1. done. }
  cbn zeta. rewrite Ex. cbn [fst snd].
  assert (X : VLCApi.read_exception (VLCApi.run_ready w4) = Some e)
    by (by rewrite X5, X4, X3).
  split; [done|]. split; [exact X|]. split; [by rewrite W5, W4, W3|].
  split.
  - unfold VLCApi.run_ready. rewrite run_callbacks_frame_task. exact K4.
  - intros lua'. unfold VLCApi.issue_request. by rewrite X.
Qed.

Lemma execute_cancelled_on_read_failure_witness :
  let after :=
    VLCApi.execute format_str (text "play")
      (serve_events Json.loads 1 [JsonStreamReader.feed_eof]) connected in
  after.1 = Raise CancelledError
  ∧ VLCApi.read_exception after.2 = Some (IncompleteReadError [])
  ∧ VLCApi.issue_request (text "stop") after.2
    = (Raise (IncompleteReadError []), after.2).
Proof.
  assert (Hok : table_ok connected).
  { split; simpl; constructor. }
  assert (R : JsonStreamReader.readjson Json.loads [JsonStreamReader.feed_eof]
                (JsonStreamReader.mk None [] false 65536)
              = (Raise (IncompleteReadError []),
                 JsonStreamReader.mk None [] true 65536, []))
    by (vm_compute; reflexivity).
  assert (Hb : Request.bytes
                 (Request.mk (VLCApi.request_count connected) (text "play")
                    None create_future)
               = Some (lit "6:0:play"))
    by (vm_compute; reflexivity).
  destruct (execute_cancelled_on_read_failure Json.loads format_str (text "play")
              connected [] _ _ create_future 0 _ _ _ _
              Hok eq_refl eq_refl Hb eq_refl eq_refl eq_refl R eq_refl)
    as (X & E & _ & _ & I).
  cbn zeta. split; [exact X|]. split; [exact E|]. apply I.
Defined.

(** X17: how [read] ends.  When it returns or raises, the reader task is
    cleared and the shutdown future is cancelled - or, for a client
    without a shutdown future, AttributeError takes the place of whatever
    ended the loop. *)
Theorem read_end_clears_task
    (loads : bytes → loads_result) fuel evs (w : VLCApi.t) o w' evs' :
  VLCApi.read loads fuel evs w = Some (o, w', evs') →
  o ≠ Suspended →
  VLCApi.reader_task w' = VLCApi.NoTask
  ∧ match VLCApi.shutdown w with
    | None => o = Raise (AttributeError (text "shutdown"))
              ∧ VLCApi.shutdown w' = None
    | Some f => VLCApi.shutdown w' = Some (cancel f).1
    end.
Proof.
  unfold VLCApi.read.
  destruct (VLCApi.read_loop loads fuel evs w) as [[[o1 w1] evs1]|] eqn:L;
    [|done].
  destruct (read_loop_frame loads _ _ _ _ _ _ L) as (_ & _ & _ & Rn & _ & S & _).
  destruct o1 as [[]|e|].
  - destruct (read_finally_frame w1) as (_ & _ & _ & _ & _ & _ & _ & K & F).
    rewrite S in F.
    destruct (VLCApi.shutdown w) as [f|]; destruct F as [F1 F2];
      destruct (VLCApi.read_finally w1) as [e' w2]; simpl in *; subst e';
      intros [= <- <- <-] _; by repeat split.
  - set (w1' := if is_RuntimeError e || is_IncompleteReadError e
                then VLCApi.read_except e w1 else w1).
    assert (S' : VLCApi.shutdown w1' = VLCApi.shutdown w).
    { unfold w1'. destruct (_ || _); [|done].
      by destruct (read_except_spec e w1) as (_ & _ & -> & _). }
    destruct (read_finally_frame w1') as (_ & _ & _ & _ & _ & _ & _ & K & F).
    rewrite S' in F.
    destruct (VLCApi.shutdown w) as [f|]; destruct F as [F1 F2];
      destruct (VLCApi.read_finally w1') as [e' w2]; simpl in *; subst e';
      intros [= <- <- <-] _; by repeat split.
  - by intros [= <- <- <-].
Qed.

Lemma read_end_clears_task_witness :
  ∃ w', VLCApi.read Json.loads 2
          [JsonStreamReader.feed_data (lit "[1] ")] three_outstanding
        = Some (Raise (AttributeError (text "get")), w', [])
    ∧ VLCApi.reader_task w' = VLCApi.NoTask
    ∧ VLCApi.shutdown w' = Some (mkFuture CANCELLED []).
Proof.
  set (evs := [JsonStreamReader.feed_data (lit "[1] ")]).
  set (res := VLCApi.read Json.loads 2 evs three_outstanding).
  assert (E : ∃ w', res = Some (Raise (AttributeError (text "get")), w', [])).
  { eexists. vm_compute. reflexivity. }
  destruct E as [w' E]. exists w'. split; [exact E|].
  assert (N : Raise (A := ()) (AttributeError (text "get")) ≠ Suspended)
    by discriminate.
  destruct (read_end_clears_task Json.loads 2 evs three_outstanding _ w' [] E N)
    as (K & S).
  split; [exact K|].
  assert (Hs : VLCApi.shutdown three_outstanding = Some create_future)
    by (vm_compute; reflexivity).
  rewrite Hs in S. exact S.
Defined.

Section ConnectFacts.
Import VLCApi.

(** A request whose command is ASCII can be encoded. *)
Lemma request_bytes_ascii k lua rep f :
  ascii_only lua → is_Some (Request.bytes (Request.mk k lua rep f)).
Proof.
  intros H. unfold Request.bytes. cbn zeta.
  rewrite utf8_encode_ascii; [by eexists|].
  assert (C : ascii_only (text ":")).
  { apply Forall_cons. split; [done|apply Forall_nil; done]. }
  repeat (apply Forall_app; split); try done; apply ascii_only_int.
Qed.

Lemma ascii_only_text s :
  forallb (λ c, (c <? 128)%N) (text s) = true → ascii_only (text s).
Proof.
  intros H. apply Forall_forall. intros c Hc. apply list_elem_of_In in Hc.
  rewrite forallb_forall in H. specialize (H c Hc). by apply N.ltb_lt.
Qed.

Lemma dict_del_snoc {K V} `{EqDecision K} (d : list (K * V)) k v :
  k ∉ d.*1 → dict_del k (d ++ [(k, v)]) = Some d.
Proof.
  induction d as [|[k0 v0] d IH]; simpl.
  - intros _. by rewrite decide_True.
  - rewrite not_elem_of_cons. intros [N H].
    rewrite decide_False by done. by rewrite IH.
Qed.

(** A request and its reply, with nothing else going on: the client is
    as before, but for the frame written, the counter and the resolved
    request in the store. *)
Lemma answer_issued lua w out b d :
  table_ok w →
  read_exception w = None →
  writer w = Some out →
  Request.bytes (Request.mk (request_count w) lua None create_future) = Some b →
  ready w = [] →
  dict_get (text "reply_id") d = Some (JInt (request_count w)) →
  let r := fresh (dom (objects w)) in
  issue_request lua w
  = (Return r, (issue_request lua w).2)
  ∧ answer (JObj d) (issue_request lua w).2
    = mk (reader w) (Some (out ++ [b])) (running w) (reader_task w)
        (request_count w + 1) (current_requests w) None (shutdown w)
        (<[r := Request.mk (request_count w) lua (Some (JObj d))
                  (mkFuture FINISHED [])]> (objects w)) [].
Proof.
  intros Hok He Hw Hb Hrd Hd r.
  pose proof (issue_request_ok lua w out b He Hw Hb) as E. cbn zeta in E.
  fold r in E. rewrite E. split; [done|]. cbn [snd].
  pose proof (table_ok_next_id w Hok) as Hk.
  match type of E with _ = (_, ?x) => set (w1 := x) end.
  set (req := Request.mk (request_count w) lua None
                (mkFuture PENDING [cleanup (request_count w)])).
  assert (T : dict_get (request_count w) (current_requests w1) = Some r).
  { simpl. rewrite dict_get_set. by rewrite decide_True. }
  assert (O : objects w1 !! r = Some req).
  { simpl. by rewrite lookup_insert_eq. }
  unfold answer.
  rewrite (dispatch_pending d _ w1 r req Hd T O eq_refl).
  cbn [snd]. unfold run_ready. simpl. rewrite Hrd. simpl.
  rewrite (dict_set_new _ _ _ Hk), (dict_del_snoc _ _ _ Hk).
  unfold set_current_requests. simpl. rewrite He.
  by rewrite insert_insert_eq.
Qed.

(** The dispatcher and the callbacks do not look at the reader. *)
Lemma dispatch_set_reader x reply w :
  dispatch reply (set_reader x w)
  = ((dispatch reply w).1, set_reader x (dispatch reply w).2).
Proof.
  unfold dispatch. simpl.
  repeat match goal with
         | |- context [match ?x with _ => _ end] => destruct x
         end; reflexivity.
Qed.

Lemma run_ready_set_reader x w :
  run_ready (set_reader x w) = set_reader x (run_ready w).
Proof.
  unfold run_ready. simpl.
  change (set_ready [] (set_reader x w)) with (set_reader x (set_ready [] w)).
  generalize (set_ready [] w). induction (ready w) as [|[k] cbs IH]; intros w0;
    [done|].
  cbn [fold_left]. rewrite <- IH. f_equal. simpl.
  by destruct (dict_del k (current_requests w0)).
Qed.

Section Served.

Variable loads : bytes → loads_result.

(** The read loop takes one reply from the transport, dispatches it and
    waits for more; then the event loop calls what is ready. *)
Lemma serve_events_one_reply fuel evs w rd d rd1 evs1 rd2 :
  running w = true →
  reader w = Some rd →
  JsonStreamReader.readjson loads evs rd = (Return (JObj d), rd1, evs1) →
  JsonStreamReader.readjson loads evs1 rd1 = (Suspended, rd2, []) →
  (dispatch (JObj d) w).1 = None →
  serve_events loads (S (S fuel)) evs w
  = set_reader (Some rd2) (answer (JObj d) w).
Proof.
  intros Hr Hrd R1 R2 D. unfold serve_events, read.
  assert (L : read_loop loads (S (S fuel)) evs w
              = Some (Suspended, set_reader (Some rd2) (dispatch (JObj d) w).2, [])).
  { cbn [read_loop]. rewrite Hr, Hrd, R1, dispatch_set_reader, D.
    destruct (dispatch_frame (JObj d) w) as (_ & _ & _ & Rn & _).
    cbn [running reader set_reader]. rewrite Rn, Hr, R2.
    reflexivity. }
  rewrite L. unfold answer. by rewrite run_ready_set_reader.
Qed.

End Served.

End ConnectFacts.

(** X18: the self-test of [connect].  A client that is not running and
    has no read error recorded opens the connection, at the first attempt
    or at the second after a refusal.  The read loop gets the reply to
    the request of [test_connection] from [readjson] - a reply with a
    false timeout flag and no error - and then waits for more.  If the
    result of that reply equals 4, [connect] returns and the client is
    running with a pending shutdown future; with any other result it
    raises AssertionError, the client is not running and the shutdown
    future is cancelled.  Either way one frame was written, the table is
    as it was and the read loop is still there. *)
Theorem connect_self_test
    (loads : bytes → loads_result) (format : json → str) open1
    (w : VLCApi.t) fuel evs rd1 evs1 rd2 d t v :
  table_ok w →
  VLCApi.running w = false →
  VLCApi.read_exception w = None →
  VLCApi.ready w = [] →
  open1 = None ∨ (∃ e, open1 = Some e ∧ is_ConnectionRefusedError e = true) →
  JsonStreamReader.readjson loads evs (JsonStreamReader.mk None [] false 65536)
  = (Return (JObj d), rd1, evs1) →
  JsonStreamReader.readjson loads evs1 rd1 = (Suspended, rd2, []) →
  dict_get (text "reply_id") d = Some (JInt (VLCApi.request_count w)) →
  dict_get (text "timeout") d = Some t → truthy t = false →
  dict_get (text "error") d = None ∨ dict_get (text "error") d = Some JNull →
  dict_get (text "result") d = Some v →
  let after :=
    VLCApi.connect format open1 None (serve_events loads (S (S fuel)) evs) w in
  (∃ b, Request.bytes (Request.mk (VLCApi.request_count w) (text "return 2+2")
                         None create_future) = Some b
        ∧ VLCApi.writer after.2 = Some [b])
  ∧ VLCApi.current_requests after.2 = VLCApi.current_requests w
  ∧ VLCApi.request_count after.2 = VLCApi.request_count w + 1
  ∧ VLCApi.reader after.2 = Some rd2
  ∧ VLCApi.reader_task after.2 = VLCApi.ReaderTask
  ∧ (as_int_key v = IntKey 4 →
     after.1 = Return ()
     ∧ VLCApi.running after.2 = true
     ∧ VLCApi.shutdown after.2 = Some create_future)
  ∧ (as_int_key v ≠ IntKey 4 →
     after.1 = Raise AssertionError
     ∧ VLCApi.running after.2 = false
     ∧ VLCApi.shutdown after.2 = Some (mkFuture CANCELLED [])).
Proof.
  intros Hok Hr He Hrd Hopen R1 R2 Hd Ht Htf Herr Hv.
  set (lua := text "return 2+2").
  set (others := serve_events loads (S (S fuel)) evs).
  destruct (request_bytes_ascii (VLCApi.request_count w) lua None create_future)
    as [b Hb].
  { apply ascii_only_text. vm_compute. reflexivity. }
  set (w0 := VLCApi.set_reader_task VLCApi.ReaderTask
               (VLCApi.set_running true
                  (VLCApi.set_shutdown (Some create_future)
                     (VLCApi.set_writer (Some [])
                        (VLCApi.set_reader
                           (Some (JsonStreamReader.mk None [] false 65536)) w))))).
  assert (Hok0 : table_ok w0) by done.
  destruct (answer_issued lua w0 [] b d Hok0 He eq_refl Hb Hrd Hd) as [E A].
  set (r := fresh (dom (VLCApi.objects w))) in *.
  set (w1 := (VLCApi.issue_request lua w0).2) in *.
  assert (S1 : others w1 = VLCApi.set_reader (Some rd2) (answer (JObj d) w1)).
  { assert (F : VLCApi.running w1 = true
                ∧ VLCApi.reader w1
                  = Some (JsonStreamReader.mk None [] false 65536)
                ∧ (VLCApi.dispatch (JObj d) w1).1 = None).
    { pose proof (issue_request_ok lua w0 [] b He eq_refl Hb) as E'.
      cbn zeta in E'. unfold w1. rewrite E'. cbn [snd].
      split; [done|]. split; [done|].
      match goal with |- (VLCApi.dispatch _ ?x).1 = _ => set (w1' := x) end.
      assert (T : dict_get (VLCApi.request_count w0)
                    (VLCApi.current_requests w1') = Some r).
      { simpl. rewrite dict_get_set. by rewrite decide_True. }
      assert (O : VLCApi.objects w1' !! r
                  = Some (Request.mk (VLCApi.request_count w0) lua None
                            (mkFuture PENDING
                               [cleanup (VLCApi.request_count w0)]))).
      { simpl. by rewrite lookup_insert_eq. }
      by rewrite (dispatch_pending d _ w1' r _ Hd T O eq_refl). }
    destruct F as (F1 & F2 & F3).
    unfold others.
    by apply (serve_events_one_reply loads fuel evs w1
                (JsonStreamReader.mk None [] false 65536) d rd1 evs1 rd2). }
  assert (X : VLCApi.execute format lua others w0 = (Return (JObj d), others w1)).
  { unfold VLCApi.execute. rewrite E. cbn [snd]. fold w1. f_equal.
    unfold VLCApi.await_reply. rewrite S1, A. simpl VLCApi.objects.
    rewrite lookup_insert_eq. simpl. rewrite Ht, Htf.
    by destruct Herr as [-> | ->]. }
  assert (T : VLCApi.test_connection format others w0
              = (Return (match as_int_key v with
                         | IntKey k => k =? 4
                         | _ => false
                         end), others w1)).
  { unfold VLCApi.test_connection. fold lua. by rewrite X, Hv. }
  assert (C : VLCApi.connect format open1 None others w
              = match VLCApi.test_connection format others w0 with
                | (Return true, w) => (Return (), w)
                | (Return false, w) =>
                    let '(e', w) := VLCApi.connect_except AssertionError w in
                    (Raise e', w)
                | (Raise e, w) =>
                    let '(e', w) := VLCApi.connect_except e w in (Raise e', w)
                | (Suspended, w) => (Suspended, w)
                end).
  { unfold VLCApi.connect. rewrite Hr.
    destruct Hopen as [->|(e & -> & ->)]; reflexivity. }
  cbn zeta. rewrite C, T, S1, A. clear C T X A E S1.
  assert (B : match as_int_key v with IntKey k => k =? 4 | _ => false end = true
              ↔ as_int_key v = IntKey 4).
  { destruct (as_int_key v) as [k| |]; [|done..].
    rewrite Z.eqb_eq. split; [by intros ->|by intros [= ->]]. }
  destruct (match as_int_key v with IntKey k => k =? 4 | _ => false end);
    simpl.
  - split; [by exists b|]. do 4 (split; [done|]). split; [done|].
    intros N. destruct N. by apply B.
  - split; [by exists b|]. do 4 (split; [done|]). split; [|done].
    intros K. by apply B in K.
Qed.

Lemma connect_self_test_witness :
  let chunk := lit "{'reply_id':0,'timeout':false,'result':4.0000000000000000001} " in
  let after :=
    VLCApi.connect format_str None None
      (serve_events Json.loads 2 [JsonStreamReader.feed_data chunk])
      VLCApi.init in
  after.1 = Return ()
  ∧ VLCApi.running after.2 = true
  ∧ VLCApi.shutdown after.2 = Some create_future
  ∧ VLCApi.writer after.2 = Some [lit "12:0:return 2+2"].
Proof.
  set (chunk := lit "{'reply_id':0,'timeout':false,'result':4.0000000000000000001} ").
  set (v := JFloat (text "4.0000000000000000001")).
  set (d := [(text "reply_id", JInt 0); (text "timeout", JBool false);
             (text "result", v)]).
  assert (K : as_int_key v = IntKey 4) by (vm_compute; reflexivity).
  assert (R1 : JsonStreamReader.readjson Json.loads
                 [JsonStreamReader.feed_data chunk]
                 (JsonStreamReader.mk None [] false 65536)
               = (Return (JObj d),
                  JsonStreamReader.mk None (lit " ") false 65536, []))
    by (vm_compute; reflexivity).
  assert (R2 : JsonStreamReader.readjson Json.loads []
                 (JsonStreamReader.mk None (lit " ") false 65536)
               = (Suspended, JsonStreamReader.mk None [] false 65536, []))
    by (vm_compute; reflexivity).
  destruct (connect_self_test Json.loads format_str None VLCApi.init 0
              [JsonStreamReader.feed_data chunk] _ _ _ d (JBool false) v
              table_ok_init eq_refl eq_refl eq_refl (or_introl eq_refl)
              R1 R2 eq_refl eq_refl eq_refl (or_introl eq_refl) eq_refl)
    as ((b & Hb & W) & _ & _ & _ & _ & Y & _).
  destruct (Y K) as (X & R & S).
  cbn zeta. split; [exact X|]. split; [exact R|]. split; [exact S|].
  rewrite W. f_equal. f_equal.
  assert (Hb' : Request.bytes
                  (Request.mk (VLCApi.request_count VLCApi.init)
                     (text "return 2+2") None create_future)
                = Some (lit "12:0:return 2+2"))
    by (vm_compute; reflexivity).
  rewrite Hb' in Hb. by injection Hb as <-.
Defined.

(** X19: an exception that ends the loop of [read] and is neither a
    RuntimeError nor an IncompleteReadError - the AssertionError and the
    LimitOverrunError of [readjson], a decoding error, an AttributeError
    or TypeError for a reply of the wrong shape, the InvalidStateError of
    a second reply - passes through [read] with the shutdown future
    cancelled and nothing else done: no request is cancelled, no error is
    recorded, so requests that wait keep waiting and [issue_request]
    goes on accepting new ones. *)
Theorem read_other_error_cancels_nothing
    (loads : bytes → loads_result) fuel evs (w : VLCApi.t) e w1 evs' f :
  VLCApi.read_loop loads fuel evs w = Some (Raise e, w1, evs') →
  is_RuntimeError e || is_IncompleteReadError e = false →
  VLCApi.shutdown w = Some f →
  ∃ w', VLCApi.read loads fuel evs w = Some (Raise e, w', evs')
    ∧ VLCApi.objects w' = VLCApi.objects w1
    ∧ VLCApi.current_requests w' = VLCApi.current_requests w
    ∧ VLCApi.read_exception w' = VLCApi.read_exception w
    ∧ VLCApi.writer w' = VLCApi.writer w
    ∧ VLCApi.reader_task w' = VLCApi.NoTask
    ∧ VLCApi.shutdown w' = Some (cancel f).1.
Proof.
  intros L Hcls Hs. unfold VLCApi.read. rewrite L, Hcls.
  destruct (read_loop_frame loads _ _ _ _ _ _ L) as (T & _ & W & _ & X & S & _).
  destruct (read_finally_frame w1) as (_ & W' & _ & _ & T' & O' & X' & K & F).
  rewrite S, Hs in F. destruct F as [F1 F2].
  destruct (VLCApi.read_finally w1) as [e' w2]. simpl in *. subst e'.
  exists w2. repeat split; congruence.
Qed.

Lemma read_other_error_cancels_nothing_witness :
  ∃ w', VLCApi.read Json.loads 2
          [JsonStreamReader.feed_data (lit "[1] ")] three_outstanding
        = Some (Raise (AttributeError (text "get")), w', [])
    ∧ VLCApi.objects w' !! 1%nat
      = Some (Request.mk 1 (text "b") None (mkFuture PENDING [cleanup 1]))
    ∧ VLCApi.read_exception w' = None.
Proof.
  set (evs := [JsonStreamReader.feed_data (lit "[1] ")]).
  assert (L : VLCApi.read_loop Json.loads 2 evs three_outstanding
              = Some (Raise (AttributeError (text "get")),
                      VLCApi.set_reader
                        (Some (JsonStreamReader.mk None (lit " ") false 65536))
                        three_outstanding, []))
    by (vm_compute; reflexivity).
  assert (Hs : VLCApi.shutdown three_outstanding = Some create_future)
    by (vm_compute; reflexivity).
  destruct (read_other_error_cancels_nothing Json.loads 2 evs three_outstanding
              _ _ _ _ L eq_refl Hs) as (w' & R & O & _ & X & _).
  exists w'. split; [exact R|]. split.
  - rewrite O. vm_compute. reflexivity.
  - rewrite X. vm_compute. reflexivity.
Defined.

(* ================================================================== *)
(** * Subtitle tracks *)
(* ================================================================== *)

Section StrFacts.









End StrFacts.


Section SpuFacts.
Import VLCApi.

Variable format : json → str.

Lemma spu_entry_is_some index text :
  is_Some (spu_entry index text) ↔ is_str text.
Proof.
  unfold spu_entry, split_once. destruct text as [| | | |s| |]; simpl;
    try (split; [by intros [? ?]|done]).
  split; [done|]. intros _.
  destruct (cut (Py.text " - ") s) as [[a b]|]; by eexists.
Qed.

(** The generator on texts that are all strings: one entry for each pair
    of the zip. *)
Lemma work_loop_strings pairs :
  Forall (λ p, is_str p.2) pairs →
  ∃ entries,
    work_loop pairs = (entries, None)
    ∧ length entries = length pairs
    ∧ ∀ i p, pairs !! i = Some p → entries !! i = spu_entry p.1 p.2.
Proof.
  induction 1 as [|[idx v] pairs Hv _ (entries & E & L & G)]; simpl.
  - exists []. by repeat split.
  - simpl in Hv. apply (spu_entry_is_some idx) in Hv as [entry Hv].
    rewrite Hv, E.
    exists (entry :: entries). split; [done|]. split; [by rewrite <- L|].
    intros [|i] p; simpl; [by intros [= <-]|apply G].
Qed.

(** The generator ends with AttributeError at a text that is no str. *)
Lemma work_loop_other pairs p :
  p ∈ pairs → ¬ is_str p.2 →
  (work_loop pairs).2 = Some (AttributeError (Py.text "split")).
Proof.
  intros Hin Hp. induction pairs as [|[idx v] pairs IH]; simpl.
  - by apply elem_of_nil in Hin.
  - destruct (spu_entry idx v) as [entry|] eqn:S; [|done].
    apply elem_of_cons in Hin as [->|Hin].
    + destruct Hp. apply (spu_entry_is_some idx v). by rewrite S.
    + specialize (IH Hin). by destruct (work_loop pairs).
Qed.

(** [get_spu_list] once [execute] has returned a reply whose result is a
    pair. *)
Lemma get_spu_list_pair others w d w' indices descriptions :
  execute format spu_list_command others w = (Return (JObj d), w') →
  dict_get (text "result") d = Some (JArr [indices; descriptions]) →
  get_spu_list format others w
  = (match work indices descriptions with
     | (entries, None) => SpuReturn entries
     | (_, Some e) => SpuRaise e
     end, w').
Proof.
  intros X R. unfold get_spu_list, get_spu_entries.
  fold spu_list_command. rewrite X, R. simpl.
  by destruct (work indices descriptions) as [entries [e|]].
Qed.

End SpuFacts.

(** X21: [get_spu_list] pairs the indices with the texts.  When the
    result of the reply is a list of two lists and the texts that have an
    index are strings, it returns one entry for each pair, in order, as
    many as the shorter of the two lists has items; what the longer list
    holds beyond that is ignored. *)
Theorem get_spu_list_pairs_entries
    (format : json → str) others (w : VLCApi.t) d w' indices descriptions :
  VLCApi.execute format spu_list_command others w = (Return (JObj d), w') →
  dict_get (text "result") d = Some (JArr [JArr indices; JArr descriptions]) →
  Forall is_str (take (length indices) descriptions) →
  ∃ entries,
    VLCApi.get_spu_list format others w = (VLCApi.SpuReturn entries, w')
    ∧ length entries = (length indices `min` length descriptions)%nat
    ∧ ∀ i index text,
        indices !! i = Some index → descriptions !! i = Some text →
        entries !! i = VLCApi.spu_entry index text.
Proof.
  intros X R F.
  rewrite (get_spu_list_pair format others w d w' _ _ X R).
  unfold VLCApi.work. simpl.
  destruct (work_loop_strings (zip indices descriptions)) as (entries & E & L & G).
  { clear -F. revert descriptions F.
    induction indices as [|i indices IH]; intros [|v descriptions]; simpl;
      try done.
    intros F. apply Forall_cons in F as [Hv F].
    apply Forall_cons. split; [done|]. by apply IH. }
  rewrite E. exists entries. split; [done|].
  split; [by rewrite L, length_zip|].
  intros i index text Hi Ht. apply (G i (index, text)).
  rewrite lookup_zip_with. by rewrite Hi, Ht.
Qed.

Lemma get_spu_list_pairs_entries_witness :
  let reply :=
    JObj [(text "reply_id", JInt 0); (text "timeout", JBool false);
          (text "result",
           JArr [JArr [JInt 3; JInt 4; JInt 5];
                 JArr [JStr (text "Track 1 - [English]");
                       JStr (text "Disable")]])] in
  (VLCApi.get_spu_list format_str (answer reply) connected).1
  = VLCApi.SpuReturn [SpuEntry.mk (JInt 3) (text "English") (text "Track 1");
               SpuEntry.mk (JInt 4) (text "none") (text "Disable")].
Proof.
  set (d := [(text "reply_id", JInt 0); (text "timeout", JBool false);
             (text "result",
              JArr [JArr [JInt 3; JInt 4; JInt 5];
                    JArr [JStr (text "Track 1 - [English]");
                          JStr (text "Disable")]])]).
  assert (X : ∃ w', VLCApi.execute format_str spu_list_command (answer (JObj d))
                      connected = (Return (JObj d), w')).
  { eexists. vm_compute. reflexivity. }
  destruct X as [w' X].
  destruct (get_spu_list_pairs_entries format_str (answer (JObj d)) connected d
              w' [JInt 3; JInt 4; JInt 5]
              [JStr (text "Track 1 - [English]"); JStr (text "Disable")]
              X eq_refl) as (entries & E & L & G).
  { repeat apply Forall_cons_2; try apply Forall_nil_2; exact I. }
  cbn zeta. fold d. rewrite E. cbn [fst]. f_equal.
  pose proof (G 0%nat _ _ eq_refl eq_refl) as G0.
  pose proof (G 1%nat _ _ eq_refl eq_refl) as G1.
  destruct entries as [|e0 [|e1 [|e2 entries]]]; try discriminate L.
  simpl in G0, G1. vm_compute in G0, G1.
  injection G0 as ->. injection G1 as ->. reflexivity.
Defined.

(** X22: a text that is no str - a null, a number, a list - at a place
    that has an index makes [get_spu_list] raise AttributeError: no list
    is returned, however many entries came before it. *)
Theorem get_spu_list_needs_strings
    (format : json → str) others (w : VLCApi.t) d w' indices descriptions
    i index text :
  VLCApi.execute format spu_list_command others w = (Return (JObj d), w') →
  dict_get (Py.text "result") d
  = Some (JArr [JArr indices; JArr descriptions]) →
  indices !! i = Some index →
  descriptions !! i = Some text →
  ¬ is_str text →
  VLCApi.get_spu_list format others w
  = (VLCApi.SpuRaise (AttributeError (Py.text "split")), w').
Proof.
  intros X R Hi Ht Hs.
  rewrite (get_spu_list_pair format others w d w' _ _ X R).
  unfold VLCApi.work. simpl.
  pose proof (work_loop_other (zip indices descriptions) (index, text)) as W.
  destruct (VLCApi.work_loop (zip indices descriptions)) as [entries e].
  simpl in W. rewrite W; [done| |done].
  apply (list_elem_of_lookup_2 _ i). rewrite lookup_zip_with.
  by rewrite Hi, Ht.
Qed.

Lemma get_spu_list_needs_strings_witness :
  let reply :=
    JObj [(text "reply_id", JInt 0); (text "timeout", JBool false);
          (text "result",
           JArr [JArr [JInt 3; JInt 4];
                 JArr [JStr (text "Track 1 - [English]"); JNull]])] in
  (VLCApi.get_spu_list format_str (answer reply) connected).1
  = VLCApi.SpuRaise (AttributeError (text "split")).
Proof.
  set (d := [(text "reply_id", JInt 0); (text "timeout", JBool false);
             (text "result",
              JArr [JArr [JInt 3; JInt 4];
                    JArr [JStr (text "Track 1 - [English]"); JNull]])]).
  assert (X : ∃ w', VLCApi.execute format_str spu_list_command (answer (JObj d))
                      connected = (Return (JObj d), w')).
  { eexists. vm_compute. reflexivity. }
  destruct X as [w' X].
  cbn zeta. fold d.
  rewrite (get_spu_list_needs_strings format_str (answer (JObj d)) connected d
             w' [JInt 3; JInt 4] [JStr (text "Track 1 - [English]"); JNull]
             1%nat (JInt 4) JNull X eq_refl eq_refl eq_refl (λ H, H)).
  reflexivity.
Defined.

(** X23: replies that [get_spu_list] cannot unpack.  A reply without a
    result raises KeyError; a result that is a list of fewer or more than
    two items raises the ValueError of the unpacking; a result that is a
    number, a boolean or null raises TypeError.  In each case the client
    is as [execute] left it. *)
Theorem get_spu_list_needs_a_pair
    (format : json → str) others (w : VLCApi.t) d w' :
  VLCApi.execute format spu_list_command others w = (Return (JObj d), w') →
  (dict_get (text "result") d = None →
   VLCApi.get_spu_list format others w
   = (VLCApi.SpuRaise (KeyError (text "result")), w'))
  ∧ (∀ items, dict_get (text "result") d = Some (JArr items) →
              length items ≠ 2%nat →
              VLCApi.get_spu_list format others w = (VLCApi.SpuValueError, w'))
  ∧ (∀ result, dict_get (text "result") d = Some result →
               iterate result = None →
               VLCApi.get_spu_list format others w = (VLCApi.SpuRaise TypeError, w')).
Proof.
  intros X. unfold VLCApi.get_spu_list, VLCApi.get_spu_entries.
  fold spu_list_command. rewrite X. split; [|split].
  - by intros ->.
  - intros items -> L. simpl.
    by destruct items as [|a [|b [|c items]]].
  - intros result -> I. by rewrite I.
Qed.

Lemma get_spu_list_needs_a_pair_witness :
  let reply :=
    JObj [(text "reply_id", JInt 0); (text "timeout", JBool false);
          (text "result", JArr [])] in
  (VLCApi.get_spu_list format_str (answer reply) connected).1 = VLCApi.SpuValueError.
Proof.
  set (d := [(text "reply_id", JInt 0); (text "timeout", JBool false);
             (text "result", JArr [])]).
  assert (X : ∃ w', VLCApi.execute format_str spu_list_command (answer (JObj d))
                      connected = (Return (JObj d), w')).
  { eexists. vm_compute. reflexivity. }
  destruct X as [w' X].
  destruct (get_spu_list_needs_a_pair format_str (answer (JObj d)) connected d
              w' X) as (_ & V & _).
  cbn zeta. fold d. rewrite (V [] eq_refl); [reflexivity|discriminate].
Defined.

Section SelectFacts.
Import VLCApi.

Variable format : json → str.
Variable lower : str → str.

Lemma ascii_only_forallb s :
  forallb (λ c, (c <? 128)%N) s = true → ascii_only s.
Proof.
  intros H. apply Forall_forall. intros c Hc. apply list_elem_of_In in Hc.
  rewrite forallb_forall in H. specialize (H c Hc). by apply N.ltb_lt.
Qed.

Lemma ascii_only_select_command spu :
  ascii_only (format (SpuEntry.index spu)) →
  ascii_only (select_command format spu).
Proof.
  intros H. unfold select_command.
  repeat (apply Forall_app; split); try done;
    apply ascii_only_forallb; vm_compute; reflexivity.
Qed.

(** A request that the peer answers at once, with nothing else going on:
    [execute] returns the reply, and the client is as before but for the
    frame written, the counter and the resolved request in the store. *)
Lemma execute_echo lua w out b :
  table_ok w →
  read_exception w = None →
  writer w = Some out →
  Request.bytes (Request.mk (request_count w) lua None create_future) = Some b →
  ready w = [] →
  execute format lua echo w
  = (Return (JObj (reply_to (request_count w))),
     mk (reader w) (Some (out ++ [b])) (running w) (reader_task w)
        (request_count w + 1) (current_requests w) None (shutdown w)
        (<[fresh (dom (objects w)) :=
             Request.mk (request_count w) lua
               (Some (JObj (reply_to (request_count w))))
               (mkFuture FINISHED [])]> (objects w)) []).
Proof.
  intros Hok He Hw Hb Hrd.
  destruct (answer_issued lua w out b (reply_to (request_count w))
              Hok He Hw Hb Hrd eq_refl) as [E A].
  assert (C : request_count (issue_request lua w).2 = request_count w + 1).
  { by destruct (issue_request_registers lua w He) as (C & _). }
  unfold execute. rewrite E. cbn [snd]. unfold echo. rewrite C.
  replace (request_count w + 1 - 1) with (request_count w) by lia.
  rewrite A. f_equal. unfold await_reply. simpl objects.
  by rewrite lookup_insert_eq.
Qed.

Lemma select_spu_echo spu w out b :
  table_ok w →
  read_exception w = None →
  writer w = Some out →
  Request.bytes (Request.mk (request_count w) (select_command format spu)
                   None create_future) = Some b →
  ready w = [] →
  ∃ w', select_spu format spu echo w = (Return (), w')
        ∧ table_ok w' ∧ read_exception w' = None
        ∧ writer w' = Some (out ++ [b]) ∧ ready w' = []
        ∧ request_count w' = request_count w + 1
        ∧ current_requests w' = current_requests w.
Proof.
  intros Hok He Hw Hb Hrd. unfold select_spu. fold (select_command format spu).
  rewrite (execute_echo _ w out b Hok He Hw Hb Hrd).
  eexists. split; [done|]. repeat split; try done.
  - apply Hok.
  - simpl. destruct Hok as [_ F]. eapply Forall_impl; [exact F|].
    simpl. intros; lia.
Qed.

End SelectFacts.

(** X24: a track that is the only English one and whose description
    holds the word full is selected twice.  With a peer that answers each
    request, the selection writes two frames - the same command under two
    successive ids - and returns; the table is as before. *)
Theorem select_tracks_selects_twice
    (format : json → str) (lower : str → str)
    (spu_list : list SpuEntry.t) (spu : SpuEntry.t) (w : VLCApi.t) out :
  filter (λ s, contains (text "english") (lower (SpuEntry.language s)) = true)
    spu_list = [spu] →
  contains (text "full") (lower (SpuEntry.description spu)) = true →
  ascii_only (format (SpuEntry.index spu)) →
  table_ok w →
  VLCApi.read_exception w = None →
  VLCApi.writer w = Some out →
  VLCApi.ready w = [] →
  ∃ b1 b2 w',
    Request.bytes (Request.mk (VLCApi.request_count w)
                     (select_command format spu) None create_future) = Some b1
    ∧ Request.bytes (Request.mk (VLCApi.request_count w + 1)
                       (select_command format spu) None create_future) = Some b2
    ∧ VLCApi.select_tracks format lower spu_list echo w = (Return (), w')
    ∧ VLCApi.writer w' = Some (out ++ [b1; b2])
    ∧ VLCApi.request_count w' = VLCApi.request_count w + 2
    ∧ VLCApi.current_requests w' = VLCApi.current_requests w.
Proof.
  intros HE HF Ha Hok He Hw Hrd.
  pose proof (ascii_only_select_command format spu Ha) as Hc.
  destruct (request_bytes_ascii (VLCApi.request_count w)
              (select_command format spu) None create_future Hc) as [b1 Hb1].
  destruct (request_bytes_ascii (VLCApi.request_count w + 1)
              (select_command format spu) None create_future Hc) as [b2 Hb2].
  destruct (select_spu_echo format spu w out b1 Hok He Hw Hb1 Hrd)
    as (w1 & S1 & Hok1 & He1 & Hw1 & Hrd1 & C1 & T1).
  rewrite <- C1 in Hb2.
  destruct (select_spu_echo format spu w1 _ b2 Hok1 He1 Hw1 Hb2 Hrd1)
    as (w2 & S2 & _ & _ & Hw2 & _ & C2 & T2).
  exists b1, b2, w2. split; [done|]. split; [by rewrite <- C1|].
  split.
  - unfold VLCApi.select_tracks. rewrite HE, S1. cbn zeta.
    rewrite filter_cons_True by done. by rewrite filter_nil.
  - split; [by rewrite Hw2, <- app_assoc|]. split; [lia|congruence].
Qed.

Lemma select_tracks_selects_twice_witness :
  ∃ w',
    VLCApi.select_tracks format_str ascii_lower
      [SpuEntry.mk (JStr (text "3")) (text "English") (text "Full track");
       SpuEntry.mk (JStr (text "4")) (text "none") (text "Disable")]
      echo connected = (Return (), w')
    ∧ VLCApi.writer w'
      = Some [lit "46:0:vlc.var.set(vlc.object.input(), 'spu-es', 3)";
              lit "46:1:vlc.var.set(vlc.object.input(), 'spu-es', 3)"].
Proof.
  set (spu := SpuEntry.mk (JStr (text "3")) (text "English") (text "Full track")).
  set (l := [spu; SpuEntry.mk (JStr (text "4")) (text "none") (text "Disable")]).
  assert (HE : filter (λ s, contains (text "english")
                              (ascii_lower (SpuEntry.language s)) = true) l
               = [spu]).
  { vm_compute. reflexivity. }
  assert (HF : contains (text "full") (ascii_lower (SpuEntry.description spu))
               = true).
  { vm_compute. reflexivity. }
  assert (Ha : ascii_only (format_str (SpuEntry.index spu))).
  { apply Forall_cons_2; [done|apply Forall_nil_2]. }
  assert (Hok : table_ok connected).
  { split; simpl; constructor. }
  destruct (select_tracks_selects_twice format_str ascii_lower l spu connected []
              HE HF Ha Hok eq_refl eq_refl eq_refl)
    as (b1 & b2 & w' & Hb1 & Hb2 & S & W & _).
  exists w'. split; [exact S|]. rewrite W. simpl app.
  assert (Hb1' : Request.bytes
                   (Request.mk (VLCApi.request_count connected)
                      (select_command format_str spu) None create_future)
                 = Some (lit "46:0:vlc.var.set(vlc.object.input(), 'spu-es', 3)"))
    by (vm_compute; reflexivity).
  assert (Hb2' : Request.bytes
                   (Request.mk (VLCApi.request_count connected + 1)
                      (select_command format_str spu) None create_future)
                 = Some (lit "46:1:vlc.var.set(vlc.object.input(), 'spu-es', 3)"))
    by (vm_compute; reflexivity).
  rewrite Hb1' in Hb1. rewrite Hb2' in Hb2.
  injection Hb1 as <-. injection Hb2 as <-. reflexivity.
Defined.

(** X25: no track is selected when the choice is not clear.  If the
    English tracks are none or several, and those of them whose
    description holds the word full are none or several too,
    the selection issues no request and leaves the client as it is:
    nothing is written and no id is used. *)
Theorem select_tracks_ambiguous_selects_none
    (format : json → str) (lower : str → str)
    (spu_list : list SpuEntry.t) others (w : VLCApi.t) :
  let english :=
    filter (λ s, contains (text "english") (lower (SpuEntry.language s)) = true)
      spu_list in
  let full :=
    filter (λ s, contains (text "full") (lower (SpuEntry.description s)) = true)
      english in
  length english ≠ 1%nat →
  length full ≠ 1%nat →
  VLCApi.select_tracks format lower spu_list others w = (Return (), w).
Proof.
  intros english full HE HF. unfold VLCApi.select_tracks.
  fold english. cbn zeta.
  assert (E : match english with
              | [spu] => VLCApi.select_spu format spu others w
              | _ => (Return (), w)
              end = (Return (), w)).
  { by destruct english as [|a [|b l]]. }
  rewrite E. fold full. by destruct full as [|a [|b l]].
Qed.

Lemma select_tracks_ambiguous_selects_none_witness :
  VLCApi.select_tracks format_str ascii_lower
    [SpuEntry.mk (JInt 3) (text "English") (text "Track 1");
     SpuEntry.mk (JInt 4) (text "English") (text "Track 2")]
    echo connected = (Return (), connected).
Proof.
  apply (select_tracks_ambiguous_selects_none format_str ascii_lower
           [SpuEntry.mk (JInt 3) (text "English") (text "Track 1");
            SpuEntry.mk (JInt 4) (text "English") (text "Track 2")]
           echo connected); vm_compute; discriminate.
Defined.

(** X26: the reply id is looked up as a dict key, so what counts is the
    integer it equals.  A reply whose id is the boolean true or a float
    equal to 1 - the literal 1.0, or any literal that is read as that
    double - resolves the pending request 1 just as the integer 1 does;
    an id that equals no integer - a string, a float with a fraction -
    leaves the reply undelivered without an error; an id that is a list
    or a dict raises TypeError. *)
Theorem dispatch_matches_equal_keys d v (w : VLCApi.t) :
  dict_get (text "reply_id") d = Some v →
  (∀ k r req,
     as_int_key v = IntKey k →
     dict_get k (VLCApi.current_requests w) = Some r →
     VLCApi.objects w !! r = Some req →
     _state (Request.completed req) = PENDING →
     VLCApi.dispatch (JObj d) w
     = (None, VLCApi.call_soon (_callbacks (Request.completed req))
                (VLCApi.set_objects
                   (<[r := resolved (JObj d) req]> (VLCApi.objects w)) w)))
  ∧ (as_int_key v = NoIntKey → VLCApi.dispatch (JObj d) w = (None, w))
  ∧ (as_int_key v = Unhashable →
     VLCApi.dispatch (JObj d) w = (Some TypeError, w)).
Proof.
  intros Hd. unfold VLCApi.dispatch. rewrite Hd. split; [|split].
  - intros k r req K T O S.
    assert (N : v ≠ JNull) by (by intros ->).
    assert (G : match as_int_key v with
                | Unhashable => (Some TypeError, w)
                | NoIntKey => (None, w)
                | IntKey k =>
                    match dict_get k (VLCApi.current_requests w) with
                    | None => (None, w)
                    | Some r =>
                        match VLCApi.objects w !! r with
                        | None => (None, w)
                        | Some request =>
                            let request := Request.with_reply (JObj d) request in
                            if cancelled (Request.completed request) then
                              (None, VLCApi.set_objects
                                       (<[r := request]> (VLCApi.objects w)) w)
                            else
                              match set_result (Request.completed request) with
                              | None =>
                                  (Some InvalidStateError,
                                   VLCApi.set_objects
                                     (<[r := request]> (VLCApi.objects w)) w)
                              | Some (f, cbs) =>
                                  (None,
                                   VLCApi.call_soon cbs
                                     (VLCApi.set_objects
                                        (<[r := Request.with_completed f request]>
                                           (VLCApi.objects w)) w))
                              end
                        end
                    end
                end
                = (None, VLCApi.call_soon (_callbacks (Request.completed req))
                           (VLCApi.set_objects
                              (<[r := resolved (JObj d) req]> (VLCApi.objects w))
                              w))).
    { rewrite K, T, O. cbn zeta. unfold cancelled, set_result. simpl.
      by rewrite S. }
    by destruct v.
  - intros K. destruct v; try done; by rewrite K.
  - intros K. destruct v; try done; by rewrite K.
Qed.

Lemma dispatch_matches_equal_keys_witness :
  let reply := [(text "reply_id", JFloat (text "1.00000000000000000001"));
                (text "timeout", JBool false)] in
  VLCApi.objects (VLCApi.dispatch (JObj reply) three_outstanding).2 !! 1%nat
  = Some (Request.mk 1 (text "b") (Some (JObj reply)) (mkFuture FINISHED [])).
Proof.
  set (d := [(text "reply_id", JFloat (text "1.00000000000000000001"));
             (text "timeout", JBool false)]).
  destruct (dispatch_matches_equal_keys d (JFloat (text "1.00000000000000000001")) three_outstanding
              eq_refl) as (P & _ & _).
  assert (K : as_int_key (JFloat (text "1.00000000000000000001")) = IntKey 1)
    by (vm_compute; reflexivity).
  assert (T : dict_get 1 (VLCApi.current_requests three_outstanding) = Some 1%nat)
    by (vm_compute; reflexivity).
  assert (O : VLCApi.objects three_outstanding !! 1%nat
              = Some (Request.mk 1 (text "b") None (mkFuture PENDING [cleanup 1])))
    by (vm_compute; reflexivity).
  cbn zeta. fold d. rewrite (P 1 1%nat _ K T O eq_refl).
  cbn [snd]. simpl VLCApi.objects. by rewrite lookup_insert_eq.
Defined.

(* ================================================================== *)
(** * The read loop on the replies that arrive *)
(* ================================================================== *)

Section DeliveredFacts.
Import VLCApi.

Variable loads : bytes → loads_result.

Lemma dispatch_all_set_reader x replies w :
  dispatch_all replies (set_reader x w)
  = ((dispatch_all replies w).1, set_reader x (dispatch_all replies w).2).
Proof.
  revert w. induction replies as [|reply replies IH]; intros w; [done|].
  rewrite !dispatch_all_cons, dispatch_set_reader.
  destruct (dispatch reply w) as [[e|] w1]; [done|]. apply IH.
Qed.

Lemma dispatch_all_running replies w :
  running (dispatch_all replies w).2 = running w.
Proof.
  revert w. induction replies as [|reply replies IH]; intros w; [done|].
  rewrite dispatch_all_cons.
  destruct (dispatch_frame reply w) as (_ & _ & _ & R & _).
  destruct (dispatch reply w) as [[e|] w1]; [done|].
  simpl in R. by rewrite IH.
Qed.

Lemma read_loop_unfold fuel evs w :
  read_loop loads (S fuel) evs w
  = if running w then
      match reader w with
      | None => Some (Raise (AttributeError (text "reader")), w, evs)
      | Some r =>
          let '(o, r', evs') := JsonStreamReader.readjson loads evs r in
          let w := set_reader (Some r') w in
          match o with
          | Suspended => Some (Suspended, w, evs')
          | Raise e => Some (Raise e, w, evs')
          | Return reply =>
              match dispatch reply w with
              | (None, w') => read_loop loads fuel evs' w'
              | (Some e, w') => Some (Raise e, w', evs')
              end
          end
      end
    else Some (Return (), w, evs).
Proof. done. Qed.

(** The loop of [read] is the dispatcher on what [readjson] delivers, in
    the order of delivery. *)
Lemma read_loop_delivers n replies evs w rd rd' :
  running w = true →
  reader w = Some rd →
  delivers loads replies evs rd rd' →
  (dispatch_all replies w).1 = None →
  read_loop loads (S (length replies + n)) evs w
  = Some (Suspended, set_reader (Some rd') (dispatch_all replies w).2, []).
Proof.
  revert evs w rd. induction replies as [|reply replies IH];
    intros evs w rd Hr Hrd Hd Hn.
  - simpl in Hd. rewrite read_loop_unfold. by rewrite Hr, Hrd, Hd.
  - destruct Hd as (rd1 & evs1 & R & Hd).
    rewrite dispatch_all_cons in Hn. rewrite dispatch_all_cons.
    cbn [length Nat.add]. rewrite read_loop_unfold.
    rewrite Hr, Hrd, R. cbn zeta. rewrite dispatch_set_reader.
    destruct (dispatch_frame reply w) as (_ & _ & _ & Rn & _).
    destruct (dispatch reply w) as [[e|] w1]; [done|]. cbn [fst snd] in *.
    rewrite (IH evs1 (set_reader (Some rd1) w1) rd1); try done.
    + by rewrite dispatch_all_set_reader.
    + simpl. by rewrite Rn.
    + by rewrite dispatch_all_set_reader.
Qed.

End DeliveredFacts.

(** X29: replies to distinct pending requests that [readjson] delivers,
    in whatever order.  The read loop dispatches them one after the
    other and then waits for more: each request is resolved with the
    reply that carries its id, no other Request object changes, and the
    table is as it was (the entries leave it when the event loop calls
    their [cleanup]). *)
Theorem read_resolves_delivered_replies
    (loads : bytes → loads_result) (n : nat)
    (replies : list (Z * list (str * json))) evs (w : VLCApi.t) rd rd' :
  wf w →
  VLCApi.running w = true →
  VLCApi.reader w = Some rd →
  delivers loads (JObj <$> replies.*2) evs rd rd' →
  NoDup replies.*1 →
  (∀ k d, (k, d) ∈ replies →
     dict_get (text "reply_id") d = Some (JInt k)
     ∧ ∃ r req, dict_get k (VLCApi.current_requests w) = Some r
                ∧ VLCApi.objects w !! r = Some req
                ∧ _state (Request.completed req) = PENDING) →
  ∃ w', VLCApi.read loads (S (length replies + n)) evs w
        = Some (Suspended, w', [])
    ∧ VLCApi.reader w' = Some rd'
    ∧ VLCApi.current_requests w' = VLCApi.current_requests w
    ∧ (∀ k d r req, (k, d) ∈ replies →
         dict_get k (VLCApi.current_requests w) = Some r →
         VLCApi.objects w !! r = Some req →
         VLCApi.objects w' !! r = Some (resolved (JObj d) req))
    ∧ (∀ r, (∀ k d, (k, d) ∈ replies →
                    dict_get k (VLCApi.current_requests w) ≠ Some r) →
         VLCApi.objects w' !! r = VLCApi.objects w !! r).
Proof.
  intros Hwf Hr Hrd Hd Hnd Hall.
  destruct (dispatch_all_resolves replies w Hwf Hnd Hall)
    as (w1 & D & T & Hres & Hrest).
  exists (VLCApi.set_reader (Some rd') w1). split.
  - unfold VLCApi.read.
    pose proof (read_loop_delivers loads n (JObj <$> replies.*2) evs w rd rd'
                  Hr Hrd Hd) as L.
    rewrite D in L. rewrite !length_fmap in L. by rewrite L.
  - by repeat split.
Qed.

Lemma read_resolves_delivered_replies_witness :
  ∃ w', VLCApi.read Json.loads 4
          [JsonStreamReader.feed_data
             (lit "{'reply_id':2,'timeout':false} {'reply_id':0,'timeout':false} ");
           JsonStreamReader.feed_data (lit "{'reply_id':1,'timeout':false} ")]
          three_outstanding
        = Some (Suspended, w', [])
    ∧ VLCApi.objects w' !! 0%nat
      = Some (Request.mk 0 (text "a") (Some (JObj (reply_to 0)))
                (mkFuture FINISHED []))
    ∧ VLCApi.objects w' !! 1%nat
      = Some (Request.mk 1 (text "b") (Some (JObj (reply_to 1)))
                (mkFuture FINISHED []))
    ∧ VLCApi.objects w' !! 2%nat
      = Some (Request.mk 2 (text "c") (Some (JObj (reply_to 2)))
                (mkFuture FINISHED [])).
Proof.
  set (evs := [JsonStreamReader.feed_data
                 (lit "{'reply_id':2,'timeout':false} {'reply_id':0,'timeout':false} ");
               JsonStreamReader.feed_data (lit "{'reply_id':1,'timeout':false} ")]).
  set (rd := JsonStreamReader.mk None [] false 65536).
  assert (Hrd : VLCApi.reader three_outstanding = Some rd)
    by (vm_compute; reflexivity).
  assert (Hr : VLCApi.running three_outstanding = true)
    by (vm_compute; reflexivity).
  assert (Hd : delivers Json.loads
                 (JObj <$> [(2, reply_to 2); (0, reply_to 0); (1, reply_to 1)].*2)
                 evs rd rd).
  { simpl. do 3 (eexists _, _; split; [vm_compute; reflexivity|]).
    vm_compute. reflexivity. }
  destruct (read_resolves_delivered_replies Json.loads 0
              [(2, reply_to 2); (0, reply_to 0); (1, reply_to 1)]
              evs three_outstanding rd rd
              (wf_issue_each _ _ wf_connected) Hr Hrd Hd)
    as (w' & R & _ & _ & Hres & _).
  - apply (bool_decide_unpack _). vm_compute. exact I.
  - intros k d Hin. rewrite !elem_of_cons in Hin.
    destruct Hin as [[= -> ->]|[[= -> ->]|[[= -> ->]|Hin]]];
      [| | |by apply elem_of_nil in Hin]; (split; [vm_compute; reflexivity|]).
    + exists 2%nat, (Request.mk 2 (text "c") None (mkFuture PENDING [cleanup 2])).
      vm_compute. auto.
    + exists 0%nat, (Request.mk 0 (text "a") None (mkFuture PENDING [cleanup 0])).
      vm_compute. auto.
    + exists 1%nat, (Request.mk 1 (text "b") None (mkFuture PENDING [cleanup 1])).
      vm_compute. auto.
  - exists w'. split; [exact R|].
    split; [|split].
    + apply (Hres 0 (reply_to 0) 0%nat
               (Request.mk 0 (text "a") None (mkFuture PENDING [cleanup 0])));
        [do 1 apply list_elem_of_further; apply list_elem_of_here
        |vm_compute; reflexivity|vm_compute; reflexivity].
    + apply (Hres 1 (reply_to 1) 1%nat
               (Request.mk 1 (text "b") None (mkFuture PENDING [cleanup 1])));
        [do 2 apply list_elem_of_further; apply list_elem_of_here
        |vm_compute; reflexivity|vm_compute; reflexivity].
    + apply (Hres 2 (reply_to 2) 2%nat
               (Request.mk 2 (text "c") None (mkFuture PENDING [cleanup 2])));
        [apply list_elem_of_here|vm_compute; reflexivity|vm_compute; reflexivity].
Defined.
